(** * Vyxal [LazyList]: a shallow embedding of [vyxal/LazyList.py]

    The module wraps a one-shot Python iterator ([raw_object]) together with
    a list of the values already pulled from it ([generated]).  Python
    objects with identity (iterators, [itertools.tee] clones, generators,
    [LazyList] instances) live in a store indexed by locations; every method
    is a computation in a small state-and-exception monad over that store.
    Recursion through the store ([next] on an iterator that wraps another
    iterator) is bounded by a fuel argument. *)

From Stdlib Require Import ZArith QArith String Lia.
From stdpp Require Import base list sets.

Local Open Scope Z_scope.
Set Warnings "-register-all".

(** ** Values *)

(** Locations of the store. *)
Abbreviation loc := nat.

(** A Python [float] other than a NaN: a finite binary64 number, given by
    its exact value, or an infinity. *)
Inductive pyfloat : Type :=
| Finite (q : Q)
| Infinite (negative : bool).

(** The Python values the module inspects with [isinstance].  [VRat],
    [VSymInt] and [VSymMul] are sympy's [Rational], [Integer] and
    [Mul]/[factorial] expressions.  A symbolic product is identified with
    the rational that [sympy.Rational(str(float(e)))] evaluates to, the
    payload of [VSymMul] (the decimal round trip is sympy's and CPython's).
    [VTuple] stands for the finite iterable containers that are not [list];
    [VIter] is a reference to an iterator object and [VLazy] a reference to
    a [LazyList]. *)
Inductive value : Type :=
| VInt (z : Z)
| VFloat (f : pyfloat)
| VStr (s : string)
| VRat (q : Q)
| VSymInt (z : Z)
| VSymMul (q : Q)
| VList (l : list value)
| VTuple (l : list value)
| VLazy (l : loc)
| VIter (l : loc).

(** State of a [join_with(lhs, rhs)] generator: not started, inside the first
    loop, inside the second loop, finished. *)
Inductive join_state : Type :=
| JStart (lhs rhs : value)
| JLeft (it : loc) (rhs : value)
| JRight (it : loc)
| JDone.

(** State of the [infinite_index] generator closed over [self], [start] and
    [step] (its [stop] is [None]). *)
Inductive index_state : Type :=
| XStart (self : loc) (start step : Z)
| XYield (rest : list value)
| XDone.

(** The two functions the module hands to [map]. *)
Inductive mapfn : Type := MVyxalify | MSimplify.

(** Objects of the store. [OGen rest] is a plain one-shot producer (a list
    iterator or a generator) with the values it has yet to yield; [OBuf] is
    the buffer shared by the clones [OTee] of one [itertools.tee] family. *)
Inductive obj : Type :=
| OGen (rest : list value)
| OBuf (under : loc) (data : list value)
| OTee (buf : loc) (pos : nat)
| OJoin (st : join_state)
| OMap (f : mapfn) (under : loc)
| OIndex (st : index_state)
| OLazy (raw_object : loc) (generated : list value) (infinite : bool).

(** The store; allocation appends. *)
Abbreviation heap := (list obj).

(** ** The monad: store passing with Python exceptions *)

Inductive exn : Type := StopIteration | TypeError | IndexError.

Inductive outcome (A : Type) : Type :=
| Ret (a : A)
| Raise (e : exn)
| OutOfFuel.
Arguments Ret {A} a.
Arguments Raise {A} e.
Arguments OutOfFuel {A}.

Definition M (A : Type) : Type := heap -> outcome A * heap.

Definition ret {A} (a : A) : M A := fun h => (Ret a, h).
Definition raise {A} (e : exn) : M A := fun h => (Raise e, h).
Definition out_of_fuel {A} : M A := fun h => (OutOfFuel, h).

Definition bind {A B} (m : M A) (k : A -> M B) : M B :=
  fun h =>
    match m h with
    | (Ret a, h') => k a h'
    | (Raise e, h') => (Raise e, h')
    | (OutOfFuel, h') => (OutOfFuel, h')
    end.

Declare Scope py_scope.
Delimit Scope py_scope with py.
Notation "x <- m ;; k" := (bind m (fun x => k))
  (at level 100, m at next level, right associativity) : py_scope.
Notation "m ;;; k" := (bind m (fun _ => k))
  (at level 100, right associativity) : py_scope.
Local Open Scope py_scope.

(** [try: m  except StopIteration: handler]. *)
Definition try_stop {A} (m : M A) (handler : M A) : M A :=
  fun h =>
    match m h with
    | (Raise StopIteration, h') => handler h'
    | r => r
    end.

(** [m], and when it raises, first run [cleanup] (a generator that raises
    is finished). *)
Definition on_raise {A} (m : M A) (cleanup : heap -> heap) : M A :=
  fun h =>
    match m h with
    | (Raise e, h') => (Raise e, cleanup h')
    | r => r
    end.

Definition alloc (o : obj) : M loc := fun h => (Ret (length h), h ++ [o]).
Definition store (l : loc) (o : obj) : heap -> heap := fun h => <[l := o]> h.
Definition write (l : loc) (o : obj) : M unit := fun h => (Ret tt, store l o h).
Definition read (l : loc) : M obj :=
  fun h => match h !! l with
           | Some o => (Ret o, h)
           | None => (Raise TypeError, h)
           end.

(** ** Numbers *)

(** Round [a / d] (with [0 <= a], [0 < d]) to the nearest integer, ties to
    even. *)
Definition round_half_even (a d : Z) : Z :=
  let q := a / d in
  let r := a mod d in
  if 2 * r <? d then q
  else if d <? 2 * r then q + 1
  else if Z.even q then q else q + 1.

(** The number with a 53-bit significand nearest to a rational, ties to
    even, whatever its exponent (mpmath's [from_rational] at precision
    53). *)
Definition round_53 (q : Q) : Q :=
  let a := Z.abs (Qnum q) in
  let d := Zpos (Qden q) in
  if a =? 0 then 0%Q
  else
    let scaled s := if 0 <=? s then (a * 2 ^ s, d) else (a, d * 2 ^ (- s)) in
    let s0 := 52 - (Z.log2 a - Z.log2 d) in
    let s := if (fst (scaled s0) / snd (scaled s0)) <? 2 ^ 52
             then s0 + 1 else s0 in
    let m := round_half_even (fst (scaled s)) (snd (scaled s)) in
    let m := if Qnum q <? 0 then - m else m in
    if 0 <=? s then Qred (Qmake m (Z.to_pos (2 ^ s)))
    else inject_Z (m * 2 ^ (- s)).

(** A number with a 53-bit significand as a binary64 float (mpmath's
    [to_float], through [math.ldexp]): from [2 ^ 1024] on it overflows to an
    infinity; below [2 ^ -1022] it is rounded to a multiple of
    [2 ^ -1074], ties to even, which may be zero. *)
Definition to_float (r : Q) : pyfloat :=
  let a := Z.abs (Qnum r) in
  let d := Zpos (Qden r) in
  if 2 ^ 1024 * d <=? a then Infinite (Qnum r <? 0)
  else if a * 2 ^ 1022 <? d then
    let n := round_half_even (a * 2 ^ 1074) d in
    let n := if Qnum r <? 0 then - n else n in
    Finite (Qred (Qmake n (Z.to_pos (2 ^ 1074))))
  else Finite r.

(** [float(r)] for a sympy [Rational] or [Integer] [r]. *)
Definition float_of_Q (q : Q) : pyfloat := to_float (round_53 q).

(** [sympy.Rational(...)] returns an [Integer] when the value is integral. *)
Definition sym_rational (q : Q) : value :=
  let r := Qred q in
  if Pos.eqb (Qden r) 1 then VSymInt (Qnum r) else VRat r.

(** The value of a number, [None] for everything else. *)
Definition num_val (v : value) : option pyfloat :=
  match v with
  | VInt z => Some (Finite (inject_Z z))
  | VFloat f => Some f
  | VRat q => Some (Finite q)
  | VSymInt z => Some (Finite (inject_Z z))
  | _ => None
  end.

(** [x == y] and [x <= y] on the values of numbers. *)
Definition float_eqb (x y : pyfloat) : bool :=
  match x, y with
  | Finite a, Finite b => Qeq_bool a b
  | Infinite s, Infinite t => Bool.eqb s t
  | _, _ => false
  end.

Definition float_leb (x y : pyfloat) : bool :=
  match x, y with
  | Finite a, Finite b => Qle_bool a b
  | Infinite true, _ => true
  | _, Infinite false => true
  | _, _ => false
  end.

(** ** Containers and iterators *)

(** Iterating a [str] yields its characters as one-character strings. *)
Definition chars (s : string) : list value :=
  map (fun c => VStr (String c EmptyString)) (list_ascii_of_string s).

(** The elements of [l] at positions [0], [k], [2k], ... (for [1 <= k]). *)
Definition stride (k : nat) (l : list value) : list value :=
  omap (fun j => l !! (j * k)%nat) (seq 0 (length l)).

(** [l[start::step]] for a non-zero [step]. *)
Definition slice_from (l : list value) (start step : Z) : list value :=
  let n := Z.of_nat (length l) in
  if 0 <? step then
    let s := if start <? 0 then Z.max (start + n) 0 else Z.min start n in
    stride (Z.to_nat step) (drop (Z.to_nat s) l)
  else
    let s := if start <? 0 then Z.max (start + n) (-1)
             else Z.min start (n - 1) in
    stride (Z.to_nat (- step)) (reverse (take (Z.to_nat (s + 1)) l)).

(** [l[i]] with Python's negative indices. *)
Definition py_index (l : list value) (i : Z) : M value :=
  let n := Z.of_nat (length l) in
  let j := if i <? 0 then i + n else i in
  if (0 <=? j) && (j <? n) then
    match l !! Z.to_nat j with
    | Some v => ret v
    | None => raise IndexError
    end
  else raise IndexError.

(** [range(start, stop, step)] for a non-zero [step]. *)
Definition py_range (start stop step : Z) : list Z :=
  if 0 <? step then
    map (fun j => start + Z.of_nat j * step)
        (seq 0 (Z.to_nat ((stop - start + step - 1) / step)))
  else
    map (fun j => start + Z.of_nat j * step)
        (seq 0 (Z.to_nat ((start - stop - step - 1) / (- step)))).

(** Attribute access on a [LazyList]. *)
Definition get_raw_object (self : loc) : M loc :=
  o <- read self ;;
  match o with OLazy r _ _ => ret r | _ => raise TypeError end.

Definition get_generated (self : loc) : M (list value) :=
  o <- read self ;;
  match o with OLazy _ g _ => ret g | _ => raise TypeError end.

Definition get_infinite (self : loc) : M bool :=
  o <- read self ;;
  match o with OLazy _ _ i => ret i | _ => raise TypeError end.

Definition set_raw_object (self : loc) (r : loc) : M unit :=
  o <- read self ;;
  match o with
  | OLazy _ g i => write self (OLazy r g i)
  | _ => raise TypeError
  end.

Definition set_generated (self : loc) (g : list value) : M unit :=
  o <- read self ;;
  match o with
  | OLazy r _ i => write self (OLazy r g i)
  | _ => raise TypeError
  end.

(** [itertools.tee(it)] with [n = 2].  A tee clone is copied (CPython
    returns the clone itself as the first result); any other iterator gets a
    fresh buffer and two clones reading it from the start. *)
Definition tee (it : loc) : M (loc * loc) :=
  o <- read it ;;
  match o with
  | OTee b p => c <- alloc (OTee b p) ;; ret (it, c)
  | _ =>
      b <- alloc (OBuf it []) ;;
      c0 <- alloc (OTee b 0) ;;
      c1 <- alloc (OTee b 0) ;;
      ret (c0, c1)
  end.

(** [join_with(lhs, rhs)]: calling a generator function only creates the
    generator object; its body runs on the first [next]. *)
Definition join_with (lhs rhs : value) : M loc :=
  alloc (OJoin (JStart lhs rhs)).

(** [LazyList.__iter__]. *)
Definition __iter__ (self : loc) : M loc :=
  raw <- get_raw_object self ;;
  raw_object_clones <- tee raw ;;
  set_raw_object self (fst raw_object_clones) ;;;
  generated <- get_generated self ;;
  join_with (VList generated) (VIter (snd raw_object_clones)).

(** [iter(v)]. *)
Definition py_iter (v : value) : M loc :=
  match v with
  | VIter l => ret l
  | VList l | VTuple l => alloc (OGen l)
  | VStr s => alloc (OGen (chars s))
  | VLazy l => __iter__ l
  | _ => raise TypeError
  end.

(** [map(f, v)]: the argument is turned into an iterator at once, [f] is
    applied on demand. *)
Definition py_map (f : mapfn) (v : value) : M loc :=
  it <- py_iter v ;; alloc (OMap f it).

(** What [LazyList(...)] is constructed from: a zero-argument generator
    function (calling it returns the generator object [gen]) or any other
    value. *)
Inductive source : Type :=
| SrcFunction (gen : loc)
| SrcValue (v : value).

(** [LazyList.__init__]: a function is called, a generator is adopted, and
    everything else goes through [iter] (which returns an iterator
    unchanged). *)
Definition __init__ (src : source) (isinf : bool) : M loc :=
  raw_object <- match src with
                | SrcFunction g => ret g
                | SrcValue v => py_iter v
                end ;;
  alloc (OLazy raw_object [] isinf).

(** One unfolding of [vyxalify]; [self] is the recursive call. *)
Definition vyxalify_with (self : value -> M value) (v : value) : M value :=
  match v with
  | VSymInt z => ret (VInt z)
  | VSymMul q => self (sym_rational q)
  | VInt _ | VRat _ | VStr _ | VList _ | VLazy _ => ret v
  | _ =>
      m <- py_map MVyxalify v ;;
      l <- __init__ (SrcValue (VIter m)) false ;;
      ret (VLazy l)
  end.

(** [vyxalify].  The only recursive call is on [sympy.Rational(...)], which
    is an [Integer] or a [Rational], so two unfoldings are the whole
    function. *)
Definition vyxalify : value -> M value :=
  vyxalify_with (vyxalify_with (fun _ => raise TypeError)).

(** ** [next], [simplify], [listify] and [list]

    These call each other through the store: [next] on a [map(simplify, _)]
    object calls [simplify], [simplify] drains an iterator, the
    [infinite_index] generator calls [listify]. *)

Definition append_buffer (b : loc) (x : value) : M unit :=
  o <- read b ;;
  match o with
  | OBuf u data => write b (OBuf u (data ++ [x]))
  | _ => raise TypeError
  end.

Fixpoint py_next (n : nat) (it : loc) {struct n} : M value :=
  match n with
  | O => out_of_fuel
  | S n =>
    o <- read it ;;
    match o with
    | OGen [] => raise StopIteration
    | OGen (x :: rest) => write it (OGen rest) ;;; ret x
    | OBuf _ _ => raise TypeError
    | OTee b p =>
        ob <- read b ;;
        match ob with
        | OBuf u data =>
            match data !! p with
            | Some x => write it (OTee b (S p)) ;;; ret x
            | None =>
                x <- py_next n u ;;
                append_buffer b x ;;;
                write it (OTee b (S p)) ;;;
                ret x
            end
        | _ => raise TypeError
        end
    | OJoin st =>
        (* def join_with(lhs, rhs):
               for item in lhs: yield item
               for item in rhs: yield item *)
        on_raise
          match st with
          | JStart lhs rhs =>
              l <- py_iter lhs ;;
              write it (OJoin (JLeft l rhs)) ;;;
              py_next n it
          | JLeft l rhs =>
              try_stop (py_next n l)
                (r <- py_iter rhs ;;
                 write it (OJoin (JRight r)) ;;;
                 py_next n it)
          | JRight r => py_next n r
          | JDone => raise StopIteration
          end
          (store it (OJoin JDone))
    | OMap f u =>
        x <- py_next n u ;;
        match f with
        | MVyxalify => vyxalify x
        | MSimplify => simplify n x
        end
    | OIndex st =>
        (* def infinite_index():
               self.listify()
               yield from self.generated[start:stop:step] *)
        on_raise
          match st with
          | XStart self start step =>
              listify n self ;;;
              generated <- get_generated self ;;
              write it (OIndex (XYield (slice_from generated start step))) ;;;
              py_next n it
          | XYield [] => raise StopIteration
          | XYield (x :: rest) => write it (OIndex (XYield rest)) ;;; ret x
          | XDone => raise StopIteration
          end
          (store it (OIndex XDone))
    | OLazy raw_object _ _ =>
        (* LazyList.__next__ *)
        lhs <- py_next n raw_object ;;
        generated <- get_generated it ;;
        set_generated it (generated ++ [lhs]) ;;;
        ret lhs
    end
  end

with simplify (n : nat) (v : value) {struct n} : M value :=
  match n with
  | O => out_of_fuel
  | S n =>
    match v with
    | VInt _ | VFloat _ | VStr _ => ret v
    | VRat q => ret (VFloat (float_of_Q q))
    | VSymInt z => ret (VFloat (float_of_Q (inject_Z z)))
    | _ =>
        m <- py_map MSimplify v ;;
        l <- py_list n m ;;
        ret (VList l)
    end
  end

with listify (n : nat) (self : loc) {struct n} : M (list value) :=
  match n with
  | O => out_of_fuel
  | S n =>
    generated <- get_generated self ;;
    raw_object <- get_raw_object self ;;
    rest <- simplify n (VIter raw_object) ;;
    match rest with
    | VList rest =>
        let temp := generated ++ rest in
        it <- py_iter (VList temp) ;;
        set_raw_object self it ;;;
        set_generated self [] ;;;
        ret temp
    | _ => raise TypeError
    end
  end

(** [list(it)] for an iterator object [it] (which has no [__len__]). *)
with py_list (n : nat) (it : loc) {struct n} : M (list value) :=
  match n with
  | O => out_of_fuel
  | S n =>
    try_stop
      (x <- py_next n it ;;
       rest <- py_list n it ;;
       ret (x :: rest))
      (ret [])
  end.

(** [LazyList.__next__]. *)
Definition __next__ (n : nat) (self : loc) : M value :=
  o <- read self ;;
  match o with
  | OLazy _ _ _ => py_next n self
  | _ => raise TypeError
  end.

(** ** Comparisons *)

(** [x is y] for the values that have identity in this model. *)
Definition same_object (a b : value) : bool :=
  match a, b with
  | VLazy x, VLazy y | VIter x, VIter y => Nat.eqb x y
  | _, _ => false
  end.

(** [a == b].  A [LazyList] operand answers with [LazyList.__eq__] (directly
    on the left, reflected on the right); lists compare their lengths and
    then their items, an item pair being equal at once when both are the same
    object; numbers compare by exact value; two symbolic products are
    equal when they are the same product, and a product is equal to nothing
    else. *)
Fixpoint py_eq (n : nat) (a b : value) {struct n} : M bool :=
  match n with
  | O => out_of_fuel
  | S n =>
    let lazy_eq (self : loc) (other : value) : M bool :=
      l <- listify n self ;;
      o <- simplify n other ;;
      py_eq n (VList l) o in
    let items_eq :=
      fix items_eq (la lb : list value) {struct la} : M bool :=
        match la, lb with
        | x :: la', y :: lb' =>
            e <- (if same_object x y then ret true else py_eq n x y) ;;
            if e : bool then items_eq la' lb' else ret false
        | _, _ => ret true
        end in
    match a, b with
    | VLazy s, _ => lazy_eq s b
    | _, VLazy s => lazy_eq s a
    | VList la, VList lb | VTuple la, VTuple lb =>
        if Nat.eqb (length la) (length lb) then items_eq la lb else ret false
    | VStr x, VStr y => ret (String.eqb x y)
    | VIter x, VIter y => ret (Nat.eqb x y)
    | VSymMul x, VSymMul y => ret (Qeq_bool x y)
    | _, _ =>
        match num_val a, num_val b with
        | Some x, Some y => ret (float_eqb x y)
        | _, _ => ret false
        end
    end
  end.

(** [a <= b]: numbers by value, strings and lists lexicographically, a
    [TypeError] otherwise. *)
Fixpoint py_le (n : nat) (a b : value) {struct n} : M bool :=
  match n with
  | O => out_of_fuel
  | S n =>
    let items_le :=
      fix items_le (la lb : list value) {struct la} : M bool :=
        match la, lb with
        | [], _ => ret true
        | _ :: _, [] => ret false
        | x :: la', y :: lb' =>
            e <- (if same_object x y then ret true else py_eq n x y) ;;
            if e : bool then items_le la' lb' else py_le n x y
        end in
    match a, b with
    | VList la, VList lb | VTuple la, VTuple lb => items_le la lb
    | VStr x, VStr y => ret (String.leb x y)
    | _, _ =>
        match num_val a, num_val b with
        | Some x, Some y => ret (float_leb x y)
        | _, _ => raise TypeError
        end
    end
  end.

(** ** The [LazyList] methods *)

(** [LazyList.__add__]. *)
Definition __add__ (self : loc) (rhs : value) : M loc :=
  raw_object <- get_raw_object self ;;
  j <- join_with (VIter raw_object) rhs ;;
  __init__ (SrcValue (VIter j)) false.

(** [LazyList.__eq__]. *)
Definition __eq__ (n : nat) (self : loc) (other : value) : M bool :=
  l <- listify n self ;;
  o <- simplify n other ;;
  py_eq n (VList l) o.

(** The loop of the infinite branch of [__contains__]:
    [while last <= lhs: last = next(self); if last == lhs: return 1]. *)
Fixpoint contains_while (n : nat) (self : loc) (lhs last : value)
  {struct n} : M value :=
  match n with
  | O => out_of_fuel
  | S n =>
    c <- py_le n last lhs ;;
    if c : bool then
      last <- __next__ n self ;;
      e <- py_eq n last lhs ;;
      if e : bool then ret (VInt 1) else contains_while n self lhs last
    else ret (VInt 0)
  end.

(** The loop of the other branch:
    [for temp in self: if temp == lhs: return 1]. *)
Fixpoint contains_for (n : nat) (it : loc) (lhs : value) {struct n} : M value :=
  match n with
  | O => out_of_fuel
  | S n =>
    t <- try_stop (x <- py_next n it ;; ret (Some x)) (ret None) ;;
    match t with
    | Some temp =>
        e <- py_eq n temp lhs ;;
        if e : bool then ret (VInt 1) else contains_for n it lhs
    | None => ret (VInt 0)
    end
  end.

(** [LazyList.__contains__]. *)
Definition __contains__ (n : nat) (self : loc) (lhs : value) : M value :=
  infinite <- get_infinite self ;;
  if infinite : bool then
    generated <- get_generated self ;;
    let last := match last generated with
                | Some v => v
                | None => VInt 0
                end in
    contains_while n self lhs last
  else
    it <- __iter__ self ;;
    contains_for n it lhs.

(** What [__getitem__] is indexed with: an integer or a [slice]. *)
Inductive position : Type :=
| PInt (i : Z)
| PSlice (start stop step : option Z).

(** [x or d] for an optional integer [x]. *)
Definition or_default (x : option Z) (d : Z) : Z :=
  match x with
  | None | Some 0 => d
  | Some z => z
  end.

(** [while len(self.generated) < position + 1:
         try: next(self)
         except StopIteration: break]. *)
Fixpoint getitem_while (n : nat) (self : loc) (position : Z)
  {struct n} : M unit :=
  match n with
  | O => out_of_fuel
  | S n =>
    generated <- get_generated self ;;
    if Z.of_nat (length generated) <? position + 1 then
      more <- try_stop (__next__ n self ;;; ret true) (ret false) ;;
      if more : bool then getitem_while n self position else ret tt
    else ret tt
  end.

(** [LazyList.__len__]. *)
Definition __len__ (n : nat) (self : loc) : M Z :=
  l <- listify n self ;; ret (Z.of_nat (length l)).

(** The size guess [list(v)] asks for: [len(v)] when [v] has a [__len__]
    (a [LazyList] has; for a native container it has no effect), with a
    [TypeError] from it ignored; iterators have no [__len__]. *)
Definition length_hint (n : nat) (v : value) : M unit :=
  match v with
  | VLazy l =>
      fun h =>
        match __len__ n l h with
        | (Ret _, h') => (Ret tt, h')
        | (Raise TypeError, h') => (Ret tt, h')
        | (Raise e, h') => (Raise e, h')
        | (OutOfFuel, h') => (OutOfFuel, h')
        end
  | _ => ret tt
  end.

(** [list(v)]: CPython takes the iterator first, then the size guess, and
    then drains the iterator. *)
Definition list_of (n : nat) (v : value) : M (list value) :=
  it <- py_iter v ;;
  length_hint n v ;;;
  py_list n it.

(** The integer branch of [__getitem__].  In
    [self.generated += list(self)] the list object is loaded before
    [list(self)] runs and extended in place afterwards, so what [listify]
    assigns to [self.generated] in between is overwritten. *)
Definition getitem_int (n : nat) (self : loc) (position : Z) : M value :=
  generated <- get_generated self ;;
  if position <? 0 then
    l <- list_of n (VLazy self) ;;
    set_generated self (generated ++ l) ;;;
    generated <- get_generated self ;;
    py_index generated position
  else if position <? Z.of_nat (length generated) then
    py_index generated position
  else
    getitem_while n self position ;;;
    generated <- get_generated self ;;
    match generated with
    | [] => ret (VInt 0)
    | _ :: _ => py_index generated (position mod Z.of_nat (length generated))
    end.

(** [for i in range(...): ret.append(self.__getitem__(i))]. *)
Fixpoint getitem_each (n : nat) (self : loc) (l : list Z) : M (list value) :=
  match l with
  | [] => ret []
  | i :: l' =>
      x <- getitem_int n self i ;;
      ret' <- getitem_each n self l' ;;
      ret (x :: ret')
  end.

(** [LazyList.__getitem__]. *)
Definition __getitem__ (n : nat) (self : loc) (p : position) : M value :=
  match p with
  | PSlice start stop step =>
      let start := or_default start 0 in
      let step := or_default step 1 in
      match stop with
      | None =>
          g <- alloc (OIndex (XStart self start step)) ;;
          l <- __init__ (SrcValue (VIter g)) false ;;
          ret (VLazy l)
      | Some stop =>
          stop <- (if stop <? 0 then
                     l <- listify n self ;; ret (Z.of_nat (length l) + stop)
                   else ret stop) ;;
          ret' <- getitem_each n self (py_range start stop step) ;;
          ret (VList ret')
      end
  | PInt position => getitem_int n self position
  end.

(** [l[i] = v] with Python's negative indices. *)
Definition py_setitem (l : list value) (i : Z) (v : value) : M (list value) :=
  let n := Z.of_nat (length l) in
  let j := if i <? 0 then i + n else i in
  if (0 <=? j) && (j <? n) then ret (<[Z.to_nat j := v]> l)
  else raise IndexError.

(** [LazyList.__setitem__], for an integer [position]. *)
Definition __setitem__ (n : nat) (self : loc) (position : Z) (v : value)
  : M unit :=
  generated <- get_generated self ;;
  (if Z.of_nat (length generated) <=? position
   then __getitem__ n self (PInt position) ;;; ret tt
   else ret tt) ;;;
  generated <- get_generated self ;;
  generated <- py_setitem generated position v ;;
  set_generated self generated.

(** [l.count(other)]: an item counts when it is the same object as [other]
    or equal to it. *)
Fixpoint count_items (n : nat) (l : list value) (other : value) : M Z :=
  match l with
  | [] => ret 0
  | x :: l' =>
      e <- (if same_object x other then ret true else py_eq n x other) ;;
      c <- count_items n l' other ;;
      ret (if e : bool then 1 + c else c)
  end.

(** [LazyList.count]. *)
Definition count (n : nat) (self : loc) (other : value) : M Z :=
  temp <- listify n self ;;
  count_items n temp other.

(** [list(self.reversed())]: [reversed] returns a plain generator, whose
    body runs when it is driven; this is that body run to the end, with
    what it yields collected. *)
Definition reversed_list (n : nat) (self : loc) : M (list value) :=
  generated <- get_generated self ;;
  raw_object <- get_raw_object self ;;
  clones <- tee raw_object ;;
  l <- py_list n (snd clones) ;;
  set_generated self (generated ++ l) ;;;
  generated <- get_generated self ;;
  ret (reverse generated).

(** * Vocabulary of the verification

    The predicates the theorems are stated with: what an iterator of the
    store will yield, which locations a step may write, and the invariants
    of the generators built on top of other iterators. *)

(** ** Producers

    The iterators a [LazyList] built from a container or a generator keeps
    in [raw_object]: the plain producer itself, or (after [__iter__]) a
    [tee] clone reading a buffer over the plain producer. *)
Definition producer (h : heap) (r : loc) (rest : list value) : Prop :=
  h !! r = Some (OGen rest) \/
  exists b p u data rest0,
    h !! r = Some (OTee b p) /\ h !! b = Some (OBuf u data) /\
    h !! u = Some (OGen rest0) /\ (p <= length data)%nat /\
    rest = drop p data ++ rest0.

(** The locations a producer's [next] may write. *)
Definition footprint (h : heap) (r : loc) : list loc :=
  match h !! r with
  | Some (OTee b _) =>
      match h !! b with
      | Some (OBuf u _) => [r; b; u]
      | _ => [r]
      end
  | _ => [r]
  end.

(** The objects a producer is made of. *)
Definition is_plain (o : obj) : bool :=
  match o with
  | OGen _ | OBuf _ _ | OTee _ _ => true
  | _ => false
  end.

(** [t] is a clone reading the buffer [b] over the plain producer [u] and
    has [rest] left to yield. *)
Definition clone (h : heap) (t b u : loc) (rest : list value) : Prop :=
  exists p data rest0,
    h !! t = Some (OTee b p) /\ h !! b = Some (OBuf u data) /\
    h !! u = Some (OGen rest0) /\ (p <= length data)%nat /\
    rest = drop p data ++ rest0.

(** What a step of the clone [t] does to the store: only [t], [b] and [u]
    change, and every other clone of the buffer keeps what it has left. *)
Definition clone_step (h h' : heap) (t b u : loc) : Prop :=
  length h' = length h /\
  (forall l, l <> t -> l <> b -> l <> u -> h' !! l = h !! l) /\
  (forall t2 r2, t2 <> t -> clone h t2 b u r2 -> clone h' t2 b u r2).

(** ** Iterators by invariant

    An iterator is specified by an invariant [Inv xs h]: "in the store [h]
    the iterator will yield exactly [xs]".  A step keeps the invariant for
    the remaining values and leaves the protected locations [P] alone. *)
Definition preserves (P : loc -> Prop) (h h' : heap) : Prop :=
  (length h <= length h')%nat /\
  forall l, P l -> (l < length h)%nat -> h' !! l = h !! l.

Definition steps_to (it : loc) (K : nat) (P : loc -> Prop)
    (Inv : list value -> heap -> Prop) (xs : list value) (h : heap) : Prop :=
  match xs with
  | x :: xs' =>
      exists h', (forall n, py_next (K + n) it h = (Ret x, h')) /\
                 Inv xs' h' /\ preserves P h h'
  | [] =>
      exists h', (forall n, py_next (K + n) it h = (Raise StopIteration, h')) /\
                 Inv [] h' /\ preserves P h h'
  end.

Definition iterator (it : loc) (K : nat) (P : loc -> Prop)
    (Inv : list value -> heap -> Prop) : Prop :=
  forall xs h, Inv xs h -> steps_to it K P Inv xs h.

(** The invariant survives a write at [l] by somebody else. *)
Definition stable_at (l : loc) (Inv : list value -> heap -> Prop) : Prop :=
  forall xs h o, Inv xs h -> Inv xs (<[l := o]> h).

(** ** Values [simplify] flattens on its own

    Numbers, strings, and native lists and tuples of such: flattening one
    allocates the iterators it walks and touches nothing that exists.
    [simplify_fuel] bounds the depth of the calls. *)
Fixpoint inert (v : value) : bool :=
  match v with
  | VInt _ | VFloat _ | VStr _ | VRat _ | VSymInt _ | VSymMul _ => true
  | VList l | VTuple l => forallb inert l
  | VLazy _ | VIter _ => false
  end.

Fixpoint simplify_fuel (v : value) : nat :=
  match v with
  | VList l | VTuple l => length l + 4 + list_max (map simplify_fuel l)
  | _ => 1
  end.

(** A call that came back, with a value or with the [TypeError] of a value
    that cannot be iterated. *)
Definition settled {A} (out : outcome A) : Prop :=
  match out with
  | Ret _ | Raise TypeError => True
  | _ => False
  end.

Definition quiet (x : value) : Prop :=
  forall h : heap, exists (out : outcome value) (junk : heap),
    settled out /\
    forall d, (simplify_fuel x <= d)%nat -> simplify d x h = (out, h ++ junk).

(** ** The [join_with] generator [j] over [lhs] and [rhs]

    [A] holds before the generator starts; [InvL it] and [InvR it] are the
    invariants of the iterators [iter(lhs)] and [iter(rhs)] return; [L] and
    [R] are what the two will yield. *)
Definition join_done (j : loc)
    (InvR : loc -> list value -> heap -> Prop) (h : heap) : Prop :=
  h !! j = Some (OJoin JDone) /\ exists rit, InvR rit [] h.

Definition join_inv (j : loc) (lhs rhs : value) (A : heap -> Prop)
    (InvL InvR : loc -> list value -> heap -> Prop) (L R : list value)
    (xs : list value) (h : heap) : Prop :=
  (h !! j = Some (OJoin (JStart lhs rhs)) /\ A h /\ xs = L ++ R) \/
  (exists lit l1, h !! j = Some (OJoin (JLeft lit rhs)) /\
                  InvL lit l1 h /\ xs = l1 ++ R) \/
  (exists rit, h !! j = Some (OJoin (JRight rit)) /\ InvR rit xs h) \/
  (xs = [] /\ join_done j InvR h).

Definition join_protected (j : loc) (P : loc -> Prop) (l : loc) : Prop :=
  P l /\ l <> j.

Definition join_step (j : loc) (lhs rhs : value) (P : loc -> Prop)
    (A : heap -> Prop) (InvL InvR : loc -> list value -> heap -> Prop)
    (L R : list value) (K' : nat) (xs : list value) (h : heap) : Prop :=
  match xs with
  | x :: xs' =>
      exists h', (forall n, py_next (K' + n) j h = (Ret x, h')) /\
                 join_inv j lhs rhs A InvL InvR L R xs' h' /\
                 preserves (join_protected j P) h h'
  | [] =>
      exists h',
        (forall n, py_next (K' + n) j h = (Raise StopIteration, h')) /\
        join_done j InvR h' /\ preserves (join_protected j P) h h'
  end.

(** ** A [tee] clone [t] of the buffer [b] over any iterator [u]

    The clone has the rest of the buffer to replay before it pulls from
    [u], whose invariant is [Inv]. *)
Definition tee_inv (t b u : loc) (Inv : list value -> heap -> Prop)
    (xs : list value) (h : heap) : Prop :=
  exists p data ys,
    h !! t = Some (OTee b p) /\ h !! b = Some (OBuf u data) /\
    (p <= length data)%nat /\ Inv ys h /\ xs = drop p data ++ ys.

Definition tee_protected (t b : loc) (P : loc -> Prop) (l : loc) : Prop :=
  P l /\ l <> t /\ l <> b.

(** ** The generator [__iter__] returns

    [j] joins the snapshot [pre] of the cache with the clone [c1] (buffer
    [b], plain producer [u]).  [N] bounds what existed when the iteration
    was created, [C] is a fact about the rest of the store carried
    along. *)
Definition iter_facts (j c1 b u : loc) (N : nat) (C : heap -> Prop)
    (h : heap) : Prop :=
  (j < N)%nat /\ (c1 < N)%nat /\ (b < N)%nat /\ (u < N)%nat /\
  j <> c1 /\ j <> b /\ j <> u /\ C h.

Definition iter_start (j c1 b u : loc) (rest : list value) (N : nat)
    (C : heap -> Prop) (h : heap) : Prop :=
  (N <= length h)%nat /\ clone h c1 b u rest /\ iter_facts j c1 b u N C h.

Definition iter_left (j c1 b u : loc) (rest : list value) (N : nat)
    (C : heap -> Prop) (g : loc) (l1 : list value) (h : heap) : Prop :=
  h !! g = Some (OGen l1) /\
  ((N <= g)%nat /\ clone h c1 b u rest /\ iter_facts j c1 b u N C h).

Definition iter_right (j c1 b u : loc) (N : nat) (C : heap -> Prop)
    (rit : loc) (xs : list value) (h : heap) : Prop :=
  clone h c1 b u xs /\ (rit = c1 /\ iter_facts j c1 b u N C h).

Definition iter_inv (j c1 b u : loc) (pre rest : list value) (N : nat)
    (C : heap -> Prop) : list value -> heap -> Prop :=
  join_inv j (VList pre) (VIter c1)
    (iter_start j c1 b u rest N C) (iter_left j c1 b u rest N C)
    (iter_right j c1 b u N C) pre rest.

Definition iter_inner (j : loc) (P : loc -> Prop) (l : loc) : Prop :=
  P l \/ l = j.

(** ** The concatenation [c = a + rhs] under a fresh iteration

    The store after [c = a + rhs] and [iter(c)], with [N0] the size of the
    store before: the generator [N0] of [__add__] over [a]'s producer [raw]
    and [rhs], the new sequence at [N0 + 1], the buffer [N0 + 2] over the
    generator, its clones at [N0 + 3] and [N0 + 4], and the generator
    [N0 + 5] that iterates the new sequence through the second clone.
    [Rpre] is what [rhs] needs before it is iterated, [InvR] the invariant
    of the iterator [iter(rhs)] returns, [F] the footprint of [raw]. *)
Definition mid (N0 : nat) (l : loc) : Prop := (N0 <= l < N0 + 6)%nat.

Definition a_side (N0 : nat) (a raw : loc) (pre : list value) (inf : bool)
    (Rpre : heap -> Prop) (h : heap) : Prop :=
  h !! a = Some (OLazy raw pre inf) /\ (N0 + 6 <= length h)%nat /\ Rpre h.

Definition a_facts (N0 : nat) (a raw : loc) (pre : list value) (inf : bool)
    (F : list loc) (Rpre : heap -> Prop) (xs : list value) (h : heap)
    : Prop :=
  producer h raw xs /\ footprint h raw = F /\ a_side N0 a raw pre inf Rpre h.

Definition a_final (a raw : loc) (pre : list value) (inf : bool)
    (h : heap) : Prop :=
  h !! a = Some (OLazy raw pre inf) /\ producer h raw [].

Definition InvLJ (N0 : nat) (a raw : loc) (pre : list value) (inf : bool)
    (F : list loc) (Rpre : heap -> Prop)
    (lit : loc) (xs : list value) (h : heap) : Prop :=
  lit = raw /\ a_facts N0 a raw pre inf F Rpre xs h.

Definition InvJ (N0 : nat) (a raw : loc) (pre : list value) (inf : bool)
    (F : list loc) (rhs : value) (rest ys : list value)
    (Rpre : heap -> Prop) (InvR : loc -> list value -> heap -> Prop)
    : list value -> heap -> Prop :=
  join_inv N0 (VIter raw) rhs (a_facts N0 a raw pre inf F Rpre rest)
    (InvLJ N0 a raw pre inf F Rpre) InvR rest ys.

Definition InvT (N0 : nat) (a raw : loc) (pre : list value) (inf : bool)
    (F : list loc) (rhs : value) (rest ys : list value)
    (Rpre : heap -> Prop) (InvR : loc -> list value -> heap -> Prop)
    : list value -> heap -> Prop :=
  tee_inv (N0 + 4) (N0 + 2) N0
    (InvJ N0 a raw pre inf F rhs rest ys Rpre InvR).

Definition protected2 (N0 : nat) : loc -> Prop :=
  tee_protected (N0 + 4) (N0 + 2) (join_protected N0 (mid N0)).

(** The store right after [iter(c)]. *)
Definition start2 (N0 : nat) (a raw : loc) (pre : list value) (inf : bool)
    (F : list loc) (rhs : value) (rest : list value) (Rpre : heap -> Prop)
    (h : heap) : Prop :=
  h !! (N0 + 4)%nat = Some (OTee (N0 + 2) 0) /\
  h !! (N0 + 2)%nat = Some (OBuf N0 []) /\
  h !! N0 = Some (OJoin (JStart (VIter raw) rhs)) /\
  length h = (N0 + 6)%nat /\
  a_facts N0 a raw pre inf F Rpre rest h /\
  (forall o, Rpre (h ++ [o])).

Definition InvL2 (N0 : nat) (a raw : loc) (pre : list value) (inf : bool)
    (F : list loc) (rhs : value) (rest ys : list value)
    (Rpre : heap -> Prop) (InvR : loc -> list value -> heap -> Prop)
    (g : loc) (xs : list value) (h : heap) : Prop :=
  xs = [] /\ g <> (N0 + 5)%nat /\ h !! g = Some (OGen []) /\
  InvT N0 a raw pre inf F rhs rest ys Rpre InvR (rest ++ ys) h.

Definition InvR2 (N0 : nat) (a raw : loc) (pre : list value) (inf : bool)
    (F : list loc) (rhs : value) (rest ys : list value)
    (Rpre : heap -> Prop) (InvR : loc -> list value -> heap -> Prop)
    (rit : loc) (xs : list value) (h : heap) : Prop :=
  rit = (N0 + 4)%nat /\ InvT N0 a raw pre inf F rhs rest ys Rpre InvR xs h.

Definition Inv2 (N0 : nat) (a raw : loc) (pre : list value) (inf : bool)
    (F : list loc) (rhs : value) (rest ys : list value)
    (Rpre : heap -> Prop) (InvR : loc -> list value -> heap -> Prop)
    : list value -> heap -> Prop :=
  join_inv (N0 + 5) (VList []) (VIter (N0 + 4))
    (start2 N0 a raw pre inf F rhs rest Rpre)
    (InvL2 N0 a raw pre inf F rhs rest ys Rpre InvR)
    (InvR2 N0 a raw pre inf F rhs rest ys Rpre InvR)
    [] (rest ++ ys).

(** What [iter] turns into a plain list iterator. *)
Definition container (v : value) : option (list value) :=
  match v with
  | VList l | VTuple l => Some l
  | VStr s => Some (chars s)
  | _ => None
  end.

(** The store after [a + rhs] and a fresh iteration of the result. *)
Definition after_add (h : heap) (raw : loc) (rhs : value) : heap :=
  let N := length h in
  h ++ [OJoin (JStart (VIter raw) rhs);
        OLazy (N + 3) [] false;
        OBuf N [];
        OTee (N + 2) 0;
        OTee (N + 2) 0;
        OJoin (JStart (VList []) (VIter (N + 4)))].

(** The right operands of [+] covered below: a container, or another
    sequence whose producer shares nothing with [a]'s. *)
Inductive finite_rhs (h : heap) (a raw : loc) : value -> list value -> Prop :=
| rhs_container v ys :
    container v = Some ys -> finite_rhs h a raw v ys
| rhs_lazy b rb preb infb restb :
    b <> a ->
    h !! b = Some (OLazy rb preb infb) ->
    producer h rb restb ->
    (forall l, l ∈ footprint h rb -> l ∉ footprint h raw) ->
    finite_rhs h a raw (VLazy b) (preb ++ restb).

(** ** The specification's examples as programs *)

Definition ints (l : list Z) : value := VList (map VInt l).

(** [s = LazyList([1, 2, 3, 4, 5]); [x for x in s[1::2]]]. *)
Definition slice_unbounded_example (n : nat) : M (list value) :=
  s <- __init__ (SrcValue (ints [1; 2; 3; 4; 5])) false ;;
  r <- __getitem__ n s (PSlice (Some 1) None (Some 2)) ;;
  it <- py_iter r ;;
  py_list n it.

(** [s = LazyList([1, 2, 3, 4, 5]); s[1:-1:1]]. *)
Definition slice_bounded_example (n : nat) : M value :=
  s <- __init__ (SrcValue (ints [1; 2; 3; 4; 5])) false ;;
  __getitem__ n s (PSlice (Some 1) (Some (-1)) (Some 1)).

(** [a = LazyList([1, 2, 3]); a[0]; b = LazyList([4]);
    [x for x in a + b]]. *)
Definition add_after_get_example (n : nat) : M (list value) :=
  a <- __init__ (SrcValue (ints [1; 2; 3])) false ;;
  b <- __init__ (SrcValue (ints [4])) false ;;
  __getitem__ n a (PInt 0) ;;;
  c <- __add__ a (VLazy b) ;;
  it <- __iter__ c ;;
  py_list n it.

(** [[x for x in LazyList([1, 2]) + LazyList([3, 4])]]. *)
Definition add_fresh_example (n : nat) : M (list value) :=
  a <- __init__ (SrcValue (ints [1; 2])) false ;;
  b <- __init__ (SrcValue (ints [3; 4])) false ;;
  c <- __add__ a (VLazy b) ;;
  it <- __iter__ c ;;
  py_list n it.

(** [s = LazyList([1, 2, 3]); s[0]; x = s[-1]; y = s[1]; n = len(s)]: the
    answers [(x, y, n)]. *)
Definition getitem_negative_example (n : nat) : M (value * value * Z) :=
  s <- __init__ (SrcValue (ints [1; 2; 3])) false ;;
  __getitem__ n s (PInt 0) ;;;
  x <- __getitem__ n s (PInt (-1)) ;;
  y <- __getitem__ n s (PInt 1) ;;
  k <- __len__ n s ;;
  ret (x, y, k).

(** [s = LazyList([1, 2, 3]); x = s[-1]; n = len(s)]. *)
Definition getitem_negative_fresh_example (n : nat) : M (value * Z) :=
  s <- __init__ (SrcValue (ints [1; 2; 3])) false ;;
  x <- __getitem__ n s (PInt (-1)) ;;
  k <- __len__ n s ;;
  ret (x, k).

(** [s = LazyList(iter([1, 2, 3]), isinf=True); 5 in s]. *)
Definition contains_infinite_example (n : nat) : M value :=
  s <- __init__ (SrcValue (ints [1; 2; 3])) true ;;
  __contains__ n s (VInt 5).

(** The same sequence without the flag. *)
Definition contains_finite_example (n : nat) : M value :=
  s <- __init__ (SrcValue (ints [1; 2; 3])) false ;;
  __contains__ n s (VInt 5).

(** [s = LazyList([(1, 2)]); s[0]; s == [(1, 2)]]. *)
Definition eq_cached_example (n : nat) : M bool :=
  s <- __init__ (SrcValue (VList [VTuple [VInt 1; VInt 2]])) false ;;
  __getitem__ n s (PInt 0) ;;;
  __eq__ n s (VList [VTuple [VInt 1; VInt 2]]).

(** The same comparison with nothing cached. *)
Definition eq_fresh_example (n : nat) : M bool :=
  s <- __init__ (SrcValue (VList [VTuple [VInt 1; VInt 2]])) false ;;
  __eq__ n s (VList [VTuple [VInt 1; VInt 2]]).

(** The flattened forms of the two operands of that comparison: the
    sequence (fresh, so that all of it is flattened) and the list. *)
Definition eq_flattened_example (n : nat) : M (list value * value) :=
  s <- __init__ (SrcValue (VList [VTuple [VInt 1; VInt 2]])) false ;;
  l <- listify n s ;;
  o <- simplify n (VList [VTuple [VInt 1; VInt 2]]) ;;
  ret (l, o).

(** [s = LazyList([Rational(1, 3)]); s[0]; s == [Rational(1, 3)]]. *)
Definition eq_cached_rational_example (n : nat) : M bool :=
  s <- __init__ (SrcValue (VList [VRat (1 # 3)])) false ;;
  __getitem__ n s (PInt 0) ;;;
  __eq__ n s (VList [VRat (1 # 3)]).


(** The kinds the specification allows in a sequence: integers,
    rationals or floats, strings, nested sequences. *)
Definition canonical (v : value) : bool :=
  match v with
  | VInt _ | VFloat _ | VRat _ | VStr _ | VLazy _ => true
  | _ => false
  end.

(** ** Sequences of Python numbers and strings

    [int], [float] and [str] values are what [simplify] returns as they
    are; [==] and [<=] on them have no effect on the store. *)
Definition simple (v : value) : bool :=
  match v with
  | VInt _ | VFloat _ | VStr _ => true
  | _ => false
  end.

(** [a == b] on simple values. *)
Definition simple_eq (a b : value) : bool :=
  match a, b with
  | VStr x, VStr y => String.eqb x y
  | _, _ =>
      match num_val a, num_val b with
      | Some x, Some y => float_eqb x y
      | _, _ => false
      end
  end.

(** [l1 == l2] on lists of simple values. *)
Fixpoint simple_list_eq (l1 l2 : list value) : bool :=
  match l1, l2 with
  | [], [] => true
  | x :: l1', y :: l2' => simple_eq x y && simple_list_eq l1' l2'
  | _, _ => false
  end.

(** The answer of [get(i)] on a finite sequence whose elements are [l]:
    the index wraps around, and an empty sequence answers [0]. *)
Definition cyclic (l : list value) (i : nat) : value :=
  match l with
  | [] => VInt 0
  | _ :: _ => default (VInt 0) (l !! (i mod length l)%nat)
  end.

(** Python's [int] and [float], and [a <= b] on them. *)
Definition numeric (v : value) : bool :=
  match v with
  | VInt _ | VFloat _ => true
  | _ => false
  end.

Definition simple_le (a b : value) : bool :=
  match num_val a, num_val b with
  | Some x, Some y => float_leb x y
  | _, _ => false
  end.

(** What the infinite branch of [__contains__] starts from. *)
Definition last_or_zero (l : list value) : value :=
  match last l with
  | Some v => v
  | None => VInt 0
  end.

(** What [vyxalify] returns for the values it does not have to iterate,
    [None] for the others. *)
Definition vyxalified (x : value) : option value :=
  match x with
  | VSymInt z => Some (VInt z)
  | VSymMul q =>
      Some (match sym_rational q with VSymInt z => VInt z | r => r end)
  | VInt _ | VRat _ | VStr _ | VList _ | VLazy _ => Some x
  | _ => None
  end.

(** What [simplify] returns for numbers, strings and native containers of
    such: rationals become floats and every container a list. *)
Fixpoint flat (v : value) : value :=
  match v with
  | VRat q => VFloat (float_of_Q q)
  | VSymInt z => VFloat (float_of_Q (inject_Z z))
  | VList l | VTuple l => VList (map flat l)
  | _ => v
  end.

Fixpoint flattenable (v : value) : bool :=
  match v with
  | VInt _ | VFloat _ | VStr _ | VRat _ | VSymInt _ => true
  | VList l | VTuple l => forallb flattenable l
  | _ => false
  end.

(** [simplify] on [x] returns [flat x] and only allocates. *)
Definition flattens (x : value) : Prop :=
  forall h : heap, exists junk : heap,
    forall d, (simplify_fuel x <= d)%nat ->
      simplify d x h = (Ret (flat x), h ++ junk).

(** * Verification *)

(** ** One step of the interpreter *)

Lemma py_next_S n it :
  py_next (S n) it =
  (o <- read it ;;
    match o with
    | OGen [] => raise StopIteration
    | OGen (x :: rest) => write it (OGen rest) ;;; ret x
    | OBuf _ _ => raise TypeError
    | OTee b p =>
        ob <- read b ;;
        match ob with
        | OBuf u data =>
            match data !! p with
            | Some x => write it (OTee b (S p)) ;;; ret x
            | None =>
                x <- py_next n u ;;
                append_buffer b x ;;;
                write it (OTee b (S p)) ;;;
                ret x
            end
        | _ => raise TypeError
        end
    | OJoin st =>
        on_raise
          match st with
          | JStart lhs rhs =>
              l <- py_iter lhs ;;
              write it (OJoin (JLeft l rhs)) ;;;
              py_next n it
          | JLeft l rhs =>
              try_stop (py_next n l)
                (r <- py_iter rhs ;;
                 write it (OJoin (JRight r)) ;;;
                 py_next n it)
          | JRight r => py_next n r
          | JDone => raise StopIteration
          end
          (store it (OJoin JDone))
    | OMap f u =>
        x <- py_next n u ;;
        match f with
        | MVyxalify => vyxalify x
        | MSimplify => simplify n x
        end
    | OIndex st =>
        on_raise
          match st with
          | XStart self start step =>
              listify n self ;;;
              generated <- get_generated self ;;
              write it (OIndex (XYield (slice_from generated start step))) ;;;
              py_next n it
          | XYield [] => raise StopIteration
          | XYield (x :: rest) => write it (OIndex (XYield rest)) ;;; ret x
          | XDone => raise StopIteration
          end
          (store it (OIndex XDone))
    | OLazy raw_object _ _ =>
        lhs <- py_next n raw_object ;;
        generated <- get_generated it ;;
        set_generated it (generated ++ [lhs]) ;;;
        ret lhs
    end)%py.
Proof. reflexivity. Qed.

Lemma py_list_S n it :
  py_list (S n) it =
  try_stop (x <- py_next n it ;; rest <- py_list n it ;; ret (x :: rest))
           (ret []).
Proof. reflexivity. Qed.

Lemma read_at l o h : h !! l = Some o -> read l h = (Ret o, h).
Proof. unfold read. intros ->. reflexivity. Qed.

Lemma bind_read {A} l o (k : obj -> M A) h :
  h !! l = Some o -> bind (read l) k h = k o h.
Proof. intros H. unfold bind. rewrite (read_at _ _ _ H). reflexivity. Qed.

Lemma bind_Ret {A B} (m : M A) (k : A -> M B) h a h' :
  m h = (Ret a, h') -> bind m k h = k a h'.
Proof. unfold bind. intros ->. reflexivity. Qed.

Lemma bind_Raise {A B} (m : M A) (k : A -> M B) h e h' :
  m h = (Raise e, h') -> bind m k h = (Raise e, h').
Proof. unfold bind. intros ->. reflexivity. Qed.

Lemma next_gen_cons n r x xs h :
  h !! r = Some (OGen (x :: xs)) ->
  py_next (S n) r h = (Ret x, <[r := OGen xs]> h).
Proof. intros H. rewrite py_next_S, (bind_read _ _ _ _ H). reflexivity. Qed.

Lemma next_gen_nil n r h :
  h !! r = Some (OGen []) ->
  py_next (S n) r h = (Raise StopIteration, h).
Proof. intros H. rewrite py_next_S, (bind_read _ _ _ _ H). reflexivity. Qed.

Lemma next_tee_buffered n t b p u data x h :
  h !! t = Some (OTee b p) -> h !! b = Some (OBuf u data) ->
  data !! p = Some x ->
  py_next (S n) t h = (Ret x, <[t := OTee b (S p)]> h).
Proof.
  intros Ht Hb Hx.
  rewrite py_next_S, (bind_read _ _ _ _ Ht), (bind_read _ _ _ _ Hb), Hx.
  reflexivity.
Qed.

(** A clone at the end of the buffer pulls from the underlying iterator and
    records the value for its siblings. *)
Lemma next_tee_pull n t b p u data x h h1 :
  h !! t = Some (OTee b p) -> h !! b = Some (OBuf u data) ->
  data !! p = None ->
  py_next n u h = (Ret x, h1) ->
  h1 !! b = Some (OBuf u data) ->
  py_next (S n) t h =
    (Ret x, <[t := OTee b (S p)]> (<[b := OBuf u (data ++ [x])]> h1)).
Proof.
  intros Ht Hb Hx Hu Hb1.
  rewrite py_next_S, (bind_read _ _ _ _ Ht), (bind_read _ _ _ _ Hb), Hx.
  rewrite (bind_Ret _ _ _ _ _ Hu).
  unfold append_buffer.
  rewrite (bind_Ret _ _ h1 tt (<[b := OBuf u (data ++ [x])]> h1)).
  2:{ rewrite (bind_read _ _ _ _ Hb1). reflexivity. }
  reflexivity.
Qed.

Lemma next_tee_stop n t b p u data e h h1 :
  h !! t = Some (OTee b p) -> h !! b = Some (OBuf u data) ->
  data !! p = None ->
  py_next n u h = (Raise e, h1) ->
  py_next (S n) t h = (Raise e, h1).
Proof.
  intros Ht Hb Hx Hu.
  rewrite py_next_S, (bind_read _ _ _ _ Ht), (bind_read _ _ _ _ Hb), Hx.
  rewrite (bind_Raise _ _ _ _ _ Hu). reflexivity.
Qed.

(** ** Producers *)

Lemma producer_lt h r rest : producer h r rest -> (r < length h)%nat.
Proof.
  intros [H | (b & p & u & data & rest0 & H & _)];
    exact (lookup_lt_Some _ _ _ H).
Qed.

(** A producer is described by the store at its footprint alone. *)
Lemma producer_stable h h' r rest :
  producer h r rest ->
  (forall l, l ∈ footprint h r -> h' !! l = h !! l) ->
  producer h' r rest /\ footprint h' r = footprint h r.
Proof.
  intros [H | (b & p & u & data & rest0 & Hr & Hb & Hu & Hp & ->)] Hsame.
  - unfold footprint in *. rewrite H in Hsame.
    assert (h' !! r = Some (OGen rest)) as H'.
    { rewrite Hsame; [exact H | set_solver]. }
    split; [left; exact H' | now rewrite H, H'].
  - unfold footprint in *. rewrite Hr, Hb in Hsame.
    assert (h' !! r = Some (OTee b p)) as Hr'.
    { rewrite Hsame; [exact Hr | set_solver]. }
    assert (h' !! b = Some (OBuf u data)) as Hb'.
    { rewrite Hsame; [exact Hb | set_solver]. }
    assert (h' !! u = Some (OGen rest0)) as Hu'.
    { rewrite Hsame; [exact Hu | set_solver]. }
    split.
    + right. exists b, p, u, data, rest0. auto.
    + now rewrite Hr, Hb, Hr', Hb'.
Qed.

(** *** [tee] clones of a plain producer *)

Lemma clone_producer h t b u rest : clone h t b u rest -> producer h t rest.
Proof.
  intros (p & data & rest0 & H). right. exists b, p, u, data, rest0. exact H.
Qed.

Lemma clone_footprint h t b u rest :
  clone h t b u rest -> footprint h t = [t; b; u].
Proof.
  intros (p & data & rest0 & Ht & Hb & _). unfold footprint.
  now rewrite Ht, Hb.
Qed.

Lemma clone_same h h' t b u rest :
  clone h t b u rest ->
  h' !! t = h !! t -> h' !! b = h !! b -> h' !! u = h !! u ->
  clone h' t b u rest.
Proof.
  intros (p & data & rest0 & Ht & Hb & Hu & H) Et Eb Eu.
  exists p, data, rest0. rewrite Et, Eb, Eu. auto.
Qed.

Lemma clone_next_cons h t b u x xs :
  clone h t b u (x :: xs) ->
  exists h',
    (forall n, py_next (S (S n)) t h = (Ret x, h')) /\
    clone h' t b u xs /\ clone_step h h' t b u.
Proof.
  intros (p & data & rest0 & Hr & Hb & Hu & Hp & Hrest).
  assert (t <> b) as Hrb by (intros ->; congruence).
  assert (t <> u) as Hru by (intros ->; congruence).
  assert (b <> u) as Hbu by (intros ->; congruence).
  pose proof (lookup_lt_Some _ _ _ Hr) as Hltr.
  pose proof (lookup_lt_Some _ _ _ Hb) as Hltb.
  pose proof (lookup_lt_Some _ _ _ Hu) as Hltu.
  destruct (data !! p) as [y|] eqn:Hy.
  - (* the value is in the buffer *)
    rewrite (drop_S _ _ _ Hy) in Hrest. simpl in Hrest.
    injection Hrest as -> ->.
    exists (<[t := OTee b (S p)]> h).
    pose proof (lookup_lt_Some _ _ _ Hy) as Hlty.
    split; [|split; [|split; [|split]]].
    + intros n. now apply (next_tee_buffered _ _ _ _ u data).
    + exists (S p), data, rest0.
      rewrite list_lookup_insert_eq by lia.
      rewrite !list_lookup_insert_ne by auto. repeat split; auto.
    + apply length_insert.
    + intros l Hl _ _. apply list_lookup_insert_ne. auto.
    + intros t2 r2 Ht2 Hc. apply (clone_same h); auto;
        apply list_lookup_insert_ne; auto.
  - (* the clone pulls from the plain producer *)
    pose proof (lookup_ge_None_1 _ _ Hy) as Hge.
    assert (p = length data) as -> by lia.
    rewrite drop_all in Hrest. simpl in Hrest. subst rest0.
    set (h1 := <[u := OGen xs]> h).
    set (h2 := <[b := OBuf u (data ++ [x])]> h1).
    set (h3 := <[t := OTee b (S (length data))]> h2).
    assert (h1 !! b = Some (OBuf u data)) as Hb1
      by (unfold h1; rewrite list_lookup_insert_ne; auto).
    assert (length h1 = length h) as Hl1 by apply length_insert.
    assert (length h2 = length h) as Hl2
      by (unfold h2; rewrite length_insert; exact Hl1).
    assert (h3 !! b = Some (OBuf u (data ++ [x]))) as Hb3.
    { unfold h3. rewrite list_lookup_insert_ne by auto.
      unfold h2. apply list_lookup_insert_eq. lia. }
    assert (h3 !! u = Some (OGen xs)) as Hu3.
    { unfold h3. rewrite list_lookup_insert_ne by auto.
      unfold h2. rewrite list_lookup_insert_ne by auto.
      unfold h1. apply list_lookup_insert_eq. lia. }
    exists h3.
    split; [|split; [|split; [|split]]].
    + intros n.
      apply (next_tee_pull _ _ _ _ _ _ _ _ h1 Hr Hb Hy); [|exact Hb1].
      now apply next_gen_cons.
    + exists (S (length data)), (data ++ [x]), xs.
      repeat split; auto.
      * unfold h3. apply list_lookup_insert_eq. lia.
      * rewrite length_app. simpl. lia.
      * rewrite drop_ge; [reflexivity|]. rewrite length_app. simpl. lia.
    + unfold h3. rewrite length_insert. exact Hl2.
    + intros l Hlt Hlb Hlu. unfold h3, h2, h1.
      rewrite !list_lookup_insert_ne by auto. reflexivity.
    + intros t2 r2 Ht2 (p2 & data2 & rest2 & Ht2' & Hb2 & Hu2 & Hp2 & ->).
      rewrite Hb in Hb2. injection Hb2 as <-.
      rewrite Hu in Hu2. injection Hu2 as <-.
      assert (t2 <> b) by (intros ->; congruence).
      assert (t2 <> u) by (intros ->; congruence).
      exists p2, (data ++ [x]), xs. repeat split; auto.
      * unfold h3, h2, h1. rewrite !list_lookup_insert_ne by auto. exact Ht2'.
      * rewrite length_app. lia.
      * rewrite drop_app_le by exact Hp2. now rewrite <- app_assoc.
Qed.

(** [next] on a producer with a value left. *)
Lemma producer_next_cons h r x xs :
  producer h r (x :: xs) ->
  exists h',
    (forall n, py_next (S (S n)) r h = (Ret x, h')) /\
    producer h' r xs /\
    footprint h' r = footprint h r /\
    length h' = length h /\
    (forall l, l ∉ footprint h r -> h' !! l = h !! l).
Proof.
  intros [H | (b & p & u & data & rest0 & Hc)].
  - exists (<[r := OGen xs]> h).
    pose proof (lookup_lt_Some _ _ _ H) as Hlt.
    assert (<[r := OGen xs]> h !! r = Some (OGen xs)) as H'
      by (now apply list_lookup_insert_eq).
    repeat split.
    + intros n. now apply next_gen_cons.
    + now left.
    + unfold footprint. now rewrite H, H'.
    + apply length_insert.
    + intros l Hl. unfold footprint in Hl. rewrite H in Hl.
      apply list_lookup_insert_ne. set_solver.
  - assert (clone h r b u (x :: xs)) as Hcl by (exists p, data, rest0; exact Hc).
    destruct (clone_next_cons _ _ _ _ _ _ Hcl) as (h' & Hn & Hcl' & Hl & Hfr & _).
    exists h'. split; [exact Hn|].
    split; [exact (clone_producer _ _ _ _ _ Hcl')|].
    rewrite (clone_footprint _ _ _ _ _ Hcl), (clone_footprint _ _ _ _ _ Hcl').
    split; [reflexivity|]. split; [exact Hl|].
    intros l Hl'. apply Hfr; intros ->; apply Hl';
      rewrite !elem_of_cons; auto.
Qed.

(** [next] on an exhausted producer: the signal, and no change. *)
Lemma producer_next_nil h r :
  producer h r [] ->
  forall n, py_next (S (S n)) r h = (Raise StopIteration, h).
Proof.
  intros [H | (b & p & u & data & rest0 & Hr & Hb & Hu & Hp & Hrest)] n.
  - now apply next_gen_nil.
  - symmetry in Hrest. apply app_eq_nil in Hrest as [Hd ->].
    assert (data !! p = None) as Hy.
    { apply lookup_ge_None_2.
      destruct (decide (p < length data)%nat) as [Hlt|]; [|lia].
      apply (f_equal length) in Hd. rewrite length_drop in Hd. simpl in Hd. lia. }
    apply (next_tee_stop _ _ _ _ _ _ _ _ _ Hr Hb Hy).
    now apply next_gen_nil.
Qed.

Lemma footprint_plain h r rest l :
  producer h r rest -> l ∈ footprint h r ->
  exists o, h !! l = Some o /\ is_plain o = true.
Proof.
  unfold footprint.
  intros [H | (b & p & u & data & rest0 & Hr & Hb & Hu & _)].
  - rewrite H. intros ->%list_elem_of_singleton. eauto.
  - rewrite Hr, Hb. rewrite !elem_of_cons, elem_of_nil.
    intros [-> | [-> | [-> | []]]]; eauto.
Qed.

Lemma lazy_not_in_footprint h r rest s raw g inf :
  producer h r rest -> h !! s = Some (OLazy raw g inf) -> s ∉ footprint h r.
Proof.
  intros Hp Hs Hin.
  destruct (footprint_plain _ _ _ _ Hp Hin) as (o & Ho & Hk).
  rewrite Hs in Ho. injection Ho as <-. discriminate.
Qed.

(** ** Forward production: [__next__] *)

Lemma next_lazy n s raw g inf x h h1 g1 r1 i1 :
  h !! s = Some (OLazy raw g inf) ->
  py_next n raw h = (Ret x, h1) ->
  h1 !! s = Some (OLazy r1 g1 i1) ->
  __next__ (S n) s h = (Ret x, <[s := OLazy r1 (g1 ++ [x]) i1]> h1).
Proof.
  intros Hs Hx Hs1. unfold __next__.
  rewrite (bind_read _ _ _ _ Hs), py_next_S, (bind_read _ _ _ _ Hs).
  rewrite (bind_Ret _ _ _ _ _ Hx).
  unfold get_generated, set_generated.
  rewrite (bind_Ret _ _ h1 g1 h1) by (now rewrite (bind_read _ _ _ _ Hs1)).
  rewrite (bind_Ret _ _ h1 tt (<[s := OLazy r1 (g1 ++ [x]) i1]> h1))
    by (now rewrite (bind_read _ _ _ _ Hs1)).
  reflexivity.
Qed.

Lemma next_lazy_raise n s raw g inf e h h1 :
  h !! s = Some (OLazy raw g inf) ->
  py_next n raw h = (Raise e, h1) ->
  __next__ (S n) s h = (Raise e, h1).
Proof.
  intros Hs Hx. unfold __next__.
  rewrite (bind_read _ _ _ _ Hs), py_next_S, (bind_read _ _ _ _ Hs).
  now rewrite (bind_Raise _ _ _ _ _ Hx).
Qed.

(** [__next__] on a sequence whose producer has a value left: the value is
    returned and appended to the cache; nothing outside the sequence and
    its producer changes. *)
Lemma lazy_next_cons h s raw pre inf x xs :
  h !! s = Some (OLazy raw pre inf) ->
  producer h raw (x :: xs) ->
  exists h',
    (forall n, __next__ (3 + n) s h = (Ret x, h')) /\
    h' !! s = Some (OLazy raw (pre ++ [x]) inf) /\
    producer h' raw xs /\
    footprint h' raw = footprint h raw /\
    length h' = length h /\
    (forall l, l <> s -> l ∉ footprint h raw -> h' !! l = h !! l).
Proof.
  intros Hs Hp.
  destruct (producer_next_cons _ _ _ _ Hp) as (h1 & Hn & Hp1 & Hf & Hl & Hfr).
  pose proof (lazy_not_in_footprint _ _ _ _ _ _ _ Hp Hs) as Hnotin.
  assert (h1 !! s = Some (OLazy raw pre inf)) as Hs1
    by (rewrite Hfr; auto).
  pose proof (lookup_lt_Some _ _ _ Hs1) as Hlt.
  exists (<[s := OLazy raw (pre ++ [x]) inf]> h1).
  assert (forall l, l ∈ footprint h1 raw ->
            <[s := OLazy raw (pre ++ [x]) inf]> h1 !! l = h1 !! l) as Hsame.
  { intros l Hin. apply list_lookup_insert_ne. intros <-.
    rewrite Hf in Hin. contradiction. }
  destruct (producer_stable _ _ _ _ Hp1 Hsame) as [Hp2 Hf2].
  repeat split.
  - intros n. apply (next_lazy _ _ _ _ _ _ _ _ _ _ _ Hs (Hn n) Hs1).
  - now apply list_lookup_insert_eq.
  - exact Hp2.
  - congruence.
  - rewrite length_insert. exact Hl.
  - intros l Hls Hl'. rewrite list_lookup_insert_ne by auto. now apply Hfr.
Qed.

Lemma lazy_next_nil h s raw pre inf :
  h !! s = Some (OLazy raw pre inf) ->
  producer h raw [] ->
  forall n, __next__ (3 + n) s h = (Raise StopIteration, h).
Proof.
  intros Hs Hp n.
  apply (next_lazy_raise _ _ _ _ _ _ _ _ Hs).
  now apply producer_next_nil.
Qed.

(** ** Indexing with a non-negative integer *)

Lemma py_index_nat (l : list value) (j : nat) v h :
  l !! j = Some v -> py_index l (Z.of_nat j) h = (Ret v, h).
Proof.
  intros Hj. pose proof (lookup_lt_Some _ _ _ Hj) as Hlt.
  unfold py_index.
  replace (Z.of_nat j <? 0) with false by (symmetry; apply Z.ltb_ge; lia).
  replace (0 <=? Z.of_nat j) with true by (symmetry; apply Z.leb_le; lia).
  replace (Z.of_nat j <? Z.of_nat (length l)) with true
    by (symmetry; apply Z.ltb_lt; lia).
  simpl. rewrite Nat2Z.id, Hj. reflexivity.
Qed.

(** The loop of [__getitem__] pulls [i + 1 - len(generated)] values, or all
    that are left when the producer has fewer. *)
Lemma getitem_while_spec s raw inf (i : nat) rest :
  forall h pre,
    h !! s = Some (OLazy raw pre inf) ->
    producer h raw rest ->
    exists h',
      (forall n, getitem_while (length rest + 4 + n) s (Z.of_nat i) h
                 = (Ret tt, h')) /\
      h' !! s = Some (OLazy raw (pre ++ take (i + 1 - length pre) rest) inf) /\
      producer h' raw (drop (i + 1 - length pre) rest) /\
      length h' = length h.
Proof.
  induction rest as [|x xs IH]; intros h pre Hs Hp.
  - exists h. rewrite take_nil, drop_nil, app_nil_r. repeat split; auto.
    intros n. simpl. unfold get_generated.
    rewrite (bind_Ret _ _ h pre h) by (now rewrite (bind_read _ _ _ _ Hs)).
    destruct (Z.of_nat (length pre) <? Z.of_nat i + 1); [|reflexivity].
    unfold bind at 1, try_stop, bind at 1.
    pose proof (lazy_next_nil _ _ _ _ _ Hs Hp n) as Hn. simpl in Hn.
    rewrite Hn. reflexivity.
  - destruct (Z.of_nat (length pre) <? Z.of_nat i + 1) eqn:Hlt.
    + apply Z.ltb_lt in Hlt.
      destruct (lazy_next_cons _ _ _ _ _ _ _ Hs Hp)
        as (h1 & Hn & Hs1 & Hp1 & _ & Hl1 & _).
      destruct (IH h1 (pre ++ [x]) Hs1 Hp1) as (h' & Hw & Hs' & Hp' & Hl').
      exists h'.
      assert (i + 1 - length pre = S (i + 1 - length (pre ++ [x])))%nat as ->
        by (rewrite length_app; simpl; lia).
      simpl take. simpl drop.
      rewrite <- app_assoc in Hs'. simpl in Hs'.
      repeat split; auto; [|congruence].
      intros n. simpl. unfold get_generated.
      rewrite (bind_Ret _ _ h pre h) by (now rewrite (bind_read _ _ _ _ Hs)).
      replace (Z.of_nat (length pre) <? Z.of_nat i + 1) with true
        by (symmetry; apply Z.ltb_lt; lia).
      unfold bind at 1, try_stop, bind at 1.
      replace (length xs + 4 + n)%nat with (3 + (length xs + 1 + n))%nat by lia.
      rewrite Hn.
      replace (3 + (length xs + 1 + n))%nat with (length xs + 4 + n)%nat by lia.
      apply Hw.
    + apply Z.ltb_ge in Hlt.
      exists h.
      replace (i + 1 - length pre)%nat with 0%nat by lia.
      rewrite take_0, drop_0, app_nil_r. repeat split; auto.
      intros n. simpl. unfold get_generated.
      rewrite (bind_Ret _ _ h pre h) by (now rewrite (bind_read _ _ _ _ Hs)).
      replace (Z.of_nat (length pre) <? Z.of_nat i + 1) with false
        by (symmetry; apply Z.ltb_ge; lia).
      reflexivity.
Qed.

(** C5. Indexing with a non-negative [i]: a cached position is answered
    from the cache; otherwise production is forced up to and including [i];
    when the producer runs out first, the answer is [cache[i mod L]] for the
    cache length [L > 0] reached, and [0] when the cache is still empty. *)
Theorem getitem_nonnegative h s raw pre inf rest (i : nat) :
  h !! s = Some (OLazy raw pre inf) ->
  producer h raw rest ->
  exists v h',
    let cache := pre ++ take (i + 1 - length pre) rest in
    (forall n, (length rest + 4 <= n)%nat ->
       __getitem__ n s (PInt (Z.of_nat i)) h = (Ret v, h')) /\
    h' !! s = Some (OLazy raw cache inf) /\
    producer h' raw (drop (i + 1 - length pre) rest) /\
    ((i < length cache)%nat -> cache !! i = Some v) /\
    ((length cache <= i)%nat ->
       cache = pre ++ rest /\
       (cache <> [] -> cache !! (i mod length cache)%nat = Some v) /\
       (cache = [] -> v = VInt 0)).
Proof.
  intros Hs Hp.
  destruct (decide (i < length pre)%nat) as [Hlt | Hge].
  - (* cache hit *)
    destruct (lookup_lt_is_Some_2 pre i Hlt) as [v Hv].
    exists v, h. cbn zeta.
    replace (i + 1 - length pre)%nat with 0%nat by lia.
    rewrite take_0, drop_0, app_nil_r.
    repeat split; auto; try lia.
    intros n _. unfold __getitem__, getitem_int, get_generated.
    rewrite (bind_Ret _ _ h pre h) by (now rewrite (bind_read _ _ _ _ Hs)).
    replace (Z.of_nat i <? 0) with false by (symmetry; apply Z.ltb_ge; lia).
    replace (Z.of_nat i <? Z.of_nat (length pre)) with true
      by (symmetry; apply Z.ltb_lt; lia).
    now apply py_index_nat.
  - (* production is forced *)
    destruct (getitem_while_spec s raw inf i rest h pre Hs Hp)
      as (h' & Hw & Hs' & Hp' & _).
    set (cache := pre ++ take (i + 1 - length pre) rest) in *.
    assert (exists v,
              (forall h0, match cache with
                          | [] => ret (VInt 0)
                          | _ :: _ => py_index cache
                                (Z.of_nat i mod Z.of_nat (length cache))
                          end h0 = (Ret v, h0)) /\
              ((i < length cache)%nat -> cache !! i = Some v) /\
              (cache <> [] -> cache !! (i mod length cache)%nat = Some v) /\
              (cache = [] -> v = VInt 0)) as (v & Hrun & Hhit & Hwrap & Hnil).
    { destruct cache as [|c cache'] eqn:Hc.
      - exists (VInt 0). repeat split; auto; simpl; try lia. congruence.
      - assert (i mod length (c :: cache') < length (c :: cache'))%nat as Hm
          by (apply Nat.mod_upper_bound; simpl; lia).
        destruct (lookup_lt_is_Some_2 _ _ Hm) as [v Hv].
        exists v. repeat split; auto.
        + intros h0. rewrite <- Nat2Z.inj_mod. now apply py_index_nat.
        + intros Hi. rewrite Nat.mod_small in Hv by exact Hi. exact Hv.
        + congruence. }
    exists v, h'. cbn zeta. fold cache.
    repeat split; auto.
    + intros n Hn. unfold __getitem__, getitem_int, get_generated.
      rewrite (bind_Ret _ _ h pre h) by (now rewrite (bind_read _ _ _ _ Hs)).
      replace (Z.of_nat i <? 0) with false by (symmetry; apply Z.ltb_ge; lia).
      replace (Z.of_nat i <? Z.of_nat (length pre)) with false
        by (symmetry; apply Z.ltb_ge; lia).
      replace n with (length rest + 4 + (n - (length rest + 4)))%nat by lia.
      rewrite (bind_Ret _ _ _ _ _ (Hw _)).
      rewrite (bind_Ret _ _ h' cache h')
        by (now rewrite (bind_read _ _ _ _ Hs')).
      apply Hrun.
    + unfold cache in *. rewrite length_app, length_take in H.
      rewrite take_ge; [reflexivity | lia].
Qed.

(** The specification's example: a producer yielding 1, 2, 3 answers
    [get(5)] with [get(5 mod 3) = 3]. *)
Lemma getitem_nonnegative_witness :
  fst (__getitem__ 7 1%nat (PInt 5)
         [OGen [VInt 1; VInt 2; VInt 3]; OLazy 0 [] false])
  = Ret (VInt 3).
Proof.
  destruct (getitem_nonnegative
              [OGen [VInt 1; VInt 2; VInt 3]; OLazy 0 [] false]
              1 0 [] false [VInt 1; VInt 2; VInt 3] 5
              eq_refl (or_introl eq_refl))
    as (v & h' & Hrun & _ & _ & _ & Hwrap).
  destruct (Hwrap ltac:(simpl; lia)) as (_ & Hv & _).
  specialize (Hv ltac:(discriminate)). simpl in Hv.
  injection Hv as <-.
  change (Z.of_nat 5) with 5 in Hrun.
  rewrite (Hrun 7%nat (le_n 7)). reflexivity.
Defined.

(** ** Iterators by invariant *)

Lemma preserves_refl P h : preserves P h h.
Proof. split; auto. Qed.

Lemma preserves_trans P h1 h2 h3 :
  preserves P h1 h2 -> preserves P h2 h3 -> preserves P h1 h3.
Proof.
  intros [L1 F1] [L2 F2]. split; [lia|].
  intros l Hl Hlt. rewrite F2, F1; auto. lia.
Qed.

Lemma preserves_weaken (P Q : loc -> Prop) h h' :
  (forall l, Q l -> P l) -> preserves P h h' -> preserves Q h h'.
Proof. intros HQ [L F]. split; auto. Qed.

Lemma preserves_alloc P h o : preserves P h (h ++ [o]).
Proof.
  split; [rewrite length_app; lia|].
  intros l _ Hlt. now apply lookup_app_l.
Qed.

Lemma preserves_store (P : loc -> Prop) h l o :
  ~ P l -> preserves P h (<[l := o]> h).
Proof.
  intros Hl. split; [now rewrite length_insert|].
  intros l' Hl' _. apply list_lookup_insert_ne. now intros ->.
Qed.

Lemma preserves_lookup (P : loc -> Prop) h h' l o :
  preserves P h h' -> P l -> h !! l = Some o -> h' !! l = Some o.
Proof.
  intros [_ F] Hl Ho. rewrite F; auto. exact (lookup_lt_Some _ _ _ Ho).
Qed.

Lemma steps_to_weaken it K K' (P Q : loc -> Prop) Inv xs h :
  (forall l, Q l -> P l) -> (K <= K')%nat ->
  steps_to it K P Inv xs h -> steps_to it K' Q Inv xs h.
Proof.
  intros HQ HK.
  assert (forall n, K' + n = K + (K' - K + n))%nat as E by (intros; lia).
  destruct xs as [|x xs]; simpl; intros (h' & Hn & Hi & Hp); exists h'.
  - split; [intros n; rewrite E; apply Hn|].
    split; [exact Hi | now apply (preserves_weaken P Q)].
  - split; [intros n; rewrite E; apply Hn|].
    split; [exact Hi | now apply (preserves_weaken P Q)].
Qed.

(** [list(it)] collects what the invariant promises. *)
Lemma py_list_iterator it K P Inv :
  iterator it K P Inv ->
  forall xs h, Inv xs h ->
    exists h', (forall n, py_list (length xs + K + 1 + n) it h = (Ret xs, h')) /\
               Inv [] h' /\ preserves P h h'.
Proof.
  intros Hit xs. induction xs as [|x xs IH]; intros h Hinv.
  - destruct (Hit [] h Hinv) as (h' & Hn & Hi & Hp). exists h'.
    split; [|split; assumption].
    intros n. simpl length. simpl plus.
    replace (K + 1 + n)%nat with (S (K + n)) by lia.
    rewrite py_list_S. unfold try_stop, bind. now rewrite Hn.
  - destruct (Hit (x :: xs) h Hinv) as (h1 & Hn & Hi & Hp).
    destruct (IH h1 Hi) as (h' & Hl & Hi' & Hp').
    exists h'.
    split; [|split; [assumption | exact (preserves_trans _ _ _ _ Hp Hp')]].
    intros n. simpl length.
    replace (S (length xs) + K + 1 + n)%nat
      with (S (length xs + K + 1 + n)) by lia.
    rewrite py_list_S. unfold try_stop, bind.
    replace (length xs + K + 1 + n)%nat
      with (K + (length xs + 1 + n))%nat at 1 by lia.
    rewrite Hn. now rewrite Hl.
Qed.

Lemma on_raise_Ret {A} (m : M A) c h a h' :
  m h = (Ret a, h') -> on_raise m c h = (Ret a, h').
Proof. unfold on_raise. now intros ->. Qed.

Lemma on_raise_Raise {A} (m : M A) c h e h' :
  m h = (Raise e, h') -> on_raise m c h = (Raise e, c h').
Proof. unfold on_raise. now intros ->. Qed.

Lemma try_stop_Ret {A} (m k : M A) h a h' :
  m h = (Ret a, h') -> try_stop m k h = (Ret a, h').
Proof. unfold try_stop. now intros ->. Qed.

Lemma try_stop_Stop {A} (m k : M A) h h' :
  m h = (Raise StopIteration, h') -> try_stop m k h = k h'.
Proof. unfold try_stop. now intros ->. Qed.

Lemma next_join_start n j lhs rhs h :
  h !! j = Some (OJoin (JStart lhs rhs)) ->
  py_next (S n) j h =
  on_raise (l <- py_iter lhs ;; write j (OJoin (JLeft l rhs)) ;;; py_next n j)
           (store j (OJoin JDone)) h.
Proof. intros H. now rewrite py_next_S, (bind_read _ _ _ _ H). Qed.

Lemma next_join_left n j lit rhs h :
  h !! j = Some (OJoin (JLeft lit rhs)) ->
  py_next (S n) j h =
  on_raise (try_stop (py_next n lit)
              (r <- py_iter rhs ;; write j (OJoin (JRight r)) ;;; py_next n j))
           (store j (OJoin JDone)) h.
Proof. intros H. now rewrite py_next_S, (bind_read _ _ _ _ H). Qed.

Lemma next_join_right n j rit h :
  h !! j = Some (OJoin (JRight rit)) ->
  py_next (S n) j h = on_raise (py_next n rit) (store j (OJoin JDone)) h.
Proof. intros H. now rewrite py_next_S, (bind_read _ _ _ _ H). Qed.

Lemma next_join_done n j h :
  h !! j = Some (OJoin JDone) ->
  py_next (S n) j h = (Raise StopIteration, h).
Proof.
  intros H. rewrite py_next_S, (bind_read _ _ _ _ H).
  unfold on_raise, raise, store. now rewrite (list_insert_id _ _ _ H).
Qed.

(** *** The [join_with] generator over two specified iterables *)

Section join_layer.

Variables (j : loc) (lhs rhs : value) (K : nat) (P : loc -> Prop).
(** [A] holds before the generator starts; [InvL it] and [InvR it] are
    the invariants of the iterators [iter(lhs)] and [iter(rhs)] return;
    [L] and [R] are what the two will yield. *)
Variables (A : heap -> Prop)
          (InvL InvR : loc -> list value -> heap -> Prop)
          (L R : list value).
Hypothesis Pj : P j.
Hypothesis Hlhs : forall h, A h ->
  exists lit h1, py_iter lhs h = (Ret lit, h1) /\ InvL lit L h1 /\
                 preserves P h h1.
Hypothesis HitL : forall lit, iterator lit K P (InvL lit).
Hypothesis HstL : forall lit, stable_at j (InvL lit).
Hypothesis Hrhs : forall lit h, InvL lit [] h ->
  exists rit h1, py_iter rhs h = (Ret rit, h1) /\ InvR rit R h1 /\
                 preserves P h h1.
Hypothesis HitR : forall rit, iterator rit K P (InvR rit).
Hypothesis HstR : forall rit, stable_at j (InvR rit).

Local Abbreviation join_done := (join_done j InvR).
Local Abbreviation join_inv := (join_inv j lhs rhs A InvL InvR L R).
Local Abbreviation join_protected := (join_protected j P).
Local Abbreviation join_step := (join_step j lhs rhs P A InvL InvR L R).

Lemma join_protected_P l : join_protected l -> P l.
Proof. now intros []. Qed.

Lemma join_protected_store h o :
  preserves join_protected h (<[j := o]> h).
Proof. apply preserves_store. now intros []. Qed.

Lemma join_done_step h : join_done h -> join_step 1 [] h.
Proof.
  intros [Hj Hr]. exists h. split; [|split; [now split|apply preserves_refl]].
  intros n. now apply next_join_done.
Qed.

Lemma join_right_step xs h rit :
  h !! j = Some (OJoin (JRight rit)) -> InvR rit xs h ->
  join_step (K + 1) xs h.
Proof.
  intros Hj Hinv. pose proof (HitR rit xs h Hinv) as Hstep.
  destruct xs as [|x xs]; simpl in *; destruct Hstep as (h' & Hn & Hi & Hp).
  - exists (<[j := OJoin JDone]> h').
    pose proof (preserves_lookup _ _ _ _ _ Hp Pj Hj) as Hj'.
    split; [|split].
    + intros n. replace (K + 1 + n)%nat with (S (K + n)) by lia.
      rewrite (next_join_right _ _ _ _ Hj).
      now apply on_raise_Raise.
    + split.
      * apply list_lookup_insert_eq. exact (lookup_lt_Some _ _ _ Hj').
      * exists rit. now apply HstR.
    + eapply preserves_trans;
        [exact (preserves_weaken _ _ _ _ join_protected_P Hp)|].
      apply join_protected_store.
  - exists h'. split; [|split].
    + intros n. replace (K + 1 + n)%nat with (S (K + n)) by lia.
      rewrite (next_join_right _ _ _ _ Hj).
      now apply on_raise_Ret.
    + right. right. left. exists rit. split; [|exact Hi].
      exact (preserves_lookup _ _ _ _ _ Hp Pj Hj).
    + exact (preserves_weaken _ _ _ _ join_protected_P Hp).
Qed.

(** The outcome of a nested step, seen through the generator's
    [on_raise] wrapper. *)
Lemma join_step_wrap K' xs h0 h :
  join_step K' xs h ->
  preserves join_protected h0 h ->
  forall (run : nat -> M value),
    (forall n, run n h0 =
               on_raise (py_next (K' + n) j) (store j (OJoin JDone)) h) ->
    match xs with
    | x :: xs' =>
        exists h', (forall n, run n h0 = (Ret x, h')) /\
                   join_inv xs' h' /\ preserves join_protected h0 h'
    | [] =>
        exists h', (forall n, run n h0 = (Raise StopIteration, h')) /\
                   join_done h' /\ preserves join_protected h0 h'
    end.
Proof.
  intros Hstep Hp0 run Hrun.
  destruct xs as [|x xs]; simpl in Hstep;
    destruct Hstep as (h' & Hn & Hi & Hp).
  - exists h'. split; [|split].
    + intros n. rewrite Hrun, (on_raise_Raise _ _ _ _ _ (Hn n)).
      unfold store. destruct Hi as [Hj _].
      now rewrite (list_insert_id _ _ _ Hj).
    + exact Hi.
    + exact (preserves_trans _ _ _ _ Hp0 Hp).
  - exists h'. split; [|split].
    + intros n. now rewrite Hrun, (on_raise_Ret _ _ _ _ _ (Hn n)).
    + exact Hi.
    + exact (preserves_trans _ _ _ _ Hp0 Hp).
Qed.

Lemma join_left_step xs h lit l1 :
  h !! j = Some (OJoin (JLeft lit rhs)) -> InvL lit l1 h ->
  xs = l1 ++ R ->
  join_step (K + 2) xs h.
Proof.
  intros Hj Hinv ->. pose proof (HitL lit l1 h Hinv) as Hstep.
  destruct l1 as [|x l1]; simpl in Hstep;
    destruct Hstep as (h1 & Hn & Hi & Hp).
  - (* the first loop is over: start the second *)
    simpl app.
    destruct (Hrhs lit h1 Hi) as (rit & h2 & Hiter & Hir & Hp2).
    pose proof (preserves_lookup _ _ _ _ _ Hp Pj Hj) as Hj1.
    pose proof (preserves_lookup _ _ _ _ _ Hp2 Pj Hj1) as Hj2.
    set (h3 := <[j := OJoin (JRight rit)]> h2).
    assert (h3 !! j = Some (OJoin (JRight rit))) as Hj3
      by (apply list_lookup_insert_eq; exact (lookup_lt_Some _ _ _ Hj2)).
    assert (InvR rit R h3) as Hir3 by (now apply HstR).
    assert (preserves join_protected h h3) as Hp3.
    { eapply preserves_trans;
        [exact (preserves_weaken _ _ _ _ join_protected_P Hp)|].
      eapply preserves_trans;
        [exact (preserves_weaken _ _ _ _ join_protected_P Hp2)|].
      apply join_protected_store. }
    pose proof (join_right_step R h3 rit Hj3 Hir3) as Hright.
    apply (join_step_wrap (K + 1) R h h3 Hright Hp3
             (fun n => py_next (K + 2 + n) j)).
    intros n. replace (K + 2 + n)%nat with (S (K + 1 + n)) by lia.
    rewrite (next_join_left _ _ _ _ _ Hj).
    replace (K + 1 + n)%nat with (K + (1 + n))%nat at 1 by lia.
    unfold on_raise at 1.
    rewrite (try_stop_Stop _ _ _ _ (Hn _)).
    rewrite (bind_Ret _ _ _ _ _ Hiter).
    unfold bind at 1, write. fold h3.
    reflexivity.
  - exists h1. split; [|split].
    + intros n. replace (K + 2 + n)%nat with (S (K + (1 + n))) by lia.
      rewrite (next_join_left _ _ _ _ _ Hj).
      apply on_raise_Ret. now apply try_stop_Ret.
    + right. left. exists lit, l1. repeat split; auto.
      exact (preserves_lookup _ _ _ _ _ Hp Pj Hj).
    + exact (preserves_weaken _ _ _ _ join_protected_P Hp).
Qed.

Lemma join_start_step h :
  h !! j = Some (OJoin (JStart lhs rhs)) -> A h ->
  join_step (K + 3) (L ++ R) h.
Proof.
  intros Hj HA.
  destruct (Hlhs h HA) as (lit & h1 & Hiter & Hil & Hp1).
  pose proof (preserves_lookup _ _ _ _ _ Hp1 Pj Hj) as Hj1.
  set (h2 := <[j := OJoin (JLeft lit rhs)]> h1).
  assert (h2 !! j = Some (OJoin (JLeft lit rhs))) as Hj2
    by (apply list_lookup_insert_eq; exact (lookup_lt_Some _ _ _ Hj1)).
  assert (InvL lit L h2) as Hil2 by (now apply HstL).
  assert (preserves join_protected h h2) as Hp2.
  { eapply preserves_trans;
      [exact (preserves_weaken _ _ _ _ join_protected_P Hp1)|].
    apply join_protected_store. }
  pose proof (join_left_step (L ++ R) h2 lit L Hj2 Hil2 eq_refl) as Hleft.
  apply (join_step_wrap (K + 2) (L ++ R) h h2 Hleft Hp2
           (fun n => py_next (K + 3 + n) j)).
  intros n. replace (K + 3 + n)%nat with (S (K + 2 + n)) by lia.
  rewrite (next_join_start _ _ _ _ _ Hj).
  unfold on_raise at 1.
  rewrite (bind_Ret _ _ _ _ _ Hiter).
  unfold bind at 1, write. fold h2.
  reflexivity.
Qed.

Lemma join_step_steps_to K' xs h :
  (K' <= K + 3)%nat -> join_step K' xs h ->
  steps_to j (K + 3) join_protected join_inv xs h.
Proof.
  intros HK Hstep.
  apply (steps_to_weaken j K' (K + 3) join_protected join_protected);
    [auto | exact HK |].
  destruct xs as [|x xs]; simpl in *;
    destruct Hstep as (h' & Hn & Hi & Hp); exists h';
    (split; [exact Hn | split; [|exact Hp]]).
  - right. right. right. now split.
  - exact Hi.
Qed.

(** The generator is an iterator over [L ++ R]. *)
Lemma join_iterator : iterator j (K + 3) join_protected join_inv.
Proof.
  intros xs h [(Hj & HA & ->) | [(lit & l1 & Hj & Hi & ->) |
               [(rit & Hj & Hi) | (-> & Hd)]]].
  - apply (join_step_steps_to (K + 3)); [lia | now apply join_start_step].
  - apply (join_step_steps_to (K + 2));
      [lia | now apply (join_left_step _ _ lit l1)].
  - apply (join_step_steps_to (K + 1));
      [lia | now apply (join_right_step _ _ rit)].
  - apply (join_step_steps_to 1); [lia | now apply join_done_step].
Qed.

(** Writes elsewhere keep the generator's invariant when they keep the
    invariants it is built from. *)
Lemma join_inv_stable l :
  l <> j ->
  (forall h o, A h -> A (<[l := o]> h)) ->
  (forall lit, stable_at l (InvL lit)) ->
  (forall rit, stable_at l (InvR rit)) ->
  stable_at l join_inv.
Proof.
  intros Hl HA HL HR xs h o.
  assert (forall st, h !! j = Some st -> <[l := o]> h !! j = Some st) as Hj'
    by (intros st Hst; rewrite list_lookup_insert_ne; auto).
  intros [(Hj & Ha & ->) | [(lit & l1 & Hj & Hi & ->) |
          [(rit & Hj & Hi) | (-> & Hj & rit & Hi)]]].
  - left. repeat split; auto.
  - right. left. exists lit, l1. repeat split; auto. now apply HL.
  - right. right. left. exists rit. split; auto. now apply HR.
  - right. right. right. split; [reflexivity|]. split; auto.
    exists rit. now apply HR.
Qed.
End join_layer.

(** *** Iterators from producers *)

Lemma clone_next_nil h t b u :
  clone h t b u [] ->
  forall n, py_next (S (S n)) t h = (Raise StopIteration, h).
Proof. intros Hc. exact (producer_next_nil _ _ (clone_producer _ _ _ _ _ Hc)). Qed.

(** A clone is an iterator; the invariant may carry any fact [C] that a
    step of the clone keeps. *)
Lemma clone_iterator t b u (P : loc -> Prop) (C : heap -> Prop) :
  (forall l, P l -> l <> t /\ l <> b /\ l <> u) ->
  (forall h h', C h -> clone_step h h' t b u -> C h') ->
  iterator t 2 P (fun xs h => clone h t b u xs /\ C h).
Proof.
  intros HP HC xs h [Hc Hcar]. destruct xs as [|x xs]; simpl.
  - exists h. split; [|split; [now split | apply preserves_refl]].
    intros n. now apply (clone_next_nil _ _ b u).
  - destruct (clone_next_cons _ _ _ _ _ _ Hc) as (h' & Hn & Hc' & Hstep).
    exists h'. split; [exact Hn|]. split; [split; eauto|].
    destruct Hstep as (Hl & Hfr & _). split; [lia|].
    intros l Hl' _. destruct (HP l Hl') as (? & ? & ?). now apply Hfr.
Qed.

(** So is a producer of either kind; here the carried fact must not depend
    on the producer's footprint [F]. *)
Lemma producer_iterator r (F : list loc) (P : loc -> Prop) (C : heap -> Prop) :
  (forall l, P l -> l ∉ F) ->
  (forall h h', C h -> length h' = length h ->
                (forall l, l ∉ F -> h' !! l = h !! l) -> C h') ->
  iterator r 2 P (fun xs h => producer h r xs /\ footprint h r = F /\ C h).
Proof.
  intros HP HC xs h (Hp & HF & Hcar). destruct xs as [|x xs]; simpl.
  - exists h. split; [|split; [auto | apply preserves_refl]].
    intros n. now apply producer_next_nil.
  - destruct (producer_next_cons _ _ _ _ Hp) as (h' & Hn & Hp' & HF' & Hl & Hfr).
    rewrite HF in *.
    exists h'. split; [exact Hn|]. split; [split; [|split]; eauto|].
    split; [lia|]. intros l Hl' _. apply Hfr. auto.
Qed.

(** ** A fresh iteration: [__iter__] *)

Lemma length_app3 {A} (h : list A) a b c :
  length (h ++ [a; b; c]) = (length h + 3)%nat.
Proof. rewrite length_app. reflexivity. Qed.

(** [__iter__] on a sequence over a producer: the sequence now reads the
    clone [c0], the returned generator will join the cached prefix with the
    fresh clone [c1]; both clones have everything the producer had left. *)
Lemma iter_spec h s raw pre inf rest :
  h !! s = Some (OLazy raw pre inf) ->
  producer h raw rest ->
  exists j c0 c1 b u h',
    __iter__ s h = (Ret j, h') /\
    h' !! s = Some (OLazy c0 pre inf) /\
    h' !! j = Some (OJoin (JStart (VList pre) (VIter c1))) /\
    clone h' c0 b u rest /\ clone h' c1 b u rest /\
    (forall l, l = c1 \/ l = b \/ l = u ->
               l ∈ footprint h raw \/ (length h <= l)%nat) /\
    c0 <> c1 /\ (length h <= c1)%nat /\ (length h <= j)%nat /\
    (length h <= length h')%nat /\
    (forall l, l <> s -> (l < length h)%nat -> h' !! l = h !! l) /\
    ((h !! raw = Some (OGen rest) /\ u = raw) \/
     (c0 = raw /\ clone h raw b u rest)).
Proof.
  intros Hs Hp.
  pose proof (lookup_lt_Some _ _ _ Hs) as Hlts.
  destruct Hp as [Hg | (b & p & u & data & rest0 & Hr & Hb & Hu & Hp & ->)].
  - (* a plain producer gets a buffer and two clones *)
    pose proof (lookup_lt_Some _ _ _ Hg) as Hltr.
    assert (s <> raw) as Hsr by (intros ->; congruence).
    set (b := length h). set (c0 := (b + 1)%nat). set (c1 := (b + 2)%nat).
    set (h1 := h ++ [OBuf raw []; OTee b 0; OTee b 0]).
    set (h2 := <[s := OLazy c0 pre inf]> h1).
    set (j := (b + 3)%nat).
    set (h3 := h2 ++ [OJoin (JStart (VList pre) (VIter c1))]).
    assert (length h1 = (b + 3)%nat) as Hl1 by apply length_app3.
    assert (length h2 = (b + 3)%nat) as Hl2
      by (unfold h2; now rewrite length_insert).
    assert (forall l, l <> s -> (l < length h)%nat -> h3 !! l = h !! l) as Hfr.
    { intros l Hl Hlt. unfold h3, h2, h1.
      rewrite lookup_app_l by (rewrite length_insert, length_app3; lia).
      rewrite list_lookup_insert_ne by auto.
      now apply lookup_app_l. }
    assert (forall k o, [OBuf raw []; OTee b 0; OTee b 0] !! k = Some o ->
              h3 !! (b + k)%nat = Some o) as Hnew.
    { intros k o Hk. pose proof (lookup_lt_Some _ _ _ Hk) as Hltk.
      simpl in Hltk. unfold h3, h2, h1.
      rewrite lookup_app_l by (rewrite length_insert, length_app3; lia).
      rewrite list_lookup_insert_ne by (unfold b; lia).
      rewrite lookup_app_r by (unfold b; lia).
      replace (b + k - length h)%nat with k by (unfold b; lia). exact Hk. }
    exists j, c0, c1, b, raw, h3.
    split; [|split; [|split; [|split; [|split]]]].
    + unfold __iter__, get_raw_object, tee.
      rewrite (bind_Ret _ _ h raw h) by (now rewrite (bind_read _ _ _ _ Hs)).
      rewrite (bind_Ret _ _ h (c0, c1) h1).
      2:{ rewrite (bind_read _ _ _ _ Hg). unfold bind, alloc, ret. simpl.
          rewrite !length_app. simpl length.
          replace (length h + 1 + 1)%nat with (length h + 2)%nat by lia.
          unfold h1, c0, c1, b. rewrite <- !app_assoc. reflexivity. }
      assert (h1 !! s = Some (OLazy raw pre inf)) as Hs1
        by (unfold h1; rewrite lookup_app_l; auto).
      unfold set_raw_object, get_generated, join_with. simpl fst. simpl snd.
      rewrite (bind_Ret _ _ h1 tt h2) by (now rewrite (bind_read _ _ _ _ Hs1)).
      assert (h2 !! s = Some (OLazy c0 pre inf)) as Hs2
        by (unfold h2; apply list_lookup_insert_eq; lia).
      rewrite (bind_Ret _ _ h2 pre h2) by (now rewrite (bind_read _ _ _ _ Hs2)).
      unfold alloc. rewrite Hl2. reflexivity.
    + unfold h3. rewrite lookup_app_l by (rewrite Hl2; unfold b; lia).
      unfold h2. apply list_lookup_insert_eq. rewrite Hl1. unfold b. lia.
    + unfold h3. rewrite lookup_app_r by (rewrite Hl2; unfold j; lia).
      rewrite Hl2. replace (j - (b + 3))%nat with 0%nat by (unfold j; lia).
      reflexivity.
    + exists 0%nat, [], rest. repeat split; auto.
      * apply (Hnew 1%nat). reflexivity.
      * rewrite <- (Nat.add_0_r b) at 1. now apply Hnew.
      * rewrite Hfr; auto.
    + exists 0%nat, [], rest. repeat split; auto.
      * apply (Hnew 2%nat). reflexivity.
      * rewrite <- (Nat.add_0_r b) at 1. now apply Hnew.
      * rewrite Hfr; auto.
    + split.
      { intros l [-> | [-> | ->]]; [right; unfold c1, b; lia | right; lia |].
        left. unfold footprint. rewrite Hg. set_solver. }
      repeat split; auto; unfold c0, c1, j, b in *; try lia.
      unfold h3. rewrite length_app, Hl2. unfold b. lia.
  - (* a clone is copied *)
    pose proof (lookup_lt_Some _ _ _ Hr) as Hltr.
    pose proof (lookup_lt_Some _ _ _ Hb) as Hltb.
    pose proof (lookup_lt_Some _ _ _ Hu) as Hltu.
    assert (s <> raw) as Hsr by (intros ->; congruence).
    assert (s <> b) as Hsb by (intros ->; congruence).
    assert (s <> u) as Hsu by (intros ->; congruence).
    set (c1 := length h).
    set (h1 := h ++ [OTee b p]).
    set (h2 := <[s := OLazy raw pre inf]> h1).
    set (j := (c1 + 1)%nat).
    set (h3 := h2 ++ [OJoin (JStart (VList pre) (VIter c1))]).
    assert (length h1 = (c1 + 1)%nat) as Hl1 by (unfold h1; now rewrite length_app).
    assert (length h2 = (c1 + 1)%nat) as Hl2
      by (unfold h2; now rewrite length_insert).
    assert (forall l, l <> s -> (l < length h)%nat -> h3 !! l = h !! l) as Hfr.
    { intros l Hl Hlt. unfold h3, h2, h1.
      rewrite lookup_app_l by (rewrite length_insert, length_app; simpl; lia).
      rewrite list_lookup_insert_ne by auto.
      now apply lookup_app_l. }
    assert (h3 !! c1 = Some (OTee b p)) as Hc1.
    { unfold h3, h2, h1.
      rewrite lookup_app_l by (rewrite length_insert, length_app; simpl; unfold c1; lia).
      rewrite list_lookup_insert_ne by (unfold c1; lia).
      rewrite lookup_app_r by (unfold c1; lia).
      replace (c1 - length h)%nat with 0%nat by (unfold c1; lia). reflexivity. }
    exists j, raw, c1, b, u, h3.
    split; [|split; [|split; [|split; [|split]]]].
    + unfold __iter__, get_raw_object, tee.
      rewrite (bind_Ret _ _ h raw h) by (now rewrite (bind_read _ _ _ _ Hs)).
      rewrite (bind_Ret _ _ h (raw, c1) h1)
        by (rewrite (bind_read _ _ _ _ Hr); reflexivity).
      assert (h1 !! s = Some (OLazy raw pre inf)) as Hs1
        by (unfold h1; rewrite lookup_app_l; auto).
      unfold set_raw_object, get_generated, join_with. simpl fst. simpl snd.
      rewrite (bind_Ret _ _ h1 tt h2) by (now rewrite (bind_read _ _ _ _ Hs1)).
      assert (h2 !! s = Some (OLazy raw pre inf)) as Hs2
        by (unfold h2; apply list_lookup_insert_eq; lia).
      rewrite (bind_Ret _ _ h2 pre h2) by (now rewrite (bind_read _ _ _ _ Hs2)).
      unfold alloc. rewrite Hl2. reflexivity.
    + unfold h3. rewrite lookup_app_l by (rewrite Hl2; unfold c1; lia).
      unfold h2. apply list_lookup_insert_eq. rewrite Hl1. unfold c1. lia.
    + unfold h3. rewrite lookup_app_r by (rewrite Hl2; unfold j; lia).
      rewrite Hl2. replace (j - (c1 + 1))%nat with 0%nat by (unfold j; lia).
      reflexivity.
    + exists p, data, rest0. rewrite !Hfr by auto. repeat split; auto.
    + exists p, data, rest0. rewrite Hc1. rewrite !Hfr by auto.
      repeat split; auto.
    + split.
      { intros l [-> | [-> | ->]]; [right; lia | left | left];
          unfold footprint; rewrite Hr, Hb; set_solver. }
      repeat split; auto; unfold j, c1 in *; try lia.
      * unfold h3. rewrite length_app, Hl2. unfold c1. lia.
      * right. split; [reflexivity|]. exists p, data, rest0. auto.
Qed.

Lemma iterator_weaken it K K' (P Q : loc -> Prop) Inv :
  (forall l, Q l -> P l) -> (K <= K')%nat ->
  iterator it K P Inv -> iterator it K' Q Inv.
Proof.
  intros HQ HK Hit xs h Hi.
  exact (steps_to_weaken _ _ _ _ _ _ _ _ HQ HK (Hit xs h Hi)).
Qed.

(** A fresh list iterator. *)
Lemma gen_iterator g (P : loc -> Prop) (C : heap -> Prop) :
  (forall h, C h -> ~ P g) ->
  (forall h o, C h -> C (<[g := o]> h)) ->
  iterator g 1 P (fun xs h => h !! g = Some (OGen xs) /\ C h).
Proof.
  intros HP HC xs h [Hg Hc]. specialize (HP h Hc).
  destruct xs as [|x xs]; simpl.
  - exists h. split; [|split; [now split | apply preserves_refl]].
    intros n. now apply next_gen_nil.
  - exists (<[g := OGen xs]> h). split; [|split; [split|]].
    + intros n. now apply next_gen_cons.
    + apply list_lookup_insert_eq. exact (lookup_lt_Some _ _ _ Hg).
    + now apply HC.
    + now apply preserves_store.
Qed.

Lemma clone_store h t b u rest l o :
  clone h t b u rest -> l <> t -> l <> b -> l <> u ->
  clone (<[l := o]> h) t b u rest.
Proof.
  intros Hc Ht Hb Hu.
  apply (clone_same h); auto; apply list_lookup_insert_ne; auto.
Qed.

Lemma clone_alloc h t b u rest o :
  clone h t b u rest -> clone (h ++ [o]) t b u rest.
Proof.
  intros Hc. pose proof Hc as (p & data & rest0 & Ht & Hb & Hu & _).
  apply (clone_same h); auto; apply lookup_app_l;
    eapply lookup_lt_Some; eauto.
Qed.

Lemma clone_lt h t b u rest :
  clone h t b u rest ->
  (t < length h)%nat /\ (b < length h)%nat /\ (u < length h)%nat.
Proof.
  intros (p & data & rest0 & Ht & Hb & Hu & _).
  repeat split; eapply lookup_lt_Some; eauto.
Qed.

(** *** Draining the generator [__iter__] returns

    The generator joins the snapshot [pre] of the cache with the clone
    [c1].  [C] is any fact about the rest of the store that survives the
    steps of that clone, writes to the generator, and writes to what is
    allocated from now on. *)
Section iteration.

Variables (j c1 b u : loc) (pre rest : list value).
Variables (N : nat) (C : heap -> Prop) (P : loc -> Prop).
Hypothesis Cstep : forall h h', C h -> clone_step h h' c1 b u -> C h'.
Hypothesis Cj : forall h o, C h -> C (<[j := o]> h).
Hypothesis Cfresh : forall h l o, C h -> (N <= l)%nat -> C (<[l := o]> h).
Hypothesis Calloc : forall h o, C h -> C (h ++ [o]).
(** [P] is what the iteration must leave alone. *)
Hypothesis HP : forall l, P l ->
  l <> j /\ l <> c1 /\ l <> b /\ l <> u /\ (l < N)%nat.

Local Abbreviation iter_facts := (iter_facts j c1 b u N C).
Local Abbreviation iter_start := (iter_start j c1 b u rest N C).
Local Abbreviation iter_left := (iter_left j c1 b u rest N C).
Local Abbreviation iter_right := (iter_right j c1 b u N C).
Local Abbreviation iter_inv := (iter_inv j c1 b u pre rest N C).
Local Abbreviation iter_inner := (iter_inner j P).

Lemma iter_facts_store h l o :
  iter_facts h -> (l = j \/ (N <= l)%nat) -> iter_facts (<[l := o]> h).
Proof.
  intros (? & ? & ? & ? & ? & ? & ? & HC) Hl. repeat split; auto.
  destruct Hl as [-> | Hl]; [now apply Cj | now apply Cfresh].
Qed.

Lemma iteration_iterator :
  iterator j 5 (join_protected j iter_inner) iter_inv.
Proof.
  apply (join_iterator j (VList pre) (VIter c1) 2 iter_inner
           iter_start iter_left iter_right pre rest).
  - now right.
  - (* iter(generated[::]) *)
    intros h (HN & Hc & Hf).
    exists (length h), (h ++ [OGen pre]). split; [reflexivity|].
    split; [|apply preserves_alloc].
    split; [apply list_lookup_middle; reflexivity|].
    split; [exact HN|]. split; [now apply clone_alloc|].
    destruct Hf as (? & ? & ? & ? & ? & ? & ? & HC). repeat split; auto.
  - intros g.
    apply (iterator_weaken g 1 2 iter_inner iter_inner); [auto | lia |].
    apply gen_iterator.
    + intros h (HN & _ & Hj & _) [Hg | ->]; [|lia].
      destruct (HP _ Hg) as (_ & _ & _ & _ & ?). lia.
    + intros h o (HN & Hc & Hf). split; [exact HN|].
      pose proof Hf as (? & ? & ? & ? & _).
      split; [apply clone_store; auto; lia|].
      apply iter_facts_store; auto.
  - intros g xs h o (Hg & HN & Hc & Hf).
    pose proof Hf as (? & ? & ? & ? & ? & ? & ? & _).
    split; [rewrite list_lookup_insert_ne by lia; exact Hg|].
    split; [exact HN|]. split; [apply clone_store; auto|].
    apply iter_facts_store; auto.
  - (* iter(clones[1]) *)
    intros g h (_ & _ & Hc & Hf).
    exists c1, h. split; [reflexivity|].
    split; [|apply preserves_refl]. split; auto.
  - intros rit xs h Hinv. pose proof Hinv as (_ & -> & Hf).
    pose proof Hf as (? & ? & ? & ? & ? & ? & ? & _).
    apply (clone_iterator c1 b u iter_inner
             (fun h => c1 = c1 /\ iter_facts h)); [| |exact Hinv].
    + intros l [Hl | ->]; [|auto].
      destruct (HP _ Hl) as (_ & ? & ? & ? & _). auto.
    + intros h0 h' [_ (? & ? & ? & ? & ? & ? & ? & HC)] Hstep.
      repeat split; auto. now apply (Cstep h0).
  - intros rit xs h o (Hc & -> & Hf).
    pose proof Hf as (? & ? & ? & ? & ? & ? & ? & _).
    split; [apply clone_store; auto|]. split; [reflexivity|].
    apply iter_facts_store; auto.
Qed.

Lemma iter_protected l : P l -> join_protected j iter_inner l.
Proof.
  intros Hl. destruct (HP _ Hl) as (? & _). split; [now left | auto].
Qed.

(** Whatever state the generator is in, the clone has what is left of
    the producer's part and [C] holds. *)
Lemma iter_inv_facts xs h :
  iter_inv xs h -> exists zs, clone h c1 b u zs /\ iter_facts h /\
                              (xs = [] -> zs = []).
Proof.
  intros [(_ & (_ & Hc & Hf) & E) | [(g & l1 & _ & Hil & E) |
          [(rit & _ & Hc & _ & Hf) | (E & _ & rit & Hc & _ & Hf)]]].
  - exists rest. split; [exact Hc|]. split; [exact Hf|].
    intros Hx. rewrite Hx in E. symmetry in E.
    now apply app_eq_nil in E as [_ E].
  - destruct Hil as (_ & _ & Hc & Hf).
    exists rest. split; [exact Hc|]. split; [exact Hf|].
    intros Hx. rewrite Hx in E. symmetry in E.
    now apply app_eq_nil in E as [_ E].
  - exists xs. auto.
  - exists []. auto.
Qed.

(** Writes at old locations the iteration does not own keep its
    invariant. *)
Lemma iter_inv_stable l :
  l <> j -> l <> c1 -> l <> b -> l <> u -> (l < N)%nat ->
  (forall h o, C h -> C (<[l := o]> h)) ->
  stable_at l iter_inv.
Proof.
  intros Hj Hc1 Hb Hu Hl HC.
  assert (forall h o, iter_facts h -> iter_facts (<[l := o]> h)) as Hf.
  { intros h o (? & ? & ? & ? & ? & ? & ? & HC'). repeat split; auto. }
  apply join_inv_stable; auto.
  - intros h o (HN & Hc & Hfa). split; [now rewrite length_insert|].
    split; [now apply clone_store | now apply Hf].
  - intros g xs h o (Hg & HN & Hc & Hfa).
    split; [rewrite list_lookup_insert_ne by lia; exact Hg|].
    split; [exact HN|]. split; [now apply clone_store | now apply Hf].
  - intros rit xs h o (Hc & -> & Hfa).
    split; [now apply clone_store|]. split; [reflexivity | now apply Hf].
Qed.

(** [list] of the generator is the cached prefix followed by what the
    producer had left; the clone is exhausted and [C] still holds. *)
Lemma iteration_list h :
  h !! j = Some (OJoin (JStart (VList pre) (VIter c1))) ->
  iter_start h ->
  exists h',
    (forall n, py_list (length (pre ++ rest) + 6 + n) j h
               = (Ret (pre ++ rest), h')) /\
    clone h' c1 b u [] /\ C h' /\ (length h <= length h')%nat.
Proof.
  intros Hj Hstart.
  destruct (py_list_iterator _ _ _ _ iteration_iterator (pre ++ rest) h)
    as (h' & Hl & Hi & Hp).
  { left. auto. }
  exists h'. split; [|].
  { intros n. replace (length (pre ++ rest) + 6 + n)%nat
      with (length (pre ++ rest) + 5 + 1 + n)%nat by lia. apply Hl. }
  destruct Hp as [Hlen _].
  destruct (iter_inv_facts _ _ Hi) as (zs & Hc & Hf & E).
  rewrite (E eq_refl) in Hc.
  destruct Hf as (_ & _ & _ & _ & _ & _ & _ & HC). auto.
Qed.
End iteration.

Lemma clone_inj h t b u rest b' u' rest' :
  clone h t b u rest -> clone h t b' u' rest' ->
  b' = b /\ u' = u /\ rest' = rest.
Proof.
  intros (p & d & r0 & Ht & Hb & Hu & _ & ->)
         (p' & d' & r0' & Ht' & Hb' & Hu' & _ & ->).
  rewrite Ht in Ht'. injection Ht' as <- <-.
  rewrite Hb in Hb'. injection Hb' as <- <-.
  rewrite Hu in Hu'. injection Hu' as <-. auto.
Qed.

Lemma clone_kinds h t b u rest l o :
  clone h t b u rest -> h !! l = Some o -> is_plain o = false ->
  l <> t /\ l <> b /\ l <> u.
Proof.
  intros (p & d & r0 & Ht & Hb & Hu & _) Hl Hk.
  repeat split; intros ->; rewrite Hl in *; simplify_eq; discriminate.
Qed.

Lemma clone_nil_under h t b u :
  clone h t b u [] -> h !! u = Some (OGen []).
Proof.
  intros (p & d & r0 & _ & _ & Hu & _ & E).
  symmetry in E. apply app_eq_nil in E as [_ ->]. exact Hu.
Qed.

(** ** [list(map(simplify, it))]

    Draining the map object [m] over an iterator [it] whose values are
    quiet: the values of [it] are pulled one by one and flattened, until
    [it] stops or a value cannot be iterated. *)
Lemma settled_cases {A} (out : outcome A) :
  settled out -> (exists a, out = Ret a) \/ out = Raise TypeError.
Proof. destruct out as [a|[]|]; simpl; intros []; eauto. Qed.

Lemma next_map_simplify n m it h :
  h !! m = Some (OMap MSimplify it) ->
  py_next (S n) m h = (x <- py_next n it ;; simplify n x) h.
Proof. intros Hm. rewrite py_next_S. now rewrite (bind_read _ _ _ _ Hm). Qed.

Lemma drain_simplify it m K (P : loc -> Prop) Inv :
  iterator it K P Inv ->
  (forall xs h l, Inv xs h -> Inv xs (h ++ l)) ->
  P m ->
  forall xs h,
    Inv xs h -> h !! m = Some (OMap MSimplify it) -> Forall quiet xs ->
    exists (out : outcome (list value)) h',
      settled out /\
      (forall d, (length xs + K + 2 + list_max (map simplify_fuel xs) <= d)%nat ->
         py_list d m h = (out, h')) /\
      preserves P h h' /\ exists xs', Inv xs' h'.
Proof.
  intros Hit Happ Pm xs. induction xs as [|x xs IH]; intros h Hinv Hm Hq.
  - destruct (Hit [] h Hinv) as (h' & Hn & Hi & Hp).
    exists (Ret []), h'. split; [exact I|]. split; [|split; [exact Hp| eauto]].
    intros d Hd. simpl in Hd.
    destruct d as [|[|d]]; try lia.
    rewrite py_list_S. unfold try_stop.
    rewrite (bind_Raise _ _ h StopIteration h'); [reflexivity|].
    rewrite (next_map_simplify _ _ _ _ Hm).
    apply bind_Raise. replace d with (K + (d - K))%nat by lia. apply Hn.
  - destruct (Hit (x :: xs) h Hinv) as (h1 & Hn & Hi & Hp).
    inversion Hq as [|? ? Hx Hxs]; subst.
    destruct (Hx h1) as (ox & junk & Hset & Hsim).
    assert ((h1 ++ junk) !! m = Some (OMap MSimplify it)) as Hm1.
    { rewrite lookup_app_l by
        (pose proof (lookup_lt_Some _ _ _ Hm); destruct Hp; lia).
      exact (preserves_lookup _ _ _ _ _ Hp Pm Hm). }
    assert (preserves P h (h1 ++ junk)) as Hp1.
    { destruct Hp as [L F]. split; [rewrite length_app; lia|].
      intros l Hl Hlt. rewrite lookup_app_l by lia. auto. }
    assert (forall d, (length (x :: xs) + K + 2 +
                       list_max (map simplify_fuel (x :: xs)) <= d)%nat ->
              py_next (d - 1) m h = (ox, h1 ++ junk)) as Hnext.
    { intros d Hd. simpl in Hd.
      destruct d as [|[|d]]; try lia.
      replace (S (S d) - 1)%nat with (S d) by lia.
      rewrite (next_map_simplify _ _ _ _ Hm).
      rewrite (bind_Ret _ _ h x h1)
        by (replace d with (K + (d - K))%nat by lia; apply Hn).
      apply Hsim. lia. }
    destruct (settled_cases _ Hset) as [[r ->] | ->].
    + destruct (IH (h1 ++ junk) (Happ _ _ _ Hi) Hm1 Hxs)
        as (out & h' & Hset' & Hl & Hp' & Hi').
      exists (match out with Ret l => Ret (r :: l) | _ => Raise TypeError end), h'.
      split; [destruct out as [?|[]|]; simpl in *; auto|].
      split; [|split; [exact (preserves_trans _ _ _ _ Hp1 Hp') | exact Hi']].
      intros d Hd. pose proof (Hnext d Hd) as Hnx. simpl in Hd.
      destruct d as [|d]; [lia|].
      replace (S d - 1)%nat with d in Hnx by lia.
      rewrite py_list_S. unfold try_stop.
      rewrite (bind_Ret _ _ _ _ _ Hnx).
      unfold bind. rewrite (Hl d) by lia.
      destruct (settled_cases _ Hset') as [[l ->] | ->]; reflexivity.
    + exists (Raise TypeError), (h1 ++ junk).
      split; [exact I|]. split; [|split; [exact Hp1 | eauto]].
      intros d Hd. pose proof (Hnext d Hd) as Hnx. simpl in Hd.
      destruct d as [|d]; [lia|].
      replace (S d - 1)%nat with d in Hnx by lia.
      rewrite py_list_S. unfold try_stop.
      now rewrite (bind_Raise _ _ _ _ _ Hnx).
Qed.

Lemma heap_extends (h h' : heap) :
  (length h <= length h')%nat ->
  (forall l, (l < length h)%nat -> h' !! l = h !! l) ->
  h' = h ++ drop (length h) h'.
Proof.
  intros L F. rewrite <- (take_drop (length h) h') at 1. f_equal.
  apply list_eq. intros i. destruct (decide (i < length h)%nat).
  - rewrite lookup_take_lt by lia. auto.
  - rewrite lookup_take_ge by lia. symmetry. apply lookup_ge_None_2. lia.
Qed.

Lemma simplify_S n v :
  simplify (S n) v =
  match v with
  | VInt _ | VFloat _ | VStr _ => ret v
  | VRat q => ret (VFloat (float_of_Q q))
  | VSymInt z => ret (VFloat (float_of_Q (inject_Z z)))
  | _ => m <- py_map MSimplify v ;; l <- py_list n m ;; ret (VList l)
  end.
Proof. reflexivity. Qed.

(** Flattening a native list or tuple of quiet values is quiet. *)
Lemma simplify_elements v l :
  py_iter v = alloc (OGen l) ->
  (forall n, simplify (S n) v
             = (m <- py_map MSimplify v ;; l <- py_list n m ;; ret (VList l))) ->
  simplify_fuel v = (length l + 4 + list_max (map simplify_fuel l))%nat ->
  Forall quiet l -> quiet v.
Proof.
  intros Hiter Hsim Hfuel Hq h.
  set (g := length h). set (h1 := (h ++ [OGen l]) ++ [OMap MSimplify g]).
  assert (length (h ++ [OGen l]) = S g) as Lm
    by (rewrite length_app; simpl; unfold g; lia).
  assert (py_map MSimplify v h = (Ret (S g), h1)) as Hmap.
  { unfold py_map. rewrite Hiter. unfold alloc, bind. now rewrite Lm. }
  assert (h1 !! g = Some (OGen l)) as Hg.
  { unfold h1. rewrite <- app_assoc. apply list_lookup_middle. reflexivity. }
  assert (h1 !! S g = Some (OMap MSimplify g)) as Hm.
  { unfold h1. rewrite <- Lm. apply list_lookup_middle. reflexivity. }
  destruct (drain_simplify g (S g) 1 (fun l => l <> g)
              (fun xs h => h !! g = Some (OGen xs) /\ True)) with (xs := l) (h := h1)
    as (out & h' & Hset & Hl & [L F] & _); auto.
  - apply gen_iterator; auto.
  - intros xs h0 k [H0 _]. split; [|exact I].
    rewrite lookup_app_l; auto. exact (lookup_lt_Some _ _ _ H0).
  - assert (length h <= length h')%nat as L'
      by (unfold h1 in L; rewrite !length_app in L; simpl in L; lia).
    assert (forall i, (i < length h)%nat -> h' !! i = h !! i) as F'.
    { intros i Hi. rewrite F.
      - unfold h1. rewrite <- app_assoc. now apply lookup_app_l.
      - unfold g. lia.
      - unfold h1. rewrite !length_app. simpl. lia. }
    destruct (settled_cases _ Hset) as [[r ->] | ->].
    + exists (Ret (VList r)), (drop (length h) h').
      split; [exact I|]. intros d Hd. rewrite Hfuel in Hd.
      destruct d as [|d]; [lia|]. rewrite Hsim.
      rewrite (bind_Ret _ _ _ _ _ Hmap).
      rewrite (bind_Ret _ _ _ _ _ (Hl d ltac:(lia))).
      unfold ret. f_equal. now apply heap_extends.
    + exists (Raise TypeError), (drop (length h) h').
      split; [exact I|]. intros d Hd. rewrite Hfuel in Hd.
      destruct d as [|d]; [lia|]. rewrite Hsim.
      rewrite (bind_Ret _ _ _ _ _ Hmap).
      rewrite (bind_Raise _ _ _ _ _ (Hl d ltac:(lia))).
      f_equal. now apply heap_extends.
Qed.

(** Every inert value is quiet. *)
Lemma inert_quiet v : inert v = true -> quiet v.
Proof.
  assert (forall k v, (simplify_fuel v <= k)%nat -> inert v = true -> quiet v)
    as Hall; [|now apply (Hall (simplify_fuel v))].
  clear v. intros k. induction k as [|k IH]; intros v Hk Hv.
  { destruct v; simpl in Hk; lia. }
  assert (forall l, (list_max (map simplify_fuel l) <= k)%nat ->
                    forallb inert l = true -> Forall quiet l) as Hels.
  { intros l Hmax Hin. apply list_max_le in Hmax.
    rewrite Forall_map in Hmax. rewrite forallb_forall in Hin.
    apply Forall_forall. intros x Hx. apply IH.
    - rewrite Forall_forall in Hmax. now apply Hmax.
    - apply Hin. now apply list_elem_of_In. }
  destruct v; simpl in Hv; try discriminate.
  all: try (intros h; eexists _, []; rewrite app_nil_r;
            split; [|intros [|d] Hd; [simpl in Hd; lia | reflexivity]];
            exact I).
  - apply (simplify_elements _ l); auto. apply Hels; auto. simpl in Hk. lia.
  - apply (simplify_elements _ l); auto. apply Hels; auto. simpl in Hk. lia.
Qed.

Lemma clone_app h t b u rest l :
  clone h t b u rest -> clone (h ++ l) t b u rest.
Proof.
  intros Hc. destruct (clone_lt _ _ _ _ _ Hc) as (? & ? & ?).
  apply (clone_same h); auto; now apply lookup_app_l.
Qed.

Lemma listify_S n self :
  listify (S n) self =
  (generated <- get_generated self ;;
   raw_object <- get_raw_object self ;;
   rest <- simplify n (VIter raw_object) ;;
   match rest with
   | VList rest =>
       let temp := generated ++ rest in
       it <- py_iter (VList temp) ;;
       set_raw_object self it ;;;
       set_generated self [] ;;;
       ret temp
   | _ => raise TypeError
   end).
Proof. reflexivity. Qed.

Lemma get_generated_at h s r g i :
  h !! s = Some (OLazy r g i) -> get_generated s h = (Ret g, h).
Proof. intros H. unfold get_generated. now rewrite (bind_read _ _ _ _ H). Qed.

Lemma get_raw_object_at h s r g i :
  h !! s = Some (OLazy r g i) -> get_raw_object s h = (Ret r, h).
Proof. intros H. unfold get_raw_object. now rewrite (bind_read _ _ _ _ H). Qed.

Lemma set_generated_at h s r g i g' :
  h !! s = Some (OLazy r g i) ->
  set_generated s g' h = (Ret tt, <[s := OLazy r g' i]> h).
Proof. intros H. unfold set_generated. now rewrite (bind_read _ _ _ _ H). Qed.

Lemma set_raw_object_at h s r g i r' :
  h !! s = Some (OLazy r g i) ->
  set_raw_object s r' h = (Ret tt, <[s := OLazy r' g i]> h).
Proof. intros H. unfold set_raw_object. now rewrite (bind_read _ _ _ _ H). Qed.

(** *** The size guess of [list(self)]

    [len(self)] drains the sequence's own clone [c0] through [simplify];
    the sibling clones keep what they have left.  [C] is any fact that
    survives the steps of [c0], allocation, and writes to the sequence. *)
Lemma length_hint_clone h s c0 b u pre inf rest (C : heap -> Prop) :
  h !! s = Some (OLazy c0 pre inf) ->
  clone h c0 b u rest ->
  Forall quiet rest ->
  C h ->
  (forall h h', C h -> clone_step h h' c0 b u -> C h') ->
  (forall h l, C h -> C (h ++ l)) ->
  (forall h o, C h -> C (<[s := o]> h)) ->
  exists h' r' g',
    (forall d, (length rest + 6 + list_max (map simplify_fuel rest) <= d)%nat ->
       length_hint d (VLazy s) h = (Ret tt, h')) /\
    C h' /\ h' !! s = Some (OLazy r' g' inf) /\ (length h <= length h')%nat.
Proof.
  intros Hs Hc Hq HC Cstep Capp Cs.
  destruct (clone_kinds _ _ _ _ _ _ _ Hc Hs eq_refl) as (Hsc & Hsb & Hsu).
  destruct (clone_lt _ _ _ _ _ Hc) as (Lc & Lb & Lu).
  pose proof (lookup_lt_Some _ _ _ Hs) as Ls.
  set (m := length h). set (h1 := h ++ [OMap MSimplify c0]).
  assert (h1 !! s = Some (OLazy c0 pre inf)) as Hs1
    by (unfold h1; rewrite lookup_app_l; auto).
  destruct (drain_simplify c0 m 2 (fun l => l = m \/ l = s)
              (fun xs h => clone h c0 b u xs /\ C h)) with (xs := rest) (h := h1)
    as (out & h2 & Hset & Hl & Hp & xs' & Hc2 & HC2); auto.
  - apply clone_iterator; auto.
    intros l [-> | ->]; auto. unfold m. lia.
  - intros xs h0 l [? ?]. split; [now apply clone_app | now apply Capp].
  - split; [now apply clone_app | now apply Capp].
  - unfold h1. now apply list_lookup_middle.
  - pose proof (preserves_lookup _ _ _ _ _ Hp (or_intror eq_refl) Hs1) as Hs2.
    assert (length h <= length h2)%nat as L2.
    { destruct Hp as [L _]. unfold h1 in L. rewrite length_app in L. lia. }
    assert (forall d,
              (length rest + 6 + list_max (map simplify_fuel rest) <= S (S d))%nat ->
              simplify (S d) (VIter c0) h
              = (match out with Ret l => Ret (VList l) | _ => Raise TypeError end,
                 h2)) as Hsim.
    { intros d Hd. rewrite simplify_S. unfold py_map, py_iter.
      rewrite (bind_Ret _ _ h m h1) by reflexivity.
      destruct (settled_cases _ Hset) as [[l E] | E]; rewrite E in *.
      - now rewrite (bind_Ret _ _ _ _ _ (Hl d ltac:(lia))).
      - now rewrite (bind_Raise _ _ _ _ _ (Hl d ltac:(lia))). }
    destruct (settled_cases _ Hset) as [[l E] | E]; rewrite E in *.
    + set (it := length h2).
      set (h3 := h2 ++ [OGen (pre ++ l)]).
      assert (h3 !! s = Some (OLazy c0 pre inf)) as Hs3.
      { unfold h3. rewrite lookup_app_l; auto.
        exact (lookup_lt_Some _ _ _ Hs2). }
      set (h4 := <[s := OLazy it pre inf]> h3).
      assert (h4 !! s = Some (OLazy it pre inf)) as Hs4.
      { apply list_lookup_insert_eq. exact (lookup_lt_Some _ _ _ Hs3). }
      exists (<[s := OLazy it [] inf]> h4), it, [].
      split; [|split; [|split]].
      * intros d Hd. destruct d as [|[|d]]; try lia.
        assert (listify (S (S d)) s h
                = (Ret (pre ++ l), <[s := OLazy it [] inf]> h4)) as Hls.
        { rewrite listify_S.
          rewrite (bind_Ret _ _ _ _ _ (get_generated_at _ _ _ _ _ Hs)).
          rewrite (bind_Ret _ _ _ _ _ (get_raw_object_at _ _ _ _ _ Hs)).
          rewrite (bind_Ret _ _ _ _ _ (Hsim d Hd)).
          cbv zeta. unfold py_iter.
          rewrite (bind_Ret _ _ h2 it h3) by reflexivity.
          rewrite (bind_Ret _ _ _ _ _ (set_raw_object_at _ _ _ _ _ it Hs3)).
          rewrite (bind_Ret _ _ _ _ _ (set_generated_at _ _ _ _ _ [] Hs4)).
          reflexivity. }
        unfold length_hint, __len__.
        now rewrite (bind_Ret _ _ _ _ _ Hls).
      * apply Cs, Cs, Capp, HC2.
      * apply list_lookup_insert_eq. exact (lookup_lt_Some _ _ _ Hs4).
      * unfold h4, h3. rewrite !length_insert, length_app. lia.
    + exists h2, c0, pre. split; [|split; [|split]]; auto.
      intros d Hd. destruct d as [|[|d]]; try lia.
      assert (listify (S (S d)) s h = (Raise TypeError, h2)) as Hls.
      { rewrite listify_S.
        rewrite (bind_Ret _ _ _ _ _ (get_generated_at _ _ _ _ _ Hs)).
        rewrite (bind_Ret _ _ _ _ _ (get_raw_object_at _ _ _ _ _ Hs)).
        now rewrite (bind_Raise _ _ _ _ _ (Hsim d Hd)). }
      unfold length_hint, __len__.
      now rewrite (bind_Raise _ _ _ _ _ Hls).
Qed.

(** [l[i]] for a negative [i] within range. *)
Lemma py_index_negative (l : list value) (i : Z) v h :
  i < 0 -> 0 <= i + Z.of_nat (length l) ->
  l !! Z.to_nat (i + Z.of_nat (length l)) = Some v ->
  py_index l i h = (Ret v, h).
Proof.
  intros Hneg Hlo Hv. unfold py_index.
  replace (i <? 0) with true by (symmetry; apply Z.ltb_lt; lia).
  replace (0 <=? i + Z.of_nat (length l)) with true
    by (symmetry; apply Z.leb_le; lia).
  replace (i + Z.of_nat (length l) <? Z.of_nat (length l)) with true
    by (symmetry; apply Z.ltb_lt; lia).
  simpl. now rewrite Hv.
Qed.

(** C3 (the code differs). A negative index returns the element counted
    from the end, but it does not leave the sequence materialized:
    [self.generated += list(self)] appends everything [list(self)] yields,
    the values already cached included, and [list(self)] asks for
    [len(self)], whose [listify] gives the sequence a new producer over all
    its values.  After [s[0]; s[-1]] on a sequence over [1, 2, 3] the cache
    is [1, 1, 2, 3] with [1, 2, 3] pending again: [s[1]] is [1], not [2],
    and [len(s)] is [7], not [3].  With nothing cached before the call the
    cache is right, but [len(s)] is [6]. *)
Theorem getitem_negative_duplicates :
  fst (getitem_negative_example 30 []) = Ret (VInt 3, VInt 1, 7) /\
  fst (getitem_negative_fresh_example 30 []) = Ret (VInt 3, 6).
Proof. split; vm_compute; reflexivity. Qed.

(** ** Two iterations of one sequence *)

(** Two generators over two clones of one buffer: draining the first
    leaves the second with everything. *)
Lemma drain_two h jA cA jB cB b u pre rest :
  h !! jA = Some (OJoin (JStart (VList pre) (VIter cA))) ->
  h !! jB = Some (OJoin (JStart (VList pre) (VIter cB))) ->
  clone h cA b u rest -> clone h cB b u rest -> cA <> cB ->
  exists h1 h2,
    (forall n, py_list (length (pre ++ rest) + 6 + n) jA h
               = (Ret (pre ++ rest), h1)) /\
    (forall n, py_list (length (pre ++ rest) + 6 + n) jB h1
               = (Ret (pre ++ rest), h2)).
Proof.
  intros HjA HjB HcA HcB Hne.
  destruct (clone_kinds _ _ _ _ _ _ _ HcA HjA eq_refl) as (? & ? & ?).
  destruct (clone_kinds _ _ _ _ _ _ _ HcB HjA eq_refl) as (? & _ & _).
  destruct (clone_kinds _ _ _ _ _ _ _ HcA HjB eq_refl) as (? & ? & ?).
  destruct (clone_kinds _ _ _ _ _ _ _ HcB HjB eq_refl) as (? & _ & _).
  destruct (clone_lt _ _ _ _ _ HcA) as (? & ? & ?).
  destruct (clone_lt _ _ _ _ _ HcB) as (? & _ & _).
  pose proof (lookup_lt_Some _ _ _ HjA) as LA.
  pose proof (lookup_lt_Some _ _ _ HjB) as LB.
  assert (jA <> jB) as HAB by (intros ->; congruence).
  destruct (iteration_list jA cA b u pre rest (length h)
              (fun h => clone h cB b u rest /\
                        h !! jB = Some (OJoin (JStart (VList pre) (VIter cB))))
              (fun _ => False))
    with (h := h) as (h1 & Hl1 & _ & [HcB1 HjB1] & Hlen).
  - intros h0 h' [Hc Hj] (Hl & Hfr & Hsib). split.
    + apply Hsib; auto.
    + rewrite Hfr; auto.
  - intros h0 o [Hc Hj]. split.
    + apply clone_store; auto.
    + rewrite list_lookup_insert_ne; auto.
  - intros h0 l o [Hc Hj] Hl. split.
    + apply clone_store; auto; lia.
    + rewrite list_lookup_insert_ne; auto. lia.
  - intros h0 o [Hc Hj]. split.
    + now apply clone_alloc.
    + rewrite lookup_app_l; auto. exact (lookup_lt_Some _ _ _ Hj).
  - intros l [].
  - exact HjA.
  - repeat split; auto.
  - destruct (clone_lt _ _ _ _ _ HcB1) as (? & ? & ?).
    pose proof (lookup_lt_Some _ _ _ HjB1) as LB1.
    destruct (iteration_list jB cB b u pre rest (length h1) (fun _ => True)
                (fun _ => False))
      with (h := h1) as (h2 & Hl2 & _); auto; try contradiction.
    + repeat split; auto.
    + exists h1, h2. auto.
Qed.

(** C7. Two fresh iterations of one sequence are independent: each yields
    the cached prefix followed by what the producer had left, whether the
    other has been consumed to the end before or not. *)
Theorem reiteration_independent h s raw pre inf rest :
  h !! s = Some (OLazy raw pre inf) ->
  producer h raw rest ->
  exists it1 h1 it2 h2,
    __iter__ s h = (Ret it1, h1) /\
    __iter__ s h1 = (Ret it2, h2) /\
    it1 <> it2 /\
    (exists h3 h4,
       (forall n, (length (pre ++ rest) + 6 <= n)%nat ->
          py_list n it1 h2 = (Ret (pre ++ rest), h3)) /\
       (forall n, (length (pre ++ rest) + 6 <= n)%nat ->
          py_list n it2 h3 = (Ret (pre ++ rest), h4))) /\
    (exists h3 h4,
       (forall n, (length (pre ++ rest) + 6 <= n)%nat ->
          py_list n it2 h2 = (Ret (pre ++ rest), h3)) /\
       (forall n, (length (pre ++ rest) + 6 <= n)%nat ->
          py_list n it1 h3 = (Ret (pre ++ rest), h4))).
Proof.
  intros Hs Hp.
  destruct (iter_spec _ _ _ _ _ _ Hs Hp)
    as (j1 & c0 & c1 & b & u & h1 & Hiter1 & Hs1 & Hj1 & Hc0 & Hc1 & _ &
        Hne1 & _ & _ & _ & _ & _).
  destruct (iter_spec _ _ _ _ _ _ Hs1 (clone_producer _ _ _ _ _ Hc0))
    as (j2 & c0' & c2 & b' & u' & h2 & Hiter2 & Hs2 & Hj2 & Hc0' & Hc2 & _ &
        Hne2 & Lc2 & Lj2 & Hlen2 & Hfr2 & Hcase).
  assert (c0' = c0 /\ b' = b /\ u' = u) as (-> & -> & ->).
  { destruct Hcase as [[Hg _] | [-> Hc]].
    - destruct Hc0 as (? & ? & ? & Ht & _). congruence.
    - destruct (clone_inj _ _ _ _ _ _ _ _ Hc0 Hc) as (-> & -> & _). auto. }
  destruct (clone_kinds _ _ _ _ _ _ _ Hc1 Hs1 eq_refl) as (? & ? & ?).
  destruct (clone_lt _ _ _ _ _ Hc1) as (? & ? & ?).
  pose proof (lookup_lt_Some _ _ _ Hj1) as Lj1.
  assert (j1 <> s) as Hj1s by (intros ->; congruence).
  assert (h2 !! j1 = Some (OJoin (JStart (VList pre) (VIter c1)))) as Hj1'
    by (rewrite Hfr2; auto).
  assert (clone h2 c1 b u rest) as Hc1'
    by (apply (clone_same h1); auto; apply Hfr2; auto).
  assert (c1 <> c2) as Hc12 by lia.
  assert (j1 <> j2) as Hj12 by lia.
  destruct (drain_two h2 j1 c1 j2 c2 b u pre rest) as (h3 & h4 & Ha & Hb);
    auto.
  destruct (drain_two h2 j2 c2 j1 c1 b u pre rest) as (h3' & h4' & Ha' & Hb');
    auto.
  assert (forall n, (length (pre ++ rest) + 6 <= n)%nat ->
            n = (length (pre ++ rest) + 6 + (n - (length (pre ++ rest) + 6)))%nat)
    as E by (intros; lia).
  exists j1, h1, j2, h2. repeat split; auto.
  - exists h3, h4. split; intros n Hn; rewrite (E n Hn); auto.
  - exists h3', h4'. split; intros n Hn; rewrite (E n Hn); auto.
Qed.

(** One cached value, two to come, two iterations. *)
Lemma reiteration_independent_witness :
  exists it1 h1 it2 h2 h3 h4,
    __iter__ 1%nat [OGen [VInt 2; VInt 3]; OLazy 0 [VInt 1] false]
      = (Ret it1, h1) /\
    __iter__ 1%nat h1 = (Ret it2, h2) /\
    py_list 9 it1 h2 = (Ret [VInt 1; VInt 2; VInt 3], h3) /\
    py_list 9 it2 h3 = (Ret [VInt 1; VInt 2; VInt 3], h4).
Proof.
  destruct (reiteration_independent
              [OGen [VInt 2; VInt 3]; OLazy 0 [VInt 1] false]
              1 0 [VInt 1] false [VInt 2; VInt 3]
              eq_refl (or_introl eq_refl))
    as (it1 & h1 & it2 & h2 & H1 & H2 & _ & (h3 & h4 & Ha & Hb) & _).
  exists it1, h1, it2, h2, h3, h4.
  split; [exact H1|]. split; [exact H2|].
  split; [apply Ha | apply Hb]; simpl; lia.
Defined.

(** *** A [tee] clone over any specified iterator *)

Section tee_layer.

Variables (t b u : loc) (K : nat) (P : loc -> Prop).
Variable Inv : list value -> heap -> Prop.
Hypothesis Pt : P t.
Hypothesis Pb : P b.
Hypothesis Hne : t <> b.
Hypothesis Hit : iterator u K P Inv.
Hypothesis Hst_t : stable_at t Inv.
Hypothesis Hst_b : stable_at b Inv.

Local Abbreviation tee_inv := (tee_inv t b u Inv).
Local Abbreviation tee_protected := (tee_protected t b P).

Lemma tee_protected_P l : tee_protected l -> P l.
Proof. now intros []. Qed.

Lemma tee_iterator : iterator t (K + 1) tee_protected tee_inv.
Proof.
  intros xs h (p & data & ys & Ht & Hb & Hp & Hi & ->).
  pose proof (lookup_lt_Some _ _ _ Ht) as Lt.
  pose proof (lookup_lt_Some _ _ _ Hb) as Lb.
  destruct (data !! p) as [y|] eqn:Hy.
  - (* replay from the buffer *)
    rewrite (drop_S _ _ _ Hy). simpl.
    exists (<[t := OTee b (S p)]> h). split; [|split].
    + intros n. replace (K + 1 + n)%nat with (S (K + n)) by lia.
      now apply (next_tee_buffered _ _ _ _ u data).
    + exists (S p), data, ys.
      rewrite list_lookup_insert_eq by lia.
      rewrite list_lookup_insert_ne by auto.
      pose proof (lookup_lt_Some _ _ _ Hy).
      repeat split; auto.
    + apply preserves_store. now intros (_ & ? & _).
  - pose proof (lookup_ge_None_1 _ _ Hy) as Hge.
    assert (p = length data) as -> by lia.
    rewrite drop_all. simpl.
    pose proof (Hit ys h Hi) as Hstep.
    destruct ys as [|x ys]; simpl in Hstep;
      destruct Hstep as (h1 & Hn & Hi1 & Hp1).
    + (* the underlying iterator is exhausted *)
      exists h1. split; [|split].
      * intros n. replace (K + 1 + n)%nat with (S (K + n)) by lia.
        now apply (next_tee_stop _ _ _ _ u data _ _ _ Ht Hb Hy).
      * exists (length data), data, [].
        rewrite (preserves_lookup _ _ _ _ _ Hp1 Pt Ht).
        rewrite (preserves_lookup _ _ _ _ _ Hp1 Pb Hb).
        rewrite drop_all. repeat split; auto.
      * exact (preserves_weaken _ _ _ _ tee_protected_P Hp1).
    + (* pull one value and record it *)
      pose proof (preserves_lookup _ _ _ _ _ Hp1 Pt Ht) as Ht1.
      pose proof (preserves_lookup _ _ _ _ _ Hp1 Pb Hb) as Hb1.
      pose proof (lookup_lt_Some _ _ _ Ht1) as Lt1.
      pose proof (lookup_lt_Some _ _ _ Hb1) as Lb1.
      set (h2 := <[b := OBuf u (data ++ [x])]> h1).
      exists (<[t := OTee b (S (length data))]> h2). split; [|split].
      * intros n. replace (K + 1 + n)%nat with (S (K + n)) by lia.
        now apply (next_tee_pull _ _ _ _ _ _ _ _ h1 Ht Hb Hy).
      * exists (S (length data)), (data ++ [x]), ys.
        rewrite list_lookup_insert_eq
          by (unfold h2; rewrite length_insert; lia).
        rewrite list_lookup_insert_ne by auto.
        unfold h2. rewrite list_lookup_insert_eq by lia.
        repeat split; auto.
        -- rewrite length_app. simpl. lia.
        -- rewrite drop_ge; [reflexivity|]. rewrite length_app. simpl. lia.
      * eapply preserves_trans;
          [exact (preserves_weaken _ _ _ _ tee_protected_P Hp1)|].
        eapply preserves_trans;
          apply preserves_store; now intros (_ & ? & ?).
Qed.
End tee_layer.

Lemma steps_to_impl it K P (Inv Inv' : list value -> heap -> Prop) xs h :
  (forall ys h', Inv ys h' -> Inv' ys h') ->
  steps_to it K P Inv xs h -> steps_to it K P Inv' xs h.
Proof.
  intros Himp. destruct xs as [|x xs]; simpl;
    intros (h' & Hn & Hi & Hp); exists h'; auto.
Qed.

(** An invariant that also names its iterator. *)
Lemma iterator_guard it K P Inv :
  iterator it K P Inv ->
  forall rit, iterator rit K P (fun xs h => rit = it /\ Inv xs h).
Proof.
  intros Hit rit xs h [-> Hi].
  apply (steps_to_impl it K P Inv); [auto|]. now apply Hit.
Qed.

Lemma tee_inv_stable t b u Inv l :
  l <> t -> l <> b -> stable_at l Inv -> stable_at l (tee_inv t b u Inv).
Proof.
  intros Ht Hb Hst xs h o (p & data & ys & H1 & H2 & H3 & H4 & H5).
  exists p, data, ys. rewrite !list_lookup_insert_ne by auto.
  repeat split; auto.
Qed.

Lemma lookup_app_plus {A} (h l : list A) N k :
  N = length h -> (h ++ l) !! (N + k)%nat = l !! k.
Proof.
  intros ->. rewrite lookup_app_r by lia. f_equal. lia.
Qed.

Lemma insert_app_plus {A} (h l : list A) N k x :
  N = length h -> <[(N + k)%nat := x]> (h ++ l) = h ++ <[k := x]> l.
Proof. intros ->. apply insert_app_r. Qed.

(** ** Concatenation: [__add__] *)

(** [__add__] allocates the [join_with] generator over [self.raw_object]
    itself and the new [LazyList]; nothing that exists is touched. *)
Lemma add_spec h a raw pre inf rhs :
  h !! a = Some (OLazy raw pre inf) ->
  __add__ a rhs h =
    (Ret (length h + 1)%nat,
     h ++ [OJoin (JStart (VIter raw) rhs); OLazy (length h) [] false]).
Proof.
  intros Ha. unfold __add__, get_raw_object.
  rewrite (bind_Ret _ _ h raw h) by (now rewrite (bind_read _ _ _ _ Ha)).
  unfold join_with, __init__, py_iter, bind, alloc, ret.
  rewrite length_app. simpl length.
  now rewrite <- app_assoc.
Qed.

(** A fresh iteration of the concatenation: its generator is not a [tee]
    clone, so it gets a buffer and two clones. *)
Lemma iter_concatenation h N lhs rhs :
  N = length h ->
  __iter__ (N + 1)%nat (h ++ [OJoin (JStart lhs rhs); OLazy N [] false]) =
  (Ret (N + 5)%nat,
   h ++ [OJoin (JStart lhs rhs);
         OLazy (N + 3) [] false;
         OBuf N [];
         OTee (N + 2) 0;
         OTee (N + 2) 0;
         OJoin (JStart (VList []) (VIter (N + 4)))]).
Proof.
  intros HN.
  set (h1 := h ++ [OJoin (JStart lhs rhs); OLazy N [] false]).
  assert (h1 !! (N + 1)%nat = Some (OLazy N [] false)) as Hc
    by (unfold h1; rewrite lookup_app_plus by exact HN; reflexivity).
  assert (h1 !! N = Some (OJoin (JStart lhs rhs))) as Hj.
  { unfold h1. rewrite <- (Nat.add_0_r N) at 1.
    rewrite lookup_app_plus by exact HN. reflexivity. }
  assert (length h1 = (N + 2)%nat) as Hl1
    by (unfold h1; rewrite length_app, HN; reflexivity).
  unfold __iter__, get_raw_object.
  rewrite (bind_Ret _ _ h1 N h1) by (now rewrite (bind_read _ _ _ _ Hc)).
  set (h2 := h1 ++ [OBuf N []; OTee (N + 2) 0; OTee (N + 2) 0]).
  rewrite (bind_Ret _ _ h1 ((N + 3)%nat, (N + 4)%nat) h2).
  2:{ unfold tee. rewrite (bind_read _ _ _ _ Hj).
      unfold bind, alloc, ret. rewrite !length_app, Hl1. simpl length.
      unfold h2. rewrite <- !app_assoc. simpl.
      replace (N + 2 + 1)%nat with (N + 3)%nat by lia.
      replace (N + 3 + 1)%nat with (N + 4)%nat by lia. reflexivity. }
  assert (h2 !! (N + 1)%nat = Some (OLazy N [] false)) as Hc2
    by (unfold h2; rewrite lookup_app_l by lia; exact Hc).
  unfold set_raw_object, get_generated, join_with. simpl fst. simpl snd.
  set (h3 := <[(N + 1)%nat := OLazy (N + 3) [] false]> h2).
  rewrite (bind_Ret _ _ h2 tt h3) by (now rewrite (bind_read _ _ _ _ Hc2)).
  assert (h3 !! (N + 1)%nat = Some (OLazy (N + 3) [] false)) as Hc3.
  { unfold h3. apply list_lookup_insert_eq. unfold h2.
    rewrite length_app, Hl1. simpl. lia. }
  rewrite (bind_Ret _ _ h3 [] h3) by (now rewrite (bind_read _ _ _ _ Hc3)).
  unfold alloc. f_equal.
  - unfold h3, h2. rewrite length_insert, length_app, Hl1. simpl length.
    f_equal. lia.
  - unfold h3, h2, h1. rewrite <- !app_assoc. simpl.
    rewrite (insert_app_plus _ _ N) by exact HN. simpl.
    rewrite <- app_assoc. reflexivity.
Qed.

(** *** Consuming the concatenation

    The store after [c = a + rhs] and [iter(c)], with [N0] the size of the
    store before: the generator [J = N0] of [__add__] over [a]'s producer
    [raw] and [rhs], the new sequence at [N0 + 1], the buffer [B = N0 + 2]
    over [J], its clones at [N0 + 3] and [T1 = N0 + 4], and the generator
    [J2 = N0 + 5] that iterates the new sequence through [T1].  [Rpre] is
    what [rhs] needs before it is iterated, [InvR] the invariant of the
    iterator [iter(rhs)] returns. *)
Section concatenation.

Variables (N0 : nat) (a raw : loc) (pre : list value) (inf : bool).
Variables (F : list loc) (rhs : value) (rest ys : list value) (K : nat).
Variables (Rpre : heap -> Prop) (InvR : loc -> list value -> heap -> Prop).
Hypothesis HK : (2 <= K)%nat.
Hypothesis HF : forall l, l ∈ F -> (l < N0)%nat.
Hypothesis Ha : (a < N0)%nat.
Hypothesis HaF : a ∉ F.

Local Abbreviation a_side := (a_side N0 a raw pre inf Rpre).
Local Abbreviation a_facts := (a_facts N0 a raw pre inf F Rpre).
Local Abbreviation a_final := (a_final a raw pre inf).
Local Abbreviation InvLJ := (InvLJ N0 a raw pre inf F Rpre).
Local Abbreviation InvJ := (InvJ N0 a raw pre inf F rhs rest ys Rpre InvR).
Local Abbreviation InvT := (InvT N0 a raw pre inf F rhs rest ys Rpre InvR).
Local Abbreviation protected2 := (protected2 N0).
Local Abbreviation start2 := (start2 N0 a raw pre inf F rhs rest Rpre).
Local Abbreviation InvL2 := (InvL2 N0 a raw pre inf F rhs rest ys Rpre InvR).
Local Abbreviation InvR2 := (InvR2 N0 a raw pre inf F rhs rest ys Rpre InvR).
Local Abbreviation Inv2 := (Inv2 N0 a raw pre inf F rhs rest ys Rpre InvR).

Hypothesis Rpre_step : forall h h', Rpre h -> length h' = length h ->
  (forall l, l ∉ F -> h' !! l = h !! l) -> Rpre h'.
Hypothesis Rpre_store : forall h l o, Rpre h -> (N0 <= l)%nat ->
  Rpre (<[l := o]> h).
Hypothesis R_iter : forall h, a_facts [] h ->
  exists rit h1, py_iter rhs h = (Ret rit, h1) /\ InvR rit ys h1 /\
                 preserves (mid N0) h h1.
Hypothesis R_iterator : forall rit, iterator rit K (mid N0) (InvR rit).
Hypothesis R_stable : forall rit l, (mid N0) l -> stable_at l (InvR rit).
Hypothesis R_final : forall rit xs h, InvR rit xs h -> a_final h.

Lemma mid_not_F l : (mid N0) l -> l ∉ F.
Proof. intros [Hl _] Hin. specialize (HF l Hin). lia. Qed.

Lemma a_side_step h h' :
  a_side h -> length h' = length h ->
  (forall l, l ∉ F -> h' !! l = h !! l) -> a_side h'.
Proof.
  intros (H1 & H2 & H3) Hl Hfr. repeat split.
  - rewrite Hfr; auto.
  - lia.
  - now apply (Rpre_step h).
Qed.

Lemma a_facts_store xs h l o :
  a_facts xs h -> (N0 <= l)%nat -> a_facts xs (<[l := o]> h).
Proof.
  intros (Hp & Hfp & H1 & H2 & H3) Hl.
  assert (forall l', l' ∈ footprint h raw ->
            <[l := o]> h !! l' = h !! l') as Hsame.
  { intros l' Hin. apply list_lookup_insert_ne. intros <-.
    rewrite Hfp in Hin. specialize (HF _ Hin). lia. }
  destruct (producer_stable _ _ _ _ Hp Hsame) as [Hp' Hfp'].
  split; [exact Hp'|]. split; [congruence|]. repeat split.
  - rewrite list_lookup_insert_ne by lia. exact H1.
  - now rewrite length_insert.
  - now apply Rpre_store.
Qed.

Lemma J_iterator : iterator N0 (K + 3) (join_protected N0 (mid N0)) InvJ.
Proof.
  apply (join_iterator N0 (VIter raw) rhs K (mid N0)).
  - unfold mid. lia.
  - intros h Hh. exists raw, h. split; [reflexivity|].
    split; [now split | apply preserves_refl].
  - apply iterator_guard.
    apply (iterator_weaken raw 2 K (mid N0) (mid N0)); [auto | exact HK |].
    apply (producer_iterator raw F (mid N0) a_side).
    + exact mid_not_F.
    + exact a_side_step.
  - intros lit xs h o [-> Hf]. split; [reflexivity|].
    apply a_facts_store; auto.
  - intros lit h [_ Hf]. now apply R_iter.
  - exact R_iterator.
  - intros rit. apply R_stable. unfold mid. lia.
Qed.

Lemma InvJ_stable l : (mid N0) l -> l <> N0 -> stable_at l InvJ.
Proof.
  intros Hm Hl. pose proof Hm as [Hlo _].
  apply join_inv_stable; auto.
  - intros h o Hf. now apply a_facts_store.
  - intros lit xs h o [-> Hf]. split; [reflexivity|].
    now apply a_facts_store.
Qed.

Lemma T_iterator : iterator (N0 + 4) (K + 3 + 1) protected2 InvT.
Proof.
  apply tee_iterator.
  - split; [unfold mid|]; lia.
  - split; [unfold mid|]; lia.
  - lia.
  - exact J_iterator.
  - apply InvJ_stable; [unfold mid|]; lia.
  - apply InvJ_stable; [unfold mid|]; lia.
Qed.

Lemma InvT_stable l :
  (mid N0) l -> l <> N0 -> l <> (N0 + 4)%nat -> l <> (N0 + 2)%nat ->
  stable_at l InvT.
Proof.
  intros. apply tee_inv_stable; auto. now apply InvJ_stable.
Qed.

Lemma J2_iterator :
  iterator (N0 + 5) (K + 3 + 1 + 3) (join_protected (N0 + 5) protected2) Inv2.
Proof.
  apply (join_iterator (N0 + 5) (VList []) (VIter (N0 + 4)) (K + 3 + 1)
           protected2).
  - repeat split; unfold mid; lia.
  - (* iter([]) allocates the list iterator *)
    intros h (Ht & Hb & Hj & Hlen & Hf & Hal).
    exists (length h), (h ++ [OGen []]). split; [reflexivity|].
    split; [|apply preserves_alloc].
    split; [reflexivity|]. split; [lia|].
    split; [apply list_lookup_middle; reflexivity|].
    exists 0%nat, [], (rest ++ ys).
    rewrite !lookup_app_l by lia.
    split; [exact Ht|]. split; [exact Hb|]. split; [simpl; lia|].
    split; [|reflexivity].
    left. rewrite lookup_app_l by lia. split; [exact Hj|].
    split; [|reflexivity].
    destruct Hf as (Hp & Hfp & H1 & H2 & H3).
    assert (forall l', l' ∈ footprint h raw ->
              (h ++ [OGen []]) !! l' = h !! l') as Hsame.
    { intros l' Hin. apply lookup_app_l.
      rewrite Hfp in Hin. specialize (HF _ Hin). lia. }
    destruct (producer_stable _ _ _ _ Hp Hsame) as [Hp' Hfp'].
    split; [exact Hp'|]. split; [congruence|]. repeat split.
    + rewrite lookup_app_l by lia. exact H1.
    + rewrite length_app. lia.
    + apply Hal.
  - intros g xs h (-> & Hg & Hlook & Hi). simpl.
    exists h. split; [|split; [repeat split; auto | apply preserves_refl]].
    intros n. replace (K + 3 + 1 + n)%nat with (S (K + 3 + n)) by lia.
    now apply next_gen_nil.
  - intros g xs h o (-> & Hg & Hlook & Hi).
    split; [reflexivity|]. split; [exact Hg|].
    split; [rewrite list_lookup_insert_ne by auto; exact Hlook|].
    apply InvT_stable; auto; unfold mid; lia.
  - intros g h (_ & _ & _ & Hi).
    exists (N0 + 4)%nat, h. split; [reflexivity|].
    split; [now split | apply preserves_refl].
  - apply iterator_guard. exact T_iterator.
  - intros rit xs h o [-> Hi]. split; [reflexivity|].
    apply InvT_stable; auto; unfold mid; lia.
Qed.

Lemma InvJ_final h : InvJ [] h -> a_final h.
Proof.
  intros [(_ & Hf & E) | [(lit & l1 & _ & [_ Hf] & E) |
          [(rit & _ & Hi) | (_ & _ & rit & Hi)]]].
  - symmetry in E. apply app_eq_nil in E as [E _].
    destruct Hf as (Hp & _ & H1 & _). rewrite E in Hp. now split.
  - symmetry in E. apply app_eq_nil in E as [-> _].
    destruct Hf as (Hp & _ & H1 & _). now split.
  - exact (R_final _ _ _ Hi).
  - exact (R_final _ _ _ Hi).
Qed.

Lemma InvT_final h : InvT [] h -> a_final h.
Proof.
  intros (p & data & zs & _ & _ & _ & Hi & E).
  symmetry in E. apply app_eq_nil in E as [_ ->]. now apply InvJ_final.
Qed.

(** [list] of the iteration yields what [a]'s producer had left, then
    [rhs]; afterwards [a] is as it was and its producer is drained. *)
Lemma concatenation_list h :
  h !! (N0 + 5)%nat = Some (OJoin (JStart (VList []) (VIter (N0 + 4)))) ->
  start2 h ->
  exists h',
    (forall n, py_list (length (rest ++ ys) + (K + 8) + n) (N0 + 5) h
               = (Ret (rest ++ ys), h')) /\
    a_final h'.
Proof.
  intros Hj Hstart.
  destruct (py_list_iterator _ _ _ _ J2_iterator ([] ++ (rest ++ ys)) h)
    as (h' & Hl & Hi & _).
  { left. auto. }
  exists h'. split.
  { intros n. simpl app in Hl.
    replace (length (rest ++ ys) + (K + 8) + n)%nat
      with (length (rest ++ ys) + (K + 3 + 1 + 3) + 1 + n)%nat by lia.
    apply Hl. }
  destruct Hi as [(_ & Hs & E) | [(g & l1 & _ & Hil & E) |
                  [(rit & _ & _ & Hi) | (_ & _ & rit & _ & Hi)]]].
  - simpl in E. symmetry in E. apply app_eq_nil in E as [E _].
    destruct Hs as (_ & _ & _ & _ & (Hp & _ & H1 & _) & _).
    rewrite E in Hp. now split.
  - destruct Hil as (-> & _ & _ & Hi). simpl in E. rewrite <- E in Hi.
    now apply InvT_final.
  - now apply InvT_final.
  - now apply InvT_final.
Qed.
End concatenation.

Lemma footprint_lt h r rest l :
  producer h r rest -> l ∈ footprint h r -> (l < length h)%nat.
Proof.
  intros Hp Hin. destruct (footprint_plain _ _ _ _ Hp Hin) as (o & Ho & _).
  exact (lookup_lt_Some _ _ _ Ho).
Qed.

Lemma producer_app h r rest l :
  producer h r rest ->
  producer (h ++ l) r rest /\ footprint (h ++ l) r = footprint h r.
Proof.
  intros Hp. apply producer_stable; [exact Hp|].
  intros l' Hin. apply lookup_app_l. exact (footprint_lt _ _ _ _ Hp Hin).
Qed.

Lemma producer_store h r rest l o :
  producer h r rest -> l ∉ footprint h r ->
  producer (<[l := o]> h) r rest /\ footprint (<[l := o]> h) r = footprint h r.
Proof.
  intros Hp Hl. apply producer_stable; [exact Hp|].
  intros l' Hin. apply list_lookup_insert_ne. now intros <-.
Qed.

Lemma py_iter_container v ys h :
  container v = Some ys ->
  py_iter v h = (Ret (length h), h ++ [OGen ys]).
Proof.
  destruct v; simpl; intros E; try discriminate; now injection E as <-.
Qed.

Lemma after_add_lookup h raw rhs k o :
  [OJoin (JStart (VIter raw) rhs);
   OLazy (length h + 3) [] false;
   OBuf (length h) [];
   OTee (length h + 2) 0;
   OTee (length h + 2) 0;
   OJoin (JStart (VList []) (VIter (length h + 4)))] !! k = Some o ->
  after_add h raw rhs !! (length h + k)%nat = Some o.
Proof. intros Hk. unfold after_add. now rewrite lookup_app_plus. Qed.

(** Consuming [a + rhs] for a container [rhs]. *)
Lemma consume_container h a raw pre inf rest rhs ys :
  h !! a = Some (OLazy raw pre inf) ->
  producer h raw rest ->
  container rhs = Some ys ->
  exists h',
    (forall n, py_list (length (rest ++ ys) + 10 + n) (length h + 5)
                 (after_add h raw rhs) = (Ret (rest ++ ys), h')) /\
    h' !! a = Some (OLazy raw pre inf) /\ producer h' raw [].
Proof.
  intros Ha Hp Hc.
  set (N0 := length h). set (F := footprint h raw).
  pose proof (lookup_lt_Some _ _ _ Ha) as La.
  pose proof (lazy_not_in_footprint _ _ _ _ _ _ _ Hp Ha) as HaF.
  assert (forall l, l ∈ F -> (l < N0)%nat) as HF
    by (intros l; apply (footprint_lt _ _ _ _ Hp)).
  set (fin := fun h0 : heap =>
                producer h0 raw [] /\ footprint h0 raw = F /\
                h0 !! a = Some (OLazy raw pre inf)).
  set (InvR := fun (rit : loc) (xs : list value) (h0 : heap) =>
                 h0 !! rit = Some (OGen xs) /\
                 ((N0 + 6 <= rit)%nat /\ fin h0)).
  assert (forall rit h0 l o, (N0 + 6 <= rit)%nat -> fin h0 ->
            (N0 <= l)%nat -> fin (<[l := o]> h0)) as Hfin_store.
  { intros rit h0 l o _ (Hp0 & Hf0 & Ha0) Hl.
    assert (l ∉ footprint h0 raw) as Hnotin
      by (rewrite Hf0; intros Hin; specialize (HF _ Hin); lia).
    destruct (producer_store _ _ _ l o Hp0 Hnotin) as [Hp' Hf'].
    repeat split; [exact Hp' | congruence |].
    rewrite list_lookup_insert_ne by (unfold N0 in *; lia). exact Ha0. }
  assert (forall h0, a_facts N0 a raw pre inf F (fun _ => True) [] h0 ->
            exists rit h1, py_iter rhs h0 = (Ret rit, h1) /\ InvR rit ys h1 /\
                           preserves (mid N0) h0 h1) as R_iter.
  { intros h0 (Hp0 & Hf0 & Ha0 & Hlen0 & _).
    exists (length h0), (h0 ++ [OGen ys]).
    split; [now apply py_iter_container|].
    split; [|apply preserves_alloc].
    split; [apply list_lookup_middle; reflexivity|].
    split; [lia|].
    destruct (producer_app _ _ _ [OGen ys] Hp0) as [Hp' Hf'].
    repeat split; [exact Hp' | congruence |].
    rewrite lookup_app_l by (unfold N0 in *; lia). exact Ha0. }
  assert (forall rit, iterator rit 2 (mid N0) (InvR rit)) as R_iterator.
  { intros rit.
    apply (iterator_weaken rit 1 2 (mid N0) (mid N0)); [auto | lia |].
    apply gen_iterator.
    - intros h0 [Hr _] [_ Hm]. lia.
    - intros h0 o [Hr Hf]. split; [exact Hr|].
      apply (Hfin_store rit); auto. lia. }
  assert (forall rit l, mid N0 l -> stable_at l (InvR rit)) as R_stable.
  { intros rit l [Hlo Hhi] xs h0 o (Hg & Hr & Hf). split; [|split]; auto.
    - rewrite list_lookup_insert_ne by lia. exact Hg.
    - apply (Hfin_store rit); auto. }
  assert (forall rit xs h0, InvR rit xs h0 -> a_final a raw pre inf h0)
    as R_final.
  { intros rit xs h0 (_ & _ & Hp0 & _ & Ha0). now split. }
  assert (start2 N0 a raw pre inf F rhs rest (fun _ => True)
            (after_add h raw rhs)) as Hstart.
  { repeat split.
    - now apply (after_add_lookup h raw rhs 4).
    - now apply (after_add_lookup h raw rhs 2).
    - rewrite <- (Nat.add_0_r N0) at 1.
      now apply (after_add_lookup h raw rhs 0).
    - unfold after_add. rewrite length_app. reflexivity.
    - exact (proj1 (producer_app _ _ _ _ Hp)).
    - exact (proj2 (producer_app _ _ _ _ Hp)).
    - unfold after_add. rewrite lookup_app_l by exact La. exact Ha.
    - unfold after_add. rewrite length_app. simpl. unfold N0. lia. }
  destruct (concatenation_list N0 a raw pre inf F rhs rest ys 2
              (fun _ => True) InvR (le_n 2) HF La HaF
              (fun _ _ _ _ _ => I) (fun _ _ _ _ _ => I)
              R_iter R_iterator R_stable R_final
              (after_add h raw rhs)
              (after_add_lookup h raw rhs 5 _ eq_refl) Hstart)
    as (h' & Hl & Hfa & Hfp).
  exists h'. split; [exact Hl | now split].
Qed.

(** Consuming [a + rhs] for another sequence [rhs = b] whose producer
    shares nothing with [a]'s. *)
Lemma consume_lazy h a raw pre inf rest b rb preb infb restb :
  h !! a = Some (OLazy raw pre inf) ->
  producer h raw rest ->
  b <> a ->
  h !! b = Some (OLazy rb preb infb) ->
  producer h rb restb ->
  (forall l, l ∈ footprint h rb -> l ∉ footprint h raw) ->
  exists h',
    (forall n, py_list (length (rest ++ preb ++ restb) + 13 + n)
                 (length h + 5) (after_add h raw (VLazy b))
               = (Ret (rest ++ preb ++ restb), h')) /\
    h' !! a = Some (OLazy raw pre inf) /\ producer h' raw [].
Proof.
  intros Ha Hp Hba Hb Hpb Hdisj.
  set (N0 := length h). set (F := footprint h raw).
  set (Fb := footprint h rb).
  pose proof (lookup_lt_Some _ _ _ Ha) as La.
  pose proof (lookup_lt_Some _ _ _ Hb) as Lb.
  pose proof (lazy_not_in_footprint _ _ _ _ _ _ _ Hp Ha) as HaF.
  pose proof (lazy_not_in_footprint _ _ _ _ _ _ _ Hp Hb) as HbF.
  pose proof (lazy_not_in_footprint _ _ _ _ _ _ _ Hpb Ha) as HaFb.
  pose proof (lazy_not_in_footprint _ _ _ _ _ _ _ Hpb Hb) as HbFb.
  assert (forall l, l ∈ F -> (l < N0)%nat) as HF
    by (intros l; apply (footprint_lt _ _ _ _ Hp)).
  assert (forall l, l ∈ Fb -> (l < N0)%nat) as HFb
    by (intros l; apply (footprint_lt _ _ _ _ Hpb)).
  set (Rpre := fun h0 : heap =>
                 h0 !! b = Some (OLazy rb preb infb) /\
                 producer h0 rb restb /\ footprint h0 rb = Fb).
  set (fin := fun h0 : heap =>
                producer h0 raw [] /\ footprint h0 raw = F /\
                h0 !! a = Some (OLazy raw pre inf)).
  set (side := fun (rit c1b bb ub Nb : loc) =>
                 (N0 + 6 <= Nb)%nat /\ (N0 + 6 <= rit)%nat /\
                 forall l, l = c1b \/ l = bb \/ l = ub ->
                           (l ∉ F) /\ l <> a /\ ~ mid N0 l).
  set (InvR := fun (rit : loc) (xs : list value) (h0 : heap) =>
                 exists c1b bb ub Nb,
                   side rit c1b bb ub Nb /\
                   iter_inv rit c1b bb ub preb restb Nb fin xs h0).
  assert (forall h0 h', fin h0 ->
            (forall l, l ∈ F \/ l = a -> h' !! l = h0 !! l) -> fin h')
    as fin_frame.
  { intros h0 h' (Hp0 & Hf0 & Ha0) Hsame.
    destruct (producer_stable h0 h' raw [] Hp0) as [Hp' Hf'].
    { intros l Hin. apply Hsame. left. now rewrite <- Hf0. }
    repeat split; [exact Hp' | congruence |].
    rewrite Hsame; auto. }
  assert (forall h0 l o, fin h0 -> l ∉ F -> l <> a -> fin (<[l := o]> h0))
    as fin_store.
  { intros h0 l o Hf HlF Hla. apply (fin_frame h0); auto.
    intros l' Hl'. apply list_lookup_insert_ne.
    intros <-. destruct Hl' as [? | ?]; auto. }
  assert (forall h0 h', Rpre h0 ->
            (forall l, l ∈ Fb \/ l = b -> h' !! l = h0 !! l) -> Rpre h')
    as Rpre_frame.
  { intros h0 h' (Hb0 & Hp0 & Hf0) Hsame.
    destruct (producer_stable h0 h' rb restb Hp0) as [Hp' Hf'].
    { intros l Hin. apply Hsame. left. now rewrite <- Hf0. }
    repeat split; [|exact Hp' | congruence].
    rewrite Hsame; auto. }
  assert (forall h0 h', Rpre h0 -> length h' = length h0 ->
            (forall l, l ∉ F -> h' !! l = h0 !! l) -> Rpre h') as Rpre_step.
  { intros h0 h' HR _ Hfr. apply (Rpre_frame h0); auto.
    intros l [Hl | ->]; apply Hfr; auto. }
  assert (forall h0 l o, Rpre h0 -> (N0 <= l)%nat -> Rpre (<[l := o]> h0))
    as Rpre_store.
  { intros h0 l o HR Hl. apply (Rpre_frame h0); auto.
    intros l' Hl'. apply list_lookup_insert_ne. intros <-.
    destruct Hl' as [Hl' | ->]; [specialize (HFb _ Hl')|]; unfold N0 in *; lia. }
  assert (forall l, mid N0 l -> (l ∉ F) /\ l <> a) as mid_out.
  { intros l [Hlo _]. split; [intros Hin; specialize (HF _ Hin)|];
      unfold N0 in *; lia. }
  assert (forall h0, a_facts N0 a raw pre inf F Rpre [] h0 ->
            exists rit h1, py_iter (VLazy b) h0 = (Ret rit, h1) /\
                           InvR rit (preb ++ restb) h1 /\
                           preserves (mid N0) h0 h1) as R_iter.
  { intros h0 (Hp0 & Hf0 & Ha0 & Hlen0 & (Hb0 & Hpb0 & Hfb0)).
    destruct (iter_spec _ _ _ _ _ _ Hb0 Hpb0)
      as (jb & c0b & c1b & bb & ub & h1 & Hiter & Hb1 & Hjb & _ & Hc1b &
          Hlocs & _ & Lc1 & Ljb & Hlen1 & Hfr1 & _).
    assert (fin h1) as Hfin1.
    { apply (fin_frame h0); [repeat split; auto|].
      intros l Hl. apply Hfr1.
      - intros ->. destruct Hl as [? | ?]; auto.
      - destruct Hl as [Hl | ->]; [specialize (HF _ Hl)|]; unfold N0 in *; lia. }
    destruct (clone_kinds _ _ _ _ _ _ _ Hc1b Hjb eq_refl) as (? & ? & ?).
    destruct (clone_lt _ _ _ _ _ Hc1b) as (? & ? & ?).
    pose proof (lookup_lt_Some _ _ _ Hjb) as Ljb1.
    exists jb, h1. split; [exact Hiter|]. split.
    - exists c1b, bb, ub, (length h1). split.
      + split; [lia|]. split; [lia|].
        intros l Hl. destruct (Hlocs l Hl) as [Hin | Hge].
        * rewrite Hfb0 in Hin. pose proof (HFb _ Hin).
          split; [apply Hdisj; exact Hin|].
          split; [intros ->; contradiction | intros [? _]; lia].
        * split; [intros Hin; specialize (HF _ Hin); lia|].
          split; [unfold N0 in *; lia | intros [_ ?]; lia].
      + left. split; [exact Hjb|]. split; [|reflexivity].
        split; [lia|]. split; [exact Hc1b|].
        do 7 (split; [auto|]). exact Hfin1.
    - split; [exact Hlen1|]. intros l [Hlo _] Hlt. apply Hfr1; auto.
      unfold N0 in *. lia. }
  assert (forall rit, iterator rit 5 (mid N0) (InvR rit)) as R_iterator.
  { intros rit xs h0 (c1b & bb & ub & Nb & Hside & Hi).
    pose proof Hside as (HNb & Hrit & Hl3).
    assert (forall l, mid N0 l ->
              l <> rit /\ l <> c1b /\ l <> bb /\ l <> ub /\ (l < Nb)%nat) as HP.
    { intros l Hm. pose proof Hm as [? ?].
      repeat split; try lia; intros ->;
        [destruct (Hl3 c1b) as (_ & _ & ?) | destruct (Hl3 bb) as (_ & _ & ?)
         | destruct (Hl3 ub) as (_ & _ & ?)]; auto. }
    assert (iterator rit 5 (join_protected rit (iter_inner rit (mid N0)))
              (iter_inv rit c1b bb ub preb restb Nb fin)) as Hit.
    { apply iteration_iterator; auto.
      - intros h1 h' Hf (_ & Hfr & _). apply (fin_frame h1); auto.
        intros l Hl. apply Hfr; intros ->;
          [destruct (Hl3 c1b) as (? & ? & _) | destruct (Hl3 bb) as (? & ? & _)
           | destruct (Hl3 ub) as (? & ? & _)]; auto;
          destruct Hl; auto.
      - intros h1 o Hf. apply fin_store; auto.
        + intros Hin. specialize (HF _ Hin). lia.
        + unfold N0 in *. lia.
      - intros h1 l o Hf Hl. apply fin_store; auto.
        + intros Hin. specialize (HF _ Hin). lia.
        + unfold N0 in *. lia.
      - intros h1 o Hf. apply (fin_frame h1); auto.
        intros l Hl. apply lookup_app_l.
        destruct Hf as (Hp1 & Hf1 & Ha1).
        destruct Hl as [Hl | ->]; [|exact (lookup_lt_Some _ _ _ Ha1)].
        rewrite <- Hf1 in Hl. exact (footprint_lt _ _ _ _ Hp1 Hl). }
    apply (steps_to_impl rit 5 (mid N0)
             (iter_inv rit c1b bb ub preb restb Nb fin)).
    { intros zs h1 Hz. exists c1b, bb, ub, Nb. auto. }
    apply (steps_to_weaken rit 5 5
             (join_protected rit (iter_inner rit (mid N0))) (mid N0));
      [|lia|now apply Hit].
    intros l Hm. apply (iter_protected rit c1b bb ub Nb); auto. }
  assert (forall rit l, mid N0 l -> stable_at l (InvR rit)) as R_stable.
  { intros rit l Hm xs h0 o (c1b & bb & ub & Nb & Hside & Hi).
    pose proof Hside as (HNb & Hrit & Hl3). pose proof Hm as [? ?].
    exists c1b, bb, ub, Nb. split; [exact Hside|].
    apply iter_inv_stable; auto; try lia.
    - intros ->. destruct (Hl3 c1b) as (_ & _ & ?); auto.
    - intros ->. destruct (Hl3 bb) as (_ & _ & ?); auto.
    - intros ->. destruct (Hl3 ub) as (_ & _ & ?); auto.
    - intros h1 o1 Hf. destruct (mid_out l Hm). now apply fin_store. }
  assert (forall rit xs h0, InvR rit xs h0 -> a_final a raw pre inf h0)
    as R_final.
  { intros rit xs h0 (c1b & bb & ub & Nb & _ & Hi).
    destruct (iter_inv_facts _ _ _ _ _ _ _ _ _ _ Hi)
      as (zs & _ & (_ & _ & _ & _ & _ & _ & _ & Hp0 & _ & Ha0) & _).
    now split. }
  assert (Rpre (after_add h raw (VLazy b)) /\
          forall o, Rpre (after_add h raw (VLazy b) ++ [o])) as [HR1 HR2].
  { assert (Rpre h) as HR0 by (repeat split; auto).
    split; [|intros o]; apply (Rpre_frame h); auto; intros l Hl;
      unfold after_add; rewrite <- ?app_assoc; apply lookup_app_l;
      (destruct Hl as [Hl | ->]; [exact (HFb _ Hl) | exact Lb]). }
  assert (start2 N0 a raw pre inf F (VLazy b) rest Rpre
            (after_add h raw (VLazy b))) as Hstart.
  { split; [now apply (after_add_lookup h raw (VLazy b) 4)|].
    split; [now apply (after_add_lookup h raw (VLazy b) 2)|].
    split; [rewrite <- (Nat.add_0_r N0) at 1;
            now apply (after_add_lookup h raw (VLazy b) 0)|].
    split; [unfold after_add; rewrite length_app; reflexivity|].
    split; [|exact HR2].
    split; [exact (proj1 (producer_app _ _ _ _ Hp))|].
    split; [exact (proj2 (producer_app _ _ _ _ Hp))|].
    split; [unfold after_add; rewrite lookup_app_l by exact La; exact Ha|].
    split; [|exact HR1].
    unfold after_add. rewrite length_app. simpl. unfold N0. lia. }
  destruct (concatenation_list N0 a raw pre inf F (VLazy b) rest
              (preb ++ restb) 5 Rpre InvR ltac:(lia) HF La HaF
              Rpre_step Rpre_store
              R_iter R_iterator R_stable R_final
              (after_add h raw (VLazy b))
              (after_add_lookup h raw (VLazy b) 5 _ eq_refl) Hstart)
    as (h' & Hl & Hfa & Hfp).
  exists h'. split; [exact Hl | now split].
Qed.

(** C10. [a + rhs] hands [a]'s own producer to the new generator: no
    [tee], no fresh iteration of [a], nothing of [a] is written.  So
    consuming the concatenation to the end drains [a]'s producer while
    [a]'s cache stays as it was, and a later fresh iteration of [a] yields
    the cached prefix only. *)
Theorem add_drains_producer h a raw pre inf rest rhs ys :
  h !! a = Some (OLazy raw pre inf) ->
  producer h raw rest ->
  finite_rhs h a raw rhs ys ->
  exists c h1,
    __add__ a rhs h = (Ret c, h1) /\
    h1 = h ++ [OJoin (JStart (VIter raw) rhs); OLazy (length h) [] false] /\
    c = (length h + 1)%nat /\
    exists it h2 h3,
      __iter__ c h1 = (Ret it, h2) /\
      (forall n, (length (rest ++ ys) + 13 <= n)%nat ->
         py_list n it h2 = (Ret (rest ++ ys), h3)) /\
      h3 !! a = Some (OLazy raw pre inf) /\
      producer h3 raw [] /\
      exists it' h4 h5,
        __iter__ a h3 = (Ret it', h4) /\
        (forall n, (length pre + 6 <= n)%nat ->
           py_list n it' h4 = (Ret pre, h5)).
Proof.
  intros Ha Hp Hrhs.
  exists (length h + 1)%nat,
         (h ++ [OJoin (JStart (VIter raw) rhs); OLazy (length h) [] false]).
  split; [now apply (add_spec h a raw pre inf)|].
  split; [reflexivity|]. split; [reflexivity|].
  assert (exists h3,
            (forall n, (length (rest ++ ys) + 13 <= n)%nat ->
               py_list n (length h + 5) (after_add h raw rhs)
               = (Ret (rest ++ ys), h3)) /\
            h3 !! a = Some (OLazy raw pre inf) /\ producer h3 raw [])
    as (h3 & Hlist & Ha3 & Hp3).
  { destruct Hrhs as [v ys Hc | b rb preb infb restb Hba Hb Hpb Hdisj].
    - destruct (consume_container h a raw pre inf rest v ys Ha Hp Hc)
        as (h3 & Hl & H3).
      exists h3. split; [|exact H3]. intros n Hn.
      replace n with (length (rest ++ ys) + 10
                      + (n - (length (rest ++ ys) + 10)))%nat by lia.
      apply Hl.
    - destruct (consume_lazy h a raw pre inf rest b rb preb infb restb
                  Ha Hp Hba Hb Hpb Hdisj) as (h3 & Hl & H3).
      exists h3. split; [|exact H3]. intros n Hn.
      replace n with (length (rest ++ preb ++ restb) + 13
                      + (n - (length (rest ++ preb ++ restb) + 13)))%nat
        by lia.
      apply Hl. }
  exists (length h + 5)%nat, (after_add h raw rhs), h3.
  split; [now apply iter_concatenation|].
  split; [exact Hlist|]. split; [exact Ha3|]. split; [exact Hp3|].
  (* the later iteration of [a] *)
  destruct (iter_spec _ _ _ _ _ _ Ha3 Hp3)
    as (j & c0 & c1 & b & u & h4 & Hiter & Hs4 & Hj4 & Hc0 & Hc1 & _ & Hne &
        _ & _ & _ & _ & _).
  destruct (clone_kinds _ _ _ _ _ _ _ Hc1 Hj4 eq_refl) as (? & ? & ?).
  destruct (clone_lt _ _ _ _ _ Hc1) as (? & ? & ?).
  pose proof (lookup_lt_Some _ _ _ Hj4) as Lj.
  destruct (iteration_list j c1 b u pre [] (length h4) (fun _ => True)
              (fun _ => False)) with (h := h4) as (h5 & Hl5 & _); auto.
  - intros l [].
  - repeat split; auto.
  - exists j, h4, h5. split; [exact Hiter|]. intros n Hn.
    rewrite app_nil_r in Hl5.
    replace n with (length pre + 6 + (n - (length pre + 6)))%nat by lia.
    apply Hl5.
Qed.

(** [a] has [1] cached and [2, 3] to come, [b] will yield [4]: iterating
    [a + b] yields [2, 3, 4], and [a] then yields [1] only. *)
Lemma add_drains_producer_witness :
  exists c h1 it h2 h3 it' h4 h5,
    __add__ 1%nat (VLazy 3%nat)
      [OGen [VInt 2; VInt 3]; OLazy 0 [VInt 1] false;
       OGen [VInt 4]; OLazy 2 [] false] = (Ret c, h1) /\
    __iter__ c h1 = (Ret it, h2) /\
    py_list 20 it h2 = (Ret [VInt 2; VInt 3; VInt 4], h3) /\
    __iter__ 1%nat h3 = (Ret it', h4) /\
    py_list 20 it' h4 = (Ret [VInt 1], h5).
Proof.
  destruct (add_drains_producer
              [OGen [VInt 2; VInt 3]; OLazy 0 [VInt 1] false;
               OGen [VInt 4]; OLazy 2 [] false]
              1 0 [VInt 1] false [VInt 2; VInt 3] (VLazy 3) ([] ++ [VInt 4])
              eq_refl (or_introl eq_refl))
    as (c & h1 & Hadd & _ & _ & it & h2 & h3 & Hit & Hl & _ & _ &
        it' & h4 & h5 & Hit' & Hl').
  - apply (rhs_lazy _ _ _ 3%nat 2%nat [] false [VInt 4]).
    + discriminate.
    + reflexivity.
    + left. reflexivity.
    + intros l Hl Hl'. unfold footprint in *. simpl in *.
      apply list_elem_of_singleton in Hl, Hl'. congruence.
  - exists c, h1, it, h2, h3, it', h4, h5.
    split; [exact Hadd|]. split; [exact Hit|].
    split; [apply Hl; simpl; lia|]. split; [exact Hit'|].
    apply Hl'. simpl. lia.
Defined.

(** ** The specification's examples, run on the embedding *)

(** C1 (the code differs). [infinite_index] calls [listify], which empties
    [self.generated], and then slices [self.generated]: for a sequence over
    [1, 2, 3, 4, 5] the slice [1::2] yields nothing, not [2, 4]. *)
Theorem slice_unbounded_yields_nothing :
  fst (slice_unbounded_example 30 []) = Ret [].
Proof. vm_compute. reflexivity. Qed.

(** The bounded slice of the same sequence is as specified. *)
Lemma slice_bounded_ok :
  fst (slice_bounded_example 30 []) = Ret (ints [2; 3; 4]).
Proof. vm_compute. reflexivity. Qed.

(** C2 (the code differs). [__add__] joins [self.raw_object], not [self]:
    what [a] has cached is missing from [a + b]. *)
Theorem add_skips_cached_prefix :
  fst (add_after_get_example 30 []) = Ret (map VInt [2; 3; 4]).
Proof. vm_compute. reflexivity. Qed.

(** With nothing cached the concatenation is complete. *)
Lemma add_fresh_ok :
  fst (add_fresh_example 30 []) = Ret (map VInt [1; 2; 3; 4]).
Proof. vm_compute. reflexivity. Qed.

(** C6 (the code differs). The infinite branch of [__contains__] calls
    [next(self)] unguarded: when the producer runs out the caller gets
    [StopIteration]. *)
Theorem contains_infinite_surfaces_exhaustion :
  fst (contains_infinite_example 30 []) = Raise StopIteration /\
  fst (contains_finite_example 30 []) = Ret (VInt 0).
Proof. split; vm_compute; reflexivity. Qed.

(** C9 (the code differs). [listify] flattens what is still to be produced
    but not what is cached.  The flattened forms of a sequence over
    [(1, 2)] and of the list [[(1, 2)]] are both [[[1, 2]]]; the two are
    equal while nothing is cached, and unequal once the tuple is in the
    cache, where it is compared with the list [[1, 2]] as it is. *)
Theorem eq_depends_on_cache :
  fst (eq_flattened_example 30 [])
    = Ret ([ints [1; 2]], VList [ints [1; 2]]) /\
  fst (eq_fresh_example 30 []) = Ret true /\
  fst (eq_cached_example 30 []) = Ret false.
Proof. repeat split; vm_compute; reflexivity. Qed.

(** The same with a cached [Rational(1, 3)], which keeps its exact value
    while the other side is rounded to a float. *)
Lemma eq_cached_rational :
  fst (eq_cached_rational_example 30 []) = Ret false.
Proof. vm_compute. reflexivity. Qed.




(** C8, as stated, fails: a native list is returned as it is, a fifth
    kind, with its elements untouched. *)
Lemma vyxalify_keeps_native_list :
  ~ (forall v h r h', vyxalify v h = (Ret r, h') -> canonical r = true).
Proof.
  intros H.
  specialize (H (VList [VSymInt 3]) [] (VList [VSymInt 3]) [] eq_refl).
  discriminate.
Qed.

Lemma next_map_vyxalify n m it h0 x h1 :
  h0 !! m = Some (OMap MVyxalify it) ->
  py_next n it h0 = (Ret x, h1) ->
  py_next (S n) m h0 = vyxalify x h1.
Proof.
  intros Hm Hx. rewrite py_next_S, (bind_read _ _ _ _ Hm).
  now rewrite (bind_Ret _ _ _ _ _ Hx).
Qed.

(** [LazyList(map(vyxalify, v))], when it returns, is a sequence. *)
Lemma vyxalify_iterable v h r h' :
  (m <- py_map MVyxalify v ;;
   l <- __init__ (SrcValue (VIter m)) false ;;
   ret (VLazy l)) h = (Ret r, h') ->
  exists s, r = VLazy s.
Proof.
  unfold py_map. unfold bind at 1 2.
  destruct (py_iter v h) as [[it | e |] hi] eqn:Hit; try discriminate.
  unfold alloc, __init__, py_iter, bind, ret. unfold alloc, bind, ret.
  cbv beta iota. intros [= <- <-]. eauto.
Qed.

(** [vyxalify] accepts everything but a float, which is neither one of
    the kinds it returns unchanged nor iterable. *)
Lemma vyxalify_float q h : vyxalify (VFloat q) h = (Raise TypeError, h).
Proof. reflexivity. Qed.

Lemma vyxalify_accepts v h :
  (forall q, v <> VFloat q) -> exists r h', vyxalify v h = (Ret r, h').
Proof.
  intros Hv. unfold vyxalify.
  destruct v; simpl; unfold ret; eauto.
  - now destruct (Hv f).
  - unfold sym_rational. destruct (Pos.eqb (Qden (Qred q)) 1); simpl;
      unfold ret; eauto.
Qed.


(** * Further properties of the code *)

(** ** Indexing as a function of the elements *)

Lemma cyclic_lookup (l : list value) (i : nat) v :
  l !! i = Some v -> cyclic l i = v.
Proof.
  intros Hi. pose proof (lookup_lt_Some _ _ _ Hi) as Hlt.
  unfold cyclic. destruct l as [|x l]; [simpl in Hlt; lia|].
  rewrite Nat.mod_small by exact Hlt. now rewrite Hi.
Qed.

(** [get(i)], [0 <= i], on a sequence whose elements are [pre ++ rest]:
    the cache grows by what had to be produced, the elements stay the
    same. *)
Lemma getitem_int_cyclic h s raw pre inf rest (i : nat) :
  h !! s = Some (OLazy raw pre inf) ->
  producer h raw rest ->
  exists h' pre' rest',
    (forall n, (length rest + 4 <= n)%nat ->
       getitem_int n s (Z.of_nat i) h = (Ret (cyclic (pre ++ rest) i), h')) /\
    h' !! s = Some (OLazy raw pre' inf) /\
    producer h' raw rest' /\
    pre' ++ rest' = pre ++ rest /\
    pre' = pre ++ take (i + 1 - length pre) rest /\
    rest' = drop (i + 1 - length pre) rest /\
    length h' = length h.
Proof.
  intros Hs Hp.
  destruct (decide (i < length pre)%nat) as [Hlt | Hge].
  - destruct (lookup_lt_is_Some_2 pre i Hlt) as [v Hv].
    exists h, pre, rest.
    replace (i + 1 - length pre)%nat with 0%nat by lia.
    rewrite take_0, drop_0, app_nil_r.
    split; [|repeat split; auto].
    intros n _. unfold getitem_int.
    rewrite (bind_Ret _ _ _ _ _ (get_generated_at _ _ _ _ _ Hs)).
    replace (Z.of_nat i <? 0) with false by (symmetry; apply Z.ltb_ge; lia).
    replace (Z.of_nat i <? Z.of_nat (length pre)) with true
      by (symmetry; apply Z.ltb_lt; lia).
    rewrite (cyclic_lookup _ _ v) by (now apply lookup_app_l_Some).
    now apply py_index_nat.
  - destruct (getitem_while_spec s raw inf i rest h pre Hs Hp)
      as (h' & Hw & Hs' & Hp' & Hl).
    set (k := (i + 1 - length pre)%nat) in *.
    exists h', (pre ++ take k rest), (drop k rest).
    split; [|repeat split; auto; now rewrite <- app_assoc, take_drop].
    intros n Hn. unfold getitem_int.
    rewrite (bind_Ret _ _ _ _ _ (get_generated_at _ _ _ _ _ Hs)).
    replace (Z.of_nat i <? 0) with false by (symmetry; apply Z.ltb_ge; lia).
    replace (Z.of_nat i <? Z.of_nat (length pre)) with false
      by (symmetry; apply Z.ltb_ge; lia).
    replace n with (length rest + 4 + (n - (length rest + 4)))%nat by lia.
    rewrite (bind_Ret _ _ _ _ _ (Hw _)).
    rewrite (bind_Ret _ _ _ _ _ (get_generated_at _ _ _ _ _ Hs')).
    destruct (decide (k <= length rest)%nat) as [Hk | Hk].
    + (* the producer had enough *)
      assert (length (pre ++ take k rest) = S i) as Hlen
        by (rewrite length_app, length_take; unfold k; lia).
      destruct (lookup_lt_is_Some_2 (pre ++ take k rest) i ltac:(lia))
        as [v Hv].
      assert ((pre ++ rest) !! i = Some v) as Hv'.
      { rewrite <- (take_drop k rest), app_assoc.
        now apply lookup_app_l_Some. }
      rewrite (cyclic_lookup _ _ _ Hv').
      destruct (pre ++ take k rest) as [|c cache] eqn:Hc;
        [simpl in Hlen; lia|].
      rewrite <- Nat2Z.inj_mod. apply py_index_nat.
      rewrite Nat.mod_small by lia. exact Hv.
    + (* the producer ran out *)
      rewrite take_ge by lia. unfold cyclic.
      destruct (pre ++ rest) as [|c cache] eqn:Hc; [reflexivity|].
      assert (i mod length (c :: cache) < length (c :: cache))%nat as Hm
        by (apply Nat.mod_upper_bound; simpl; lia).
      destruct (lookup_lt_is_Some_2 _ _ Hm) as [v Hv].
      rewrite Hv. simpl default.
      rewrite <- Nat2Z.inj_mod. now apply py_index_nat.
Qed.

(** ** Slices with a stop *)

Lemma or_default_step step : or_default step 1 <> 0.
Proof. destruct step as [[| |]|]; simpl; lia. Qed.

(** A range between non-negative bounds has no negative member. *)
Lemma py_range_nonneg start stop step :
  0 <= start -> 0 <= stop -> step <> 0 ->
  Forall (fun i => 0 <= i) (py_range start stop step).
Proof.
  intros Hstart Hstop Hstep. unfold py_range.
  destruct (0 <? step) eqn:Hs; apply Forall_forall; intros i Hi;
    apply list_elem_of_fmap in Hi as (j & -> & Hj);
    apply elem_of_seq in Hj.
  - apply Z.ltb_lt in Hs. nia.
  - apply Z.ltb_ge in Hs.
    set (q := (start - stop - step - 1) / - step) in *.
    assert (0 < - step) as Hpos by lia.
    pose proof (Z.mul_div_le (start - stop - step - 1) (- step) Hpos) as Hq.
    fold q in Hq.
    assert (Z.of_nat j + 1 <= q) as Hjq by lia.
    nia.
Qed.

(** The loop of a slice: every index is answered like [get]. *)
Lemma getitem_each_cyclic s raw inf (l : list Z) :
  Forall (fun i => 0 <= i) l ->
  forall h pre rest,
    h !! s = Some (OLazy raw pre inf) ->
    producer h raw rest ->
    exists h' pre' rest',
      (forall n, (length rest + 4 <= n)%nat ->
         getitem_each n s l h
         = (Ret (map (fun i => cyclic (pre ++ rest) (Z.to_nat i)) l), h')) /\
      h' !! s = Some (OLazy raw pre' inf) /\
      producer h' raw rest' /\
      pre' ++ rest' = pre ++ rest /\
      (length rest' <= length rest)%nat /\
      length h' = length h.
Proof.
  induction 1 as [|i l Hi Hl IH]; intros h pre rest Hs Hp.
  - exists h, pre, rest. repeat split; auto.
  - destruct (getitem_int_cyclic _ _ _ _ _ _ (Z.to_nat i) Hs Hp)
      as (h1 & pre1 & rest1 & Hget & Hs1 & Hp1 & Hall & _ & Hrest & Hlen1).
    rewrite Z2Nat.id in Hget by exact Hi.
    assert (length rest1 <= length rest)%nat as Hle
      by (rewrite Hrest, length_drop; lia).
    destruct (IH h1 pre1 rest1 Hs1 Hp1)
      as (h' & pre' & rest' & Heach & Hs' & Hp' & Hall' & Hle' & Hlen').
    exists h', pre', rest'.
    split; [|repeat split; auto; try congruence; lia].
    intros n Hn. simpl.
    rewrite (bind_Ret _ _ _ _ _ (Hget n Hn)).
    rewrite (bind_Ret _ _ _ _ _ (Heach n ltac:(lia))).
    now rewrite Hall.
Qed.

(** A slice with a non-negative start and stop is the list of the answers
    of [get] at the indices of the range: it never fails, and past the end
    of a finite sequence it wraps around instead of stopping. *)
Theorem getitem_slice_wraps h s raw pre inf rest
    (start step : option Z) (stop : Z) :
  h !! s = Some (OLazy raw pre inf) ->
  producer h raw rest ->
  0 <= or_default start 0 -> 0 <= stop ->
  exists h' pre' rest',
    (forall n, (length rest + 4 <= n)%nat ->
       __getitem__ n s (PSlice start (Some stop) step) h
       = (Ret (VList (map (fun i => cyclic (pre ++ rest) (Z.to_nat i))
                          (py_range (or_default start 0) stop
                                    (or_default step 1)))), h')) /\
    h' !! s = Some (OLazy raw pre' inf) /\
    producer h' raw rest' /\
    pre' ++ rest' = pre ++ rest.
Proof.
  intros Hs Hp Hstart Hstop.
  destruct (getitem_each_cyclic s raw inf
              (py_range (or_default start 0) stop (or_default step 1))
              (py_range_nonneg _ _ _ Hstart Hstop (or_default_step step))
              h pre rest Hs Hp)
    as (h' & pre' & rest' & Heach & Hs' & Hp' & Hall & _).
  exists h', pre', rest'. split; [|auto].
  intros n Hn. unfold __getitem__.
  replace (stop <? 0) with false by (symmetry; apply Z.ltb_ge; lia).
  rewrite (bind_Ret _ _ h stop h) by reflexivity.
  now rewrite (bind_Ret _ _ _ _ _ (Heach n Hn)).
Qed.

(** [s = LazyList([1, 2, 3]); s[0:5]] is [[1, 2, 3, 1, 2]]. *)
Lemma getitem_slice_wraps_witness :
  fst (__getitem__ 7 1%nat (PSlice None (Some 5) None)
         [OGen [VInt 1; VInt 2; VInt 3]; OLazy 0 [] false])
  = Ret (VList [VInt 1; VInt 2; VInt 3; VInt 1; VInt 2]).
Proof.
  destruct (getitem_slice_wraps
              [OGen [VInt 1; VInt 2; VInt 3]; OLazy 0 [] false]
              1 0 [] false [VInt 1; VInt 2; VInt 3] None None 5
              eq_refl (or_introl eq_refl) ltac:(simpl; lia) ltac:(lia))
    as (h' & pre' & rest' & Hrun & _).
  rewrite (Hrun 7%nat ltac:(simpl; lia)). reflexivity.
Defined.

(** ** [listify] on a sequence of numbers and strings *)

Lemma simplify_simple n v h :
  simple v = true -> simplify (S n) v h = (Ret v, h).
Proof. destruct v; simpl; intros Hv; try discriminate; reflexivity. Qed.

(** The map object [map(simplify, it)] over an iterator of simple values
    yields what [it] yields. *)
Lemma map_simplify_iterator it m K (P : loc -> Prop) Inv :
  iterator it K P Inv -> P m ->
  iterator m (K + 2) P
    (fun xs h => Inv xs h /\ h !! m = Some (OMap MSimplify it) /\
                 forallb simple xs = true).
Proof.
  intros Hit Pm xs h (Hinv & Hm & Hsim).
  pose proof (Hit xs h Hinv) as Hstep.
  destruct xs as [|x xs]; simpl in *; destruct Hstep as (h' & Hn & Hi & Hp);
    exists h'.
  - split; [|split; [split; [exact Hi|split; [|reflexivity]]|exact Hp]].
    + intros n. replace (K + 2 + n)%nat with (S (K + (1 + n))) by lia.
      rewrite (next_map_simplify _ _ _ _ Hm). now rewrite (bind_Raise _ _ _ _ _ (Hn _)).
    + exact (preserves_lookup _ _ _ _ _ Hp Pm Hm).
  - apply andb_true_iff in Hsim as [Hx Hxs].
    split; [|split; [split; [exact Hi|split; [|exact Hxs]]|exact Hp]].
    + intros n. replace (K + 2 + n)%nat with (S (K + (1 + n))) by lia.
      rewrite (next_map_simplify _ _ _ _ Hm).
      rewrite (bind_Ret _ _ _ _ _ (Hn _)).
      replace (K + (1 + n))%nat with (S (K + n)) by lia.
      now apply simplify_simple.
    + exact (preserves_lookup _ _ _ _ _ Hp Pm Hm).
Qed.

(** [simplify(it)] for an iterator over a producer of simple values: the
    values, in a new list; only the producer is consumed. *)
Lemma simplify_producer h raw rest :
  producer h raw rest ->
  forallb simple rest = true ->
  exists h',
    (forall n, (length rest + 6 <= n)%nat ->
       simplify n (VIter raw) h = (Ret (VList rest), h')) /\
    producer h' raw [] /\
    footprint h' raw = footprint h raw /\
    (length h <= length h')%nat /\
    (forall l, (l < length h)%nat -> l ∉ footprint h raw -> h' !! l = h !! l).
Proof.
  intros Hp Hsim.
  set (F := footprint h raw). set (m := length h).
  set (h1 := h ++ [OMap MSimplify raw]).
  destruct (producer_app _ _ _ [OMap MSimplify raw] Hp) as [Hp1 HF1].
  assert (m ∉ F) as HmF.
  { intros Hin. pose proof (footprint_lt _ _ _ _ Hp Hin). unfold m in *. lia. }
  destruct (py_list_iterator m (2 + 2) (fun l => l ∉ F)
              (fun xs h => (producer h raw xs /\ footprint h raw = F /\ True) /\
                           h !! m = Some (OMap MSimplify raw) /\
                           forallb simple xs = true)) with (xs := rest) (h := h1)
    as (h2 & Hl & ((Hp2 & HF2 & _) & Hm2 & _) & [L2 Fr2]).
  - apply map_simplify_iterator; auto.
    apply producer_iterator; auto.
  - split; [split; [exact Hp1 | split; [exact HF1 | exact I]]|].
    split; [|exact Hsim]. unfold h1, m. now apply list_lookup_middle.
  - exists h2.
    assert (length h1 = S (length h)) as L1
      by (unfold h1; rewrite length_app; simpl; lia).
    split; [|split; [exact Hp2|split; [exact HF2|split; [lia|]]]].
    + intros n Hn. destruct n as [|n]; [lia|].
      rewrite simplify_S. unfold py_map, py_iter.
      rewrite (bind_Ret _ _ h m h1) by reflexivity.
      replace n with (length rest + (2 + 2) + 1 + (n - (length rest + 5)))%nat
        by lia.
      now rewrite (bind_Ret _ _ _ _ _ (Hl _)).
    + intros l Hl' Hnot. rewrite Fr2 by (auto; lia).
      unfold h1. now apply lookup_app_l.
Qed.

(** [listify] on a sequence whose pending values are simple. *)
Lemma listify_simple h s raw pre inf rest :
  h !! s = Some (OLazy raw pre inf) ->
  producer h raw rest ->
  forallb simple rest = true ->
  exists h' it,
    (forall n, (length rest + 7 <= n)%nat ->
       listify n s h = (Ret (pre ++ rest), h')) /\
    h' !! s = Some (OLazy it [] inf) /\
    h' !! it = Some (OGen (pre ++ rest)) /\
    (length h <= it)%nat /\
    producer h' raw [] /\
    (forall l, (l < length h)%nat -> l <> s -> l ∉ footprint h raw ->
               h' !! l = h !! l).
Proof.
  intros Hs Hp Hsim.
  destruct (simplify_producer _ _ _ Hp Hsim)
    as (h2 & Hsimp & Hp2 & HF2 & L2 & Fr2).
  pose proof (lazy_not_in_footprint _ _ _ _ _ _ _ Hp Hs) as HsF.
  pose proof (lookup_lt_Some _ _ _ Hs) as Ls.
  assert (h2 !! s = Some (OLazy raw pre inf)) as Hs2
    by (rewrite Fr2; auto).
  set (it := length h2).
  set (h3 := h2 ++ [OGen (pre ++ rest)]).
  assert (h3 !! s = Some (OLazy raw pre inf)) as Hs3
    by (unfold h3; rewrite lookup_app_l; auto; lia).
  set (h4 := <[s := OLazy it pre inf]> h3).
  assert (h4 !! s = Some (OLazy it pre inf)) as Hs4
    by (apply list_lookup_insert_eq; exact (lookup_lt_Some _ _ _ Hs3)).
  exists (<[s := OLazy it [] inf]> h4), it.
  split; [|split; [|split; [|split; [|split]]]].
  - intros n Hn. destruct n as [|n]; [lia|].
    rewrite listify_S.
    rewrite (bind_Ret _ _ _ _ _ (get_generated_at _ _ _ _ _ Hs)).
    rewrite (bind_Ret _ _ _ _ _ (get_raw_object_at _ _ _ _ _ Hs)).
    rewrite (bind_Ret _ _ _ _ _ (Hsimp n ltac:(lia))).
    cbv zeta. unfold py_iter.
    rewrite (bind_Ret _ _ h2 it h3) by reflexivity.
    rewrite (bind_Ret _ _ _ _ _ (set_raw_object_at _ _ _ _ _ it Hs3)).
    rewrite (bind_Ret _ _ _ _ _ (set_generated_at _ _ _ _ _ [] Hs4)).
    reflexivity.
  - apply list_lookup_insert_eq. exact (lookup_lt_Some _ _ _ Hs4).
  - rewrite list_lookup_insert_ne by (unfold it; lia).
    unfold h4. rewrite list_lookup_insert_ne by (unfold it; lia).
    unfold h3, it. now apply list_lookup_middle.
  - unfold it. lia.
  - rewrite <- HF2 in HsF.
    destruct (producer_app _ _ _ [OGen (pre ++ rest)] Hp2) as [Hp3 HF3].
    fold h3 in Hp3, HF3. rewrite <- HF3 in HsF.
    destruct (producer_store _ _ _ s (OLazy it pre inf) Hp3 HsF) as [Hp4 HF4].
    fold h4 in Hp4, HF4. rewrite <- HF4 in HsF.
    exact (proj1 (producer_store _ _ _ s (OLazy it [] inf) Hp4 HsF)).
  - intros l Hl Hls HlF.
    rewrite list_lookup_insert_ne by auto.
    unfold h4. rewrite list_lookup_insert_ne by auto.
    unfold h3. rewrite lookup_app_l by lia. now apply Fr2.
Qed.

(** [listify] returns the cached values followed by the pending ones and
    re-seeds the sequence: the cache is emptied and the producer is replaced
    by a new iterator over the list returned, so the sequence still has the
    same elements; the old producer is left exhausted, and nothing else in
    the store changes. *)
Theorem listify_reseeds h s raw pre inf rest :
  h !! s = Some (OLazy raw pre inf) ->
  producer h raw rest ->
  forallb simple rest = true ->
  exists h' it,
    (forall n, (length rest + 7 <= n)%nat ->
       listify n s h = (Ret (pre ++ rest), h')) /\
    h' !! s = Some (OLazy it [] inf) /\
    h' !! it = Some (OGen (pre ++ rest)) /\
    (length h <= it)%nat /\
    producer h' raw [] /\
    (forall l, (l < length h)%nat -> l <> s -> l ∉ footprint h raw ->
               h' !! l = h !! l).
Proof. apply listify_simple. Qed.

(** With [1] cached and [2, 3] pending, [listify] returns [[1, 2, 3]]. *)
Lemma listify_reseeds_witness :
  fst (listify 9 1%nat [OGen [VInt 2; VInt 3]; OLazy 0 [VInt 1] false])
  = Ret [VInt 1; VInt 2; VInt 3].
Proof.
  destruct (listify_reseeds
              [OGen [VInt 2; VInt 3]; OLazy 0 [VInt 1] false]
              1 0 [VInt 1] false [VInt 2; VInt 3]
              eq_refl (or_introl eq_refl) eq_refl)
    as (h' & it & Hrun & _).
  rewrite (Hrun 9%nat ltac:(simpl; lia)). reflexivity.
Defined.

(** ** Equality and counting on numbers and strings *)

Lemma py_eq_simple n a b h :
  simple a = true -> simple b = true ->
  py_eq (S n) a b h = (Ret (simple_eq a b), h).
Proof.
  destruct a, b; simpl; intros Ha Hb; try discriminate; reflexivity.
Qed.

Lemma same_object_simple a b : simple a = true -> same_object a b = false.
Proof. destruct a, b; simpl; intros Ha; try discriminate; reflexivity. Qed.

Lemma simple_list_eq_length l1 l2 :
  simple_list_eq l1 l2 = true -> length l1 = length l2.
Proof.
  revert l2. induction l1 as [|x l1 IH]; intros [|y l2]; simpl;
    try discriminate; auto.
  intros H. apply andb_true_iff in H as [_ H]. f_equal. now apply IH.
Qed.

Lemma py_eq_list_cons n x y la lb :
  py_eq (S n) (VList (x :: la)) (VList (y :: lb)) =
  if Nat.eqb (length la) (length lb) then
    (e <- (if same_object x y then ret true else py_eq n x y) ;;
     if e : bool then py_eq (S n) (VList la) (VList lb) else ret false)
  else ret false.
Proof.
  simpl. destruct (Nat.eqb (length la) (length lb)); reflexivity.
Qed.

(** [la == lb] for lists of simple values. *)
Lemma py_eq_simple_lists n la :
  forall lb h,
    forallb simple la = true -> forallb simple lb = true ->
    py_eq (S (S n)) (VList la) (VList lb) h = (Ret (simple_list_eq la lb), h).
Proof.
  induction la as [|x la IH]; intros [|y lb] h Ha Hb; try reflexivity.
  simpl in Ha, Hb.
  apply andb_true_iff in Ha as [Hx Ha]. apply andb_true_iff in Hb as [Hy Hb].
  rewrite py_eq_list_cons. simpl simple_list_eq.
  destruct (Nat.eqb (length la) (length lb)) eqn:E.
  - rewrite (same_object_simple _ _ Hx).
    rewrite (bind_Ret _ _ _ _ _ (py_eq_simple _ _ _ _ Hx Hy)).
    destruct (simple_eq x y); [now apply IH | reflexivity].
  - destruct (simple_list_eq la lb) eqn:E'.
    + apply simple_list_eq_length in E'. apply Nat.eqb_neq in E. lia.
    + now rewrite andb_false_r.
Qed.

(** [simplify] of a native list or tuple of simple values: the values, in
    a new list. *)
Lemma simplify_simple_container v ys h :
  v = VList ys \/ v = VTuple ys ->
  forallb simple ys = true ->
  exists h',
    (forall n, (length ys + 6 <= n)%nat ->
       simplify n v h = (Ret (VList ys), h')) /\
    (length h <= length h')%nat /\
    (forall l, (l < length h)%nat -> h' !! l = h !! l).
Proof.
  intros Hv Hsim.
  set (g := length h). set (h1 := h ++ [OGen ys]).
  assert (h1 !! g = Some (OGen ys)) as Hg
    by (unfold h1, g; now apply list_lookup_middle).
  destruct (simplify_producer h1 g ys (or_introl Hg) Hsim)
    as (h' & Hrun & _ & _ & L & Fr).
  assert (length h1 = S (length h)) as L1
    by (unfold h1; rewrite length_app; simpl; lia).
  exists h'. split; [|split; [lia|]].
  - intros n Hn. rewrite <- (Hrun n Hn).
    destruct n as [|n]; [lia|].
    destruct Hv as [-> | ->]; reflexivity.
  - intros l Hl. rewrite Fr.
    + unfold h1. now apply lookup_app_l.
    + lia.
    + unfold footprint. rewrite Hg. rewrite list_elem_of_singleton.
      unfold g. lia.
Qed.

(** [s == other] for a sequence of simple values and a native list or
    tuple of simple values: true exactly when both have the same length and
    equal items, whatever part of the sequence is cached. *)
Theorem eq_simple_sequences h s raw pre inf rest other ys :
  h !! s = Some (OLazy raw pre inf) ->
  producer h raw rest ->
  other = VList ys \/ other = VTuple ys ->
  forallb simple (pre ++ rest) = true ->
  forallb simple ys = true ->
  exists h',
    forall n, (length rest + length ys + 7 <= n)%nat ->
      __eq__ n s other h = (Ret (simple_list_eq (pre ++ rest) ys), h').
Proof.
  intros Hs Hp Hother Hsim Hys.
  pose proof Hsim as Hsim'. rewrite forallb_app in Hsim'.
  apply andb_true_iff in Hsim' as [_ Hrest].
  destruct (listify_simple _ _ _ _ _ _ Hs Hp Hrest)
    as (h1 & it & Hlist & _).
  destruct (simplify_simple_container other ys h1 Hother Hys)
    as (h2 & Hsimp & _).
  exists h2. intros n Hn. unfold __eq__.
  rewrite (bind_Ret _ _ _ _ _ (Hlist n ltac:(lia))).
  rewrite (bind_Ret _ _ _ _ _ (Hsimp n ltac:(lia))).
  destruct n as [|[|n]]; try lia.
  now apply py_eq_simple_lists.
Qed.

(** With [1] cached and [2] pending, [s == (1, 2)] holds. *)
Lemma eq_simple_sequences_witness :
  fst (__eq__ 10 1%nat (VTuple [VInt 1; VInt 2])
         [OGen [VInt 2]; OLazy 0 [VInt 1] false])
  = Ret true.
Proof.
  destruct (eq_simple_sequences
              [OGen [VInt 2]; OLazy 0 [VInt 1] false]
              1 0 [VInt 1] false [VInt 2] (VTuple [VInt 1; VInt 2])
              [VInt 1; VInt 2]
              eq_refl (or_introl eq_refl) (or_intror eq_refl) eq_refl eq_refl)
    as (h' & Hrun).
  rewrite (Hrun 10%nat ltac:(simpl; lia)). reflexivity.
Defined.

(** [l.count(other)] on simple values. *)
Lemma count_items_simple n other :
  simple other = true ->
  forall l h,
    forallb simple l = true ->
    count_items (S n) l other h
    = (Ret (Z.of_nat (length (List.filter (fun x => simple_eq x other) l))), h).
Proof.
  intros Ho. induction l as [|x l IH]; intros h Hl; [reflexivity|].
  simpl in Hl. apply andb_true_iff in Hl as [Hx Hl].
  cbn [count_items]. rewrite (same_object_simple _ _ Hx).
  rewrite (bind_Ret _ _ _ _ _ (py_eq_simple _ _ _ _ Hx Ho)).
  rewrite (bind_Ret _ _ _ _ _ (IH h Hl)).
  unfold ret. simpl List.filter.
  destruct (simple_eq x other); [|reflexivity].
  simpl length. f_equal. f_equal. lia.
Qed.

(** [count] returns the number of elements equal to [other], cached or
    pending, and leaves the sequence re-seeded with the same elements. *)
Theorem count_occurrences h s raw pre inf rest other :
  h !! s = Some (OLazy raw pre inf) ->
  producer h raw rest ->
  forallb simple (pre ++ rest) = true ->
  simple other = true ->
  exists h' it,
    (forall n, (length rest + 7 <= n)%nat ->
       count n s other h
       = (Ret (Z.of_nat (length (List.filter (fun x => simple_eq x other)
                                             (pre ++ rest)))), h')) /\
    h' !! s = Some (OLazy it [] inf) /\
    h' !! it = Some (OGen (pre ++ rest)).
Proof.
  intros Hs Hp Hsim Ho.
  pose proof Hsim as Hsim'. rewrite forallb_app in Hsim'.
  apply andb_true_iff in Hsim' as [_ Hrest].
  destruct (listify_simple _ _ _ _ _ _ Hs Hp Hrest)
    as (h1 & it & Hlist & Hs1 & Hit & _).
  exists h1, it. split; [|auto].
  intros n Hn. unfold count.
  rewrite (bind_Ret _ _ _ _ _ (Hlist n Hn)).
  destruct n as [|n]; [lia|].
  now apply count_items_simple.
Qed.

(** With [1] cached and [2, 1] pending, [s.count(1)] is [2]. *)
Lemma count_occurrences_witness :
  fst (count 9 1%nat (VInt 1)
         [OGen [VInt 2; VInt 1]; OLazy 0 [VInt 1] false])
  = Ret 2.
Proof.
  destruct (count_occurrences
              [OGen [VInt 2; VInt 1]; OLazy 0 [VInt 1] false]
              1 0 [VInt 1] false [VInt 2; VInt 1] (VInt 1)
              eq_refl (or_introl eq_refl) eq_refl eq_refl)
    as (h' & it & Hrun & _).
  rewrite (Hrun 9%nat ltac:(simpl; lia)). reflexivity.
Defined.

(** ** Membership *)

Lemma get_infinite_at h s r g i :
  h !! s = Some (OLazy r g i) -> get_infinite s h = (Ret i, h).
Proof. intros H. unfold get_infinite. now rewrite (bind_read _ _ _ _ H). Qed.

(** The scan [for temp in it: if temp == lhs: return 1] over an iterator
    of simple values: it answers at the first equal value, and with [0] when
    the iterator stops. *)
Lemma contains_for_iterator it K (P : loc -> Prop) Inv lhs :
  iterator it K P Inv ->
  simple lhs = true ->
  forall xs h,
    Inv xs h -> forallb simple xs = true ->
    exists h' xs',
      (forall n, contains_for (length xs + K + 1 + n) it lhs h
                 = (Ret (VInt (if existsb (fun x => simple_eq x lhs) xs
                               then 1 else 0)), h')) /\
      Inv xs' h' /\ preserves P h h'.
Proof.
  intros Hit Hlhs xs. induction xs as [|x xs IH]; intros h Hinv Hsim.
  - destruct (Hit [] h Hinv) as (h' & Hn & Hi & Hp).
    exists h', []. split; [|auto].
    intros n. simpl length. simpl plus.
    replace (K + 1 + n)%nat with (S (K + n)) by lia.
    cbn [contains_for].
    assert (try_stop (x0 <- py_next (K + n) it ;; ret (Some x0)) (ret None) h
            = (Ret None, h')) as Htry
      by (unfold try_stop; now rewrite (bind_Raise _ _ _ _ _ (Hn n))).
    now rewrite (bind_Ret _ _ _ _ _ Htry).
  - simpl in Hsim. apply andb_true_iff in Hsim as [Hx Hxs].
    destruct (Hit (x :: xs) h Hinv) as (h1 & Hn & Hi & Hp).
    destruct (IH h1 Hi Hxs) as (h' & xs' & Hrun & Hi' & Hp').
    simpl existsb.
    assert (forall n, try_stop (x0 <- py_next (length xs + K + 1 + n) it ;;
                                ret (Some x0)) (ret None) h
                      = (Ret (Some x), h1)) as Htry.
    { intros n. unfold try_stop.
      replace (length xs + K + 1 + n)%nat with (K + (length xs + 1 + n))%nat
        by lia.
      now rewrite (bind_Ret _ _ _ _ _ (Hn _)). }
    assert (forall n, py_eq (length xs + K + 1 + n) x lhs h1
                      = (Ret (simple_eq x lhs), h1)) as Heq.
    { intros n. replace (length xs + K + 1 + n)%nat
        with (S (length xs + K + n)) by lia.
      now apply py_eq_simple. }
    destruct (simple_eq x lhs) eqn:E.
    + exists h1, xs. split; [|auto].
      intros n. simpl length.
      replace (S (length xs) + K + 1 + n)%nat
        with (S (length xs + K + 1 + n)) by lia.
      cbn [contains_for].
      rewrite (bind_Ret _ _ _ _ _ (Htry n)).
      rewrite (bind_Ret _ _ _ _ _ (Heq n)). reflexivity.
    + exists h', xs'.
      split; [|split; [exact Hi' | exact (preserves_trans _ _ _ _ Hp Hp')]].
      intros n. simpl length.
      replace (S (length xs) + K + 1 + n)%nat
        with (S (length xs + K + 1 + n)) by lia.
      cbn [contains_for].
      rewrite (bind_Ret _ _ _ _ _ (Htry n)).
      rewrite (bind_Ret _ _ _ _ _ (Heq n)). simpl orb. apply Hrun.
Qed.

(** [lhs in s] for a sequence that is not flagged infinite: [1] when an
    element, cached or pending, equals [lhs], and [0] otherwise.  The scan
    goes through a fresh iteration, so the cache is left as it was and the
    sequence keeps its pending elements. *)
Theorem contains_finite h s raw pre rest lhs :
  h !! s = Some (OLazy raw pre false) ->
  producer h raw rest ->
  forallb simple (pre ++ rest) = true ->
  simple lhs = true ->
  exists h' raw',
    (forall n, (length (pre ++ rest) + 6 <= n)%nat ->
       __contains__ n s lhs h
       = (Ret (VInt (if existsb (fun x => simple_eq x lhs) (pre ++ rest)
                     then 1 else 0)), h')) /\
    h' !! s = Some (OLazy raw' pre false) /\
    producer h' raw' rest.
Proof.
  intros Hs Hp Hsim Hlhs.
  destruct (iter_spec _ _ _ _ _ _ Hs Hp)
    as (j & c0 & c1 & b & u & h1 & Hiter & Hs1 & Hj1 & Hc0 & Hc1 & _ & Hne &
        _ & _ & _ & _ & _).
  destruct (clone_kinds _ _ _ _ _ _ _ Hc1 Hs1 eq_refl) as (Hsc & Hsb & Hsu).
  destruct (clone_kinds _ _ _ _ _ _ _ Hc1 Hj1 eq_refl) as (Hjc & Hjb & Hju).
  destruct (clone_lt _ _ _ _ _ Hc1) as (Lc & Lb & Lu).
  pose proof (lookup_lt_Some _ _ _ Hs1) as Ls.
  pose proof (lookup_lt_Some _ _ _ Hj1) as Lj.
  assert (s <> j) as Hsj by (intros ->; congruence).
  set (C := fun h : heap => h !! s = Some (OLazy c0 pre false) /\
                            clone h c0 b u rest).
  assert (iterator j 5 (join_protected j (iter_inner j (fun _ => False)))
            (iter_inv j c1 b u pre rest (length h1) C)) as Hit.
  { apply iteration_iterator.
    - intros h0 h' [H0 Hc] (Hl & Hfr & Hsib). split.
      + rewrite Hfr; auto.
      + apply Hsib; auto.
    - intros h0 o [H0 Hc]. split.
      + rewrite list_lookup_insert_ne; auto.
      + destruct (clone_kinds _ _ _ _ _ _ _ Hc0 Hj1 eq_refl) as (? & ? & ?).
        apply clone_store; auto.
    - intros h0 l o [H0 Hc] Hl. split.
      + rewrite list_lookup_insert_ne; auto. lia.
      + destruct (clone_lt _ _ _ _ _ Hc0) as (? & ? & ?).
        apply clone_store; auto; lia.
    - intros h0 o [H0 Hc]. split.
      + rewrite lookup_app_l; auto. exact (lookup_lt_Some _ _ _ H0).
      + now apply clone_alloc.
    - intros l []. }
  destruct (contains_for_iterator j 5 _ _ lhs Hit Hlhs (pre ++ rest) h1)
    as (h' & xs' & Hrun & Hinv & _); auto.
  { left. split; [exact Hj1|]. split; [|reflexivity].
    split; [lia|]. split; [exact Hc1|]. repeat split; auto. }
  destruct (iter_inv_facts _ _ _ _ _ _ _ _ _ _ Hinv)
    as (zs & _ & (_ & _ & _ & _ & _ & _ & _ & Hs' & Hc') & _).
  exists h', c0. split; [|split; [exact Hs'|]].
  - intros n Hn. unfold __contains__.
    rewrite (bind_Ret _ _ _ _ _ (get_infinite_at _ _ _ _ _ Hs)).
    rewrite (bind_Ret _ _ _ _ _ Hiter).
    replace n with (length (pre ++ rest) + 5 + 1
                    + (n - (length (pre ++ rest) + 6)))%nat by lia.
    apply Hrun.
  - exact (clone_producer _ _ _ _ _ Hc').
Qed.

(** With [1] cached and [2, 3] pending, [3 in s] is [1]. *)
Lemma contains_finite_witness :
  fst (__contains__ 9 1%nat (VInt 3)
         [OGen [VInt 2; VInt 3]; OLazy 0 [VInt 1] false])
  = Ret (VInt 1).
Proof.
  destruct (contains_finite
              [OGen [VInt 2; VInt 3]; OLazy 0 [VInt 1] false]
              1 0 [VInt 1] [VInt 2; VInt 3] (VInt 3)
              eq_refl (or_introl eq_refl) eq_refl eq_refl)
    as (h' & raw' & Hrun & _).
  rewrite (Hrun 9%nat ltac:(simpl; lia)). reflexivity.
Defined.

Lemma py_le_numeric n a b h :
  numeric a = true -> numeric b = true ->
  py_le (S n) a b h = (Ret (simple_le a b), h).
Proof.
  destruct a, b; simpl; intros Ha Hb; try discriminate; reflexivity.
Qed.

Lemma contains_while_S n self lhs lastv :
  contains_while (S n) self lhs lastv =
  (c <- py_le n lastv lhs ;;
   if c : bool then
     lastv <- __next__ n self ;;
     e <- py_eq n lastv lhs ;;
     if e : bool then ret (VInt 1) else contains_while n self lhs lastv
   else ret (VInt 0)).
Proof. reflexivity. Qed.

Lemma numeric_simple v : numeric v = true -> simple v = true.
Proof. destruct v; simpl; auto. Qed.

(** On a sequence flagged infinite, membership only looks forward from the
    last cached value: a number smaller than that value is reported absent
    at once, with nothing produced, whether it is in the cache or not. *)
Theorem contains_infinite_behind h s raw g lastv lhs n :
  h !! s = Some (OLazy raw (g ++ [lastv]) true) ->
  numeric lastv = true -> numeric lhs = true ->
  simple_le lastv lhs = false ->
  __contains__ (S (S n)) s lhs h = (Ret (VInt 0), h).
Proof.
  intros Hs Hl Hlhs Hle. unfold __contains__.
  rewrite (bind_Ret _ _ _ _ _ (get_infinite_at _ _ _ _ _ Hs)).
  rewrite (bind_Ret _ _ _ _ _ (get_generated_at _ _ _ _ _ Hs)).
  rewrite last_snoc. rewrite contains_while_S.
  rewrite (bind_Ret _ _ _ _ _ (py_le_numeric _ _ _ _ Hl Hlhs)).
  now rewrite Hle.
Qed.

(** With [1, 2, 3] cached, [2 in s] is [0]. *)
Lemma contains_infinite_behind_witness :
  __contains__ 2 1%nat (VInt 2)
    [OGen []; OLazy 0 [VInt 1; VInt 2; VInt 3] true]
  = (Ret (VInt 0), [OGen []; OLazy 0 [VInt 1; VInt 2; VInt 3] true]).
Proof.
  apply (contains_infinite_behind _ 1%nat 0%nat [VInt 1; VInt 2] (VInt 3));
    reflexivity.
Defined.

(** The forward scan of the infinite branch: values not above [lhs] and
    different from it are produced and cached one after the other; the
    first value [y] that equals [lhs] or lies above it ends the scan, with
    [1] in the first case and [0] in the second. *)
Lemma contains_while_scan s raw lhs y zs :
  numeric lhs = true -> numeric y = true ->
  (simple_eq y lhs = true \/ simple_le y lhs = false) ->
  forall xs h pre lastv,
    h !! s = Some (OLazy raw pre true) ->
    producer h raw (xs ++ y :: zs) ->
    numeric lastv = true -> simple_le lastv lhs = true ->
    forallb (fun x => numeric x && simple_le x lhs && negb (simple_eq x lhs)) xs
      = true ->
    exists h',
      (forall n, contains_while (length xs + 5 + n) s lhs lastv h
                 = (Ret (VInt (if simple_eq y lhs then 1 else 0)), h')) /\
      h' !! s = Some (OLazy raw (pre ++ xs ++ [y]) true) /\
      producer h' raw zs.
Proof.
  intros Hlhs Hy Hend xs.
  induction xs as [|x xs IH]; intros h pre lastv Hs Hp Hl Hle Hxs.
  - simpl in Hp.
    destruct (lazy_next_cons _ _ _ _ _ _ _ Hs Hp)
      as (h1 & Hn & Hs1 & Hp1 & _).
    pose proof (fun n => Hn n : __next__ (S (S (S n))) s h = _) as Hn'.
    exists h1. split; [|auto].
    intros n. simpl length. simpl plus.
    rewrite contains_while_S.
    rewrite (bind_Ret _ _ _ _ _ (py_le_numeric _ _ _ _ Hl Hlhs)).
    rewrite Hle.
    rewrite (bind_Ret _ _ _ _ _ (Hn' _)).
    rewrite (bind_Ret _ _ _ _ _
               (py_eq_simple _ _ _ _ (numeric_simple _ Hy)
                  (numeric_simple _ Hlhs))).
    destruct (simple_eq y lhs) eqn:E; [reflexivity|].
    destruct Hend as [? | Hgt]; [discriminate|].
    rewrite contains_while_S.
    rewrite (bind_Ret _ _ _ _ _ (py_le_numeric _ _ _ _ Hy Hlhs)).
    now rewrite Hgt.
  - simpl in Hp, Hxs.
    apply andb_true_iff in Hxs as [Hx Hxs].
    apply andb_true_iff in Hx as [Hx Hne].
    apply andb_true_iff in Hx as [Hnx Hlex].
    apply negb_true_iff in Hne.
    destruct (lazy_next_cons _ _ _ _ _ _ _ Hs Hp)
      as (h1 & Hn & Hs1 & Hp1 & _).
    destruct (IH h1 (pre ++ [x]) x Hs1 Hp1 Hnx Hlex Hxs)
      as (h' & Hrun & Hs' & Hp').
    exists h'. rewrite <- app_assoc in Hs'. split; [|auto].
    pose proof (fun n => Hn n : __next__ (S (S (S n))) s h = _) as Hn'.
    intros n. simpl length.
    replace (S (length xs) + 5 + n)%nat
      with (S (S (S (S (S (S (length xs + n))))))) by lia.
    rewrite contains_while_S.
    rewrite (bind_Ret _ _ _ _ _ (py_le_numeric _ _ _ _ Hl Hlhs)).
    rewrite Hle.
    rewrite (bind_Ret _ _ _ _ _ (Hn' _)).
    rewrite (bind_Ret _ _ _ _ _
               (py_eq_simple _ _ _ _ (numeric_simple _ Hnx)
                  (numeric_simple _ Hlhs))).
    rewrite Hne.
    replace (S (S (S (S (S (length xs + n))))))
      with (length xs + 5 + n)%nat by lia.
    apply Hrun.
Qed.

(** [lhs in s] for a sequence flagged infinite whose last cached value
    (or [0], when nothing is cached) is not above [lhs]: the scan produces
    and caches values until one equals [lhs] or lies above it. *)
Theorem contains_infinite_scans h s raw pre lhs xs y zs :
  h !! s = Some (OLazy raw pre true) ->
  producer h raw (xs ++ y :: zs) ->
  numeric lhs = true -> numeric y = true ->
  numeric (last_or_zero pre) = true ->
  simple_le (last_or_zero pre) lhs = true ->
  forallb (fun x => numeric x && simple_le x lhs && negb (simple_eq x lhs)) xs
    = true ->
  (simple_eq y lhs = true \/ simple_le y lhs = false) ->
  exists h',
    (forall n, (length xs + 5 <= n)%nat ->
       __contains__ n s lhs h
       = (Ret (VInt (if simple_eq y lhs then 1 else 0)), h')) /\
    h' !! s = Some (OLazy raw (pre ++ xs ++ [y]) true) /\
    producer h' raw zs.
Proof.
  intros Hs Hp Hlhs Hy Hl Hle Hxs Hend.
  destruct (contains_while_scan s raw lhs y zs Hlhs Hy Hend xs h pre
              (last_or_zero pre) Hs Hp Hl Hle Hxs)
    as (h' & Hrun & Hs' & Hp').
  exists h'. split; [|auto].
  intros n Hn. unfold __contains__.
  rewrite (bind_Ret _ _ _ _ _ (get_infinite_at _ _ _ _ _ Hs)).
  rewrite (bind_Ret _ _ _ _ _ (get_generated_at _ _ _ _ _ Hs)).
  replace n with (length xs + 5 + (n - (length xs + 5)))%nat by lia.
  apply Hrun.
Qed.

(** Over the producer of [1, 2, 4, 5], [3 in s] is [0] after [1, 2, 4] have
    been cached. *)
Lemma contains_infinite_scans_witness :
  fst (__contains__ 7 1%nat (VInt 3)
         [OGen [VInt 1; VInt 2; VInt 4; VInt 5]; OLazy 0 [] true])
  = Ret (VInt 0).
Proof.
  destruct (contains_infinite_scans
              [OGen [VInt 1; VInt 2; VInt 4; VInt 5]; OLazy 0 [] true]
              1 0 [] (VInt 3) [VInt 1; VInt 2] (VInt 4) [VInt 5]
              eq_refl (or_introl eq_refl) eq_refl eq_refl eq_refl eq_refl
              eq_refl (or_intror eq_refl))
    as (h' & Hrun & _).
  rewrite (Hrun 7%nat ltac:(simpl; lia)). reflexivity.
Defined.

(** ** Assignment to a position *)

Lemma py_setitem_nat (l : list value) (i : nat) v h :
  (i < length l)%nat ->
  py_setitem l (Z.of_nat i) v h = (Ret (<[i := v]> l), h).
Proof.
  intros Hi. unfold py_setitem.
  replace (Z.of_nat i <? 0) with false by (symmetry; apply Z.ltb_ge; lia).
  replace (0 <=? Z.of_nat i) with true by (symmetry; apply Z.leb_le; lia).
  replace (Z.of_nat i <? Z.of_nat (length l)) with true
    by (symmetry; apply Z.ltb_lt; lia).
  simpl. now rewrite Nat2Z.id.
Qed.

Lemma py_setitem_beyond (l : list value) (i : nat) v h :
  (length l <= i)%nat ->
  py_setitem l (Z.of_nat i) v h = (Raise IndexError, h).
Proof.
  intros Hi. unfold py_setitem.
  replace (Z.of_nat i <? 0) with false by (symmetry; apply Z.ltb_ge; lia).
  replace (Z.of_nat i <? Z.of_nat (length l)) with false
    by (symmetry; apply Z.ltb_ge; lia).
  now rewrite andb_false_r.
Qed.

(** What [__setitem__] does before the assignment: production is forced
    up to the position. *)
Lemma setitem_forces h s raw pre inf rest (i : nat) :
  h !! s = Some (OLazy raw pre inf) ->
  producer h raw rest ->
  exists h1,
    (forall n, (length rest + 4 <= n)%nat ->
       (if Z.of_nat (length pre) <=? Z.of_nat i
        then __getitem__ n s (PInt (Z.of_nat i)) ;;; ret tt
        else ret tt) h = (Ret tt, h1)) /\
    h1 !! s = Some (OLazy raw (pre ++ take (i + 1 - length pre) rest) inf) /\
    producer h1 raw (drop (i + 1 - length pre) rest).
Proof.
  intros Hs Hp.
  destruct (Z.of_nat (length pre) <=? Z.of_nat i) eqn:E.
  - destruct (getitem_int_cyclic _ _ _ _ _ _ i Hs Hp)
      as (h1 & pre1 & rest1 & Hget & Hs1 & Hp1 & _ & -> & -> & _).
    exists h1. split; [|auto].
    intros n Hn. unfold __getitem__.
    now rewrite (bind_Ret _ _ _ _ _ (Hget n Hn)).
  - apply Z.leb_gt in E. exists h.
    replace (i + 1 - length pre)%nat with 0%nat by lia.
    rewrite take_0, drop_0, app_nil_r. auto.
Qed.

(** Assigning at a position inside a finite sequence forces production up
    to it and replaces that one element: the elements become
    [<[i := v]> (pre ++ rest)], and [get(i)] is then [v]. *)
Theorem setitem_then_getitem h s raw pre inf rest (i : nat) v :
  h !! s = Some (OLazy raw pre inf) ->
  producer h raw rest ->
  (i < length (pre ++ rest))%nat ->
  exists h' pre' rest',
    (forall n, (length rest + 4 <= n)%nat ->
       __setitem__ n s (Z.of_nat i) v h = (Ret tt, h')) /\
    h' !! s = Some (OLazy raw pre' inf) /\
    producer h' raw rest' /\
    pre' ++ rest' = <[i := v]> (pre ++ rest) /\
    (forall n, __getitem__ n s (PInt (Z.of_nat i)) h' = (Ret v, h')).
Proof.
  intros Hs Hp Hi. rewrite length_app in Hi.
  destruct (setitem_forces _ _ _ _ _ _ i Hs Hp) as (h1 & Hforce & Hs1 & Hp1).
  set (k := (i + 1 - length pre)%nat) in *.
  set (pre1 := pre ++ take k rest) in *.
  assert (i < length pre1)%nat as Hi1
    by (unfold pre1; rewrite length_app, length_take; unfold k; lia).
  pose proof (lazy_not_in_footprint _ _ _ _ _ _ _ Hp1 Hs1) as HsF.
  exists (<[s := OLazy raw (<[i := v]> pre1) inf]> h1),
         (<[i := v]> pre1), (drop k rest).
  assert (<[s := OLazy raw (<[i := v]> pre1) inf]> h1 !! s
          = Some (OLazy raw (<[i := v]> pre1) inf)) as Hs'
    by (apply list_lookup_insert_eq; exact (lookup_lt_Some _ _ _ Hs1)).
  split; [|split; [exact Hs'|split; [|split]]].
  - intros n Hn. unfold __setitem__.
    rewrite (bind_Ret _ _ _ _ _ (get_generated_at _ _ _ _ _ Hs)).
    rewrite (bind_Ret _ _ _ _ _ (Hforce n Hn)).
    rewrite (bind_Ret _ _ _ _ _ (get_generated_at _ _ _ _ _ Hs1)).
    rewrite (bind_Ret _ _ _ _ _ (py_setitem_nat _ _ v _ Hi1)).
    exact (set_generated_at _ _ _ _ _ _ Hs1).
  - exact (proj1 (producer_store _ _ _ _ _ Hp1 HsF)).
  - rewrite <- (take_drop k rest) at 2. rewrite app_assoc. fold pre1.
    symmetry. now apply insert_app_l.
  - intros n. unfold __getitem__, getitem_int.
    rewrite (bind_Ret _ _ _ _ _ (get_generated_at _ _ _ _ _ Hs')).
    replace (Z.of_nat i <? 0) with false by (symmetry; apply Z.ltb_ge; lia).
    replace (Z.of_nat i <? Z.of_nat (length (<[i := v]> pre1))) with true
      by (symmetry; apply Z.ltb_lt; rewrite length_insert; lia).
    apply py_index_nat. now apply list_lookup_insert_eq.
Qed.

(** Over the producer of [1, 2, 3], [s[1] = 9] succeeds. *)
Lemma setitem_then_getitem_witness :
  fst (__setitem__ 7 1%nat 1 (VInt 9)
         [OGen [VInt 1; VInt 2; VInt 3]; OLazy 0 [] false])
  = Ret tt.
Proof.
  destruct (setitem_then_getitem
              [OGen [VInt 1; VInt 2; VInt 3]; OLazy 0 [] false]
              1 0 [] false [VInt 1; VInt 2; VInt 3] 1 (VInt 9)
              eq_refl (or_introl eq_refl) ltac:(simpl; lia))
    as (h' & pre' & rest' & Hrun & _).
  exact (f_equal fst (Hrun 7%nat ltac:(simpl; lia))).
Defined.

(** Assigning at a position at or past the end of a finite sequence: all
    that is left is produced and cached, and the assignment raises
    [IndexError] (where [get] would wrap around). *)
Theorem setitem_beyond_end h s raw pre inf rest (i : nat) v :
  h !! s = Some (OLazy raw pre inf) ->
  producer h raw rest ->
  (length (pre ++ rest) <= i)%nat ->
  exists h',
    (forall n, (length rest + 4 <= n)%nat ->
       __setitem__ n s (Z.of_nat i) v h = (Raise IndexError, h')) /\
    h' !! s = Some (OLazy raw (pre ++ rest) inf) /\
    producer h' raw [].
Proof.
  intros Hs Hp Hi. rewrite length_app in Hi.
  destruct (setitem_forces _ _ _ _ _ _ i Hs Hp) as (h1 & Hforce & Hs1 & Hp1).
  rewrite take_ge in Hs1 by lia. rewrite drop_ge in Hp1 by lia.
  exists h1. split; [|auto].
  intros n Hn. unfold __setitem__.
  rewrite (bind_Ret _ _ _ _ _ (get_generated_at _ _ _ _ _ Hs)).
  rewrite (bind_Ret _ _ _ _ _ (Hforce n Hn)).
  rewrite (bind_Ret _ _ _ _ _ (get_generated_at _ _ _ _ _ Hs1)).
  apply bind_Raise. apply py_setitem_beyond. rewrite length_app. lia.
Qed.

(** Over the producer of [1, 2], [s[2] = 9] raises [IndexError]. *)
Lemma setitem_beyond_end_witness :
  fst (__setitem__ 6 1%nat 2 (VInt 9)
         [OGen [VInt 1; VInt 2]; OLazy 0 [] false])
  = Raise IndexError.
Proof.
  destruct (setitem_beyond_end
              [OGen [VInt 1; VInt 2]; OLazy 0 [] false]
              1 0 [] false [VInt 1; VInt 2] 2 (VInt 9)
              eq_refl (or_introl eq_refl) ltac:(simpl; lia))
    as (h' & Hrun & _).
  exact (f_equal fst (Hrun 6%nat ltac:(simpl; lia))).
Defined.

(** A negative position addresses the cache as it is, not the sequence:
    nothing is produced, the element counted from the end of the cache is
    replaced, and a position before the start of the cache raises
    [IndexError] (so does any negative position while nothing is
    cached). *)
Theorem setitem_negative h s raw pre inf (i : Z) v n :
  h !! s = Some (OLazy raw pre inf) ->
  i < 0 ->
  __setitem__ n s i v h =
  if - Z.of_nat (length pre) <=? i
  then (Ret tt,
        <[s := OLazy raw (<[Z.to_nat (i + Z.of_nat (length pre)) := v]> pre)
                     inf]> h)
  else (Raise IndexError, h).
Proof.
  intros Hs Hi. unfold __setitem__.
  rewrite (bind_Ret _ _ _ _ _ (get_generated_at _ _ _ _ _ Hs)).
  replace (Z.of_nat (length pre) <=? i) with false
    by (symmetry; apply Z.leb_gt; lia).
  rewrite (bind_Ret _ _ h tt h) by reflexivity.
  rewrite (bind_Ret _ _ _ _ _ (get_generated_at _ _ _ _ _ Hs)).
  unfold py_setitem.
  replace (i <? 0) with true by (symmetry; apply Z.ltb_lt; lia).
  replace (i + Z.of_nat (length pre) <? Z.of_nat (length pre)) with true
    by (symmetry; apply Z.ltb_lt; lia).
  rewrite andb_true_r.
  destruct (- Z.of_nat (length pre) <=? i) eqn:E.
  - replace (0 <=? i + Z.of_nat (length pre)) with true
      by (symmetry; apply Z.leb_le; apply Z.leb_le in E; lia).
    rewrite (bind_Ret _ _ h
               (<[Z.to_nat (i + Z.of_nat (length pre)) := v]> pre) h)
      by reflexivity.
    exact (set_generated_at _ _ _ _ _ _ Hs).
  - replace (0 <=? i + Z.of_nat (length pre)) with false
      by (symmetry; apply Z.leb_gt; apply Z.leb_gt in E; lia).
    reflexivity.
Qed.

(** On a sequence with nothing cached, [s[-1] = 9] raises [IndexError]
    and produces nothing. *)
Lemma setitem_negative_witness :
  __setitem__ 0 1%nat (-1) (VInt 9)
    [OGen [VInt 1; VInt 2]; OLazy 0 [] false]
  = (Raise IndexError, [OGen [VInt 1; VInt 2]; OLazy 0 [] false]).
Proof.
  exact (setitem_negative
           [OGen [VInt 1; VInt 2]; OLazy 0 [] false]
           1%nat 0%nat [] false (-1) (VInt 9) 0%nat eq_refl eq_refl).
Defined.

(** ** Reversal *)

(** [itertools.tee] on a producer: two clones that each have what the
    producer had left; a producer that is a clone itself is the first of
    them. *)
Lemma tee_spec h raw rest :
  producer h raw rest ->
  exists c0 c1 b u h1,
    tee raw h = (Ret (c0, c1), h1) /\
    clone h1 c0 b u rest /\ clone h1 c1 b u rest /\
    c0 <> c1 /\ (length h <= c1)%nat /\
    (forall l, (l < length h)%nat -> h1 !! l = h !! l) /\
    ((h !! raw = Some (OGen rest) /\ u = raw) \/ c0 = raw).
Proof.
  intros [Hg | (b & p & u & data & rest0 & Hr & Hb & Hu & Hp & ->)].
  - pose proof (lookup_lt_Some _ _ _ Hg) as Hlt.
    set (b := length h).
    set (h1 := h ++ [OBuf raw []; OTee b 0; OTee b 0]).
    assert (forall l, (l < length h)%nat -> h1 !! l = h !! l) as Hfr
      by (intros l Hl; unfold h1; now apply lookup_app_l).
    assert (forall k o, [OBuf raw []; OTee b 0; OTee b 0] !! k = Some o ->
              h1 !! (b + k)%nat = Some o) as Hnew.
    { intros k o Hk. unfold h1. rewrite lookup_app_r by (unfold b; lia).
      replace (b + k - length h)%nat with k by (unfold b; lia). exact Hk. }
    exists (b + 1)%nat, (b + 2)%nat, b, raw, h1.
    split; [|split; [|split; [|split; [lia|split; [unfold b; lia|split]]]]].
    + unfold tee. rewrite (bind_read _ _ _ _ Hg).
      unfold bind, alloc, ret. simpl.
      rewrite !length_app. simpl length.
      replace (length h + 1 + 1)%nat with (length h + 2)%nat by lia.
      unfold h1, b. rewrite <- !app_assoc. reflexivity.
    + exists 0%nat, [], rest.
      split; [apply (Hnew 1%nat); reflexivity|].
      split; [rewrite <- (Nat.add_0_r b) at 1; now apply Hnew|].
      split; [rewrite Hfr; auto|]. split; [simpl; lia | reflexivity].
    + exists 0%nat, [], rest.
      split; [apply (Hnew 2%nat); reflexivity|].
      split; [rewrite <- (Nat.add_0_r b) at 1; now apply Hnew|].
      split; [rewrite Hfr; auto|]. split; [simpl; lia | reflexivity].
    + exact Hfr.
    + left. auto.
  - pose proof (lookup_lt_Some _ _ _ Hr) as Hltr.
    pose proof (lookup_lt_Some _ _ _ Hb) as Hltb.
    pose proof (lookup_lt_Some _ _ _ Hu) as Hltu.
    set (h1 := h ++ [OTee b p]).
    assert (forall l, (l < length h)%nat -> h1 !! l = h !! l) as Hfr
      by (intros l Hl; unfold h1; now apply lookup_app_l).
    exists raw, (length h), b, u, h1.
    split; [|split; [|split; [|split; [lia|split; [lia|split]]]]].
    + unfold tee. rewrite (bind_read _ _ _ _ Hr). reflexivity.
    + exists p, data, rest0.
      split; [rewrite Hfr by lia; exact Hr|].
      split; [rewrite Hfr by lia; exact Hb|].
      split; [rewrite Hfr by lia; exact Hu|]. auto.
    + exists p, data, rest0.
      split; [unfold h1; now apply list_lookup_middle|].
      split; [rewrite Hfr by lia; exact Hb|].
      split; [rewrite Hfr by lia; exact Hu|]. auto.
    + exact Hfr.
    + now right.
Qed.

(** [list(s.reversed())] is the elements of the sequence in reverse order,
    and everything that was pending is appended to the cache.  The sequence
    keeps its producer: a plain one is left exhausted, so that the sequence
    still has the same elements; a producer that is a [tee] clone (the
    sequence has been iterated before) still has everything pending, so
    that the pending elements are in the sequence twice from then on. *)
Theorem reversed_list_spec h s raw pre inf rest :
  h !! s = Some (OLazy raw pre inf) ->
  producer h raw rest ->
  exists h',
    (forall n, (length rest + 3 <= n)%nat ->
       reversed_list n s h = (Ret (reverse (pre ++ rest)), h')) /\
    h' !! s = Some (OLazy raw (pre ++ rest) inf) /\
    (h !! raw = Some (OGen rest) -> producer h' raw []) /\
    (forall b p, h !! raw = Some (OTee b p) -> producer h' raw rest).
Proof.
  intros Hs Hp.
  pose proof (lookup_lt_Some _ _ _ Hs) as Ls.
  destruct (tee_spec _ _ _ Hp)
    as (c0 & c1 & b & u & h1 & Htee & Hc0 & Hc1 & Hne & Lc1 & Hfr & Hcase).
  assert (h1 !! s = Some (OLazy raw pre inf)) as Hs1 by (rewrite Hfr; auto).
  destruct (clone_kinds _ _ _ _ _ _ _ Hc1 Hs1 eq_refl) as (Hsc & Hsb & Hsu).
  destruct (py_list_iterator c1 2 (fun l => l = s)
              (fun xs h => clone h c1 b u xs /\
                 (h !! s = Some (OLazy raw pre inf) /\ clone h c0 b u rest)))
    with (xs := rest) (h := h1)
    as (h2 & Hlist & (Hc12 & Hs2 & Hc02) & _); auto.
  { apply clone_iterator.
    - intros l ->. auto.
    - intros h0 h0' [H0 Hc] (Hl & Hfr0 & Hsib). split.
      + rewrite Hfr0; auto.
      + apply Hsib; auto. }
  set (h' := <[s := OLazy raw (pre ++ rest) inf]> h2).
  assert (h' !! s = Some (OLazy raw (pre ++ rest) inf)) as Hs'
    by (apply list_lookup_insert_eq; exact (lookup_lt_Some _ _ _ Hs2)).
  destruct (clone_kinds _ _ _ _ _ _ _ Hc02 Hs2 eq_refl) as (Hsc0 & _ & _).
  exists h'. split; [|split; [exact Hs'|split]].
  - intros n Hn. unfold reversed_list.
    rewrite (bind_Ret _ _ _ _ _ (get_generated_at _ _ _ _ _ Hs)).
    rewrite (bind_Ret _ _ _ _ _ (get_raw_object_at _ _ _ _ _ Hs)).
    rewrite (bind_Ret _ _ _ _ _ Htee). simpl snd.
    replace n with (length rest + 2 + 1 + (n - (length rest + 3)))%nat by lia.
    rewrite (bind_Ret _ _ _ _ _ (Hlist _)).
    rewrite (bind_Ret _ _ _ _ _
               (set_generated_at _ _ _ _ _ (pre ++ rest) Hs2)).
    fold h'.
    now rewrite (bind_Ret _ _ _ _ _ (get_generated_at _ _ _ _ _ Hs')).
  - intros Hg. destruct Hcase as [[_ ->] | ->].
    + left. unfold h'. rewrite list_lookup_insert_ne by auto.
      exact (clone_nil_under _ _ _ _ Hc12).
    + destruct Hc0 as (? & ? & ? & Ht & _). rewrite Hfr in Ht by
        exact (lookup_lt_Some _ _ _ Hg). congruence.
  - intros b0 p0 Hr. destruct Hcase as [[Hg _] | ->]; [congruence|].
    apply (clone_producer _ _ b u). unfold h'. apply clone_store; auto.
Qed.

(** With [1] cached and [2, 3] pending, the reversal is [3, 2, 1]. *)
Lemma reversed_list_spec_witness :
  fst (reversed_list 5 1%nat
         [OGen [VInt 2; VInt 3]; OLazy 0 [VInt 1] false])
  = Ret [VInt 3; VInt 2; VInt 1].
Proof.
  destruct (reversed_list_spec
              [OGen [VInt 2; VInt 3]; OLazy 0 [VInt 1] false]
              1 0 [VInt 1] false [VInt 2; VInt 3]
              eq_refl (or_introl eq_refl))
    as (h' & Hrun & _).
  exact (f_equal fst (Hrun 5%nat ltac:(simpl; lia))).
Defined.

(** ** Slices without a stop *)

Lemma slice_from_nil start step : slice_from [] start step = [].
Proof.
  unfold slice_from. destruct (0 <? step).
  - now rewrite drop_nil.
  - now rewrite take_nil.
Qed.

Lemma next_index_S n g st h :
  h !! g = Some (OIndex st) ->
  py_next (S n) g h =
  on_raise
    match st with
    | XStart self start step =>
        listify n self ;;;
        generated <- get_generated self ;;
        write g (OIndex (XYield (slice_from generated start step))) ;;;
        py_next n g
    | XYield [] => raise StopIteration
    | XYield (x :: rest) => write g (OIndex (XYield rest)) ;;; ret x
    | XDone => raise StopIteration
    end
    (store g (OIndex XDone)) h.
Proof. intros H. now rewrite py_next_S, (bind_read _ _ _ _ H). Qed.

(** The first [next] on the generator [infinite_index] returns: [listify]
    empties the cache before the generator slices it, so the generator
    stops without a value.  The sequence is left re-seeded. *)
Lemma next_index_start h g s start step raw pre inf rest :
  h !! g = Some (OIndex (XStart s start step)) ->
  h !! s = Some (OLazy raw pre inf) ->
  producer h raw rest ->
  forallb simple rest = true ->
  exists h' it,
    (forall n, (length rest + 9 <= n)%nat ->
       py_next n g h = (Raise StopIteration, h')) /\
    h' !! g = Some (OIndex XDone) /\
    h' !! s = Some (OLazy it [] inf) /\
    h' !! it = Some (OGen (pre ++ rest)) /\
    (length h <= it)%nat /\
    (forall l, (l < length h)%nat -> l <> s -> l <> g ->
               l ∉ footprint h raw -> h' !! l = h !! l).
Proof.
  intros Hg Hs Hp Hsim.
  destruct (listify_simple _ _ _ _ _ _ Hs Hp Hsim)
    as (h1 & it & Hlist & Hs1 & Hit & Lit & _ & Hfr).
  pose proof (lookup_lt_Some _ _ _ Hg) as Lg.
  assert (g <> s) as Hgs by (intros ->; congruence).
  assert (g ∉ footprint h raw) as HgF.
  { intros Hin. destruct (footprint_plain _ _ _ _ Hp Hin) as (o & Ho & Hk).
    rewrite Hg in Ho. injection Ho as <-. discriminate. }
  assert (h1 !! g = Some (OIndex (XStart s start step))) as Hg1
    by (rewrite Hfr; auto).
  set (h2 := <[g := OIndex (XYield [])]> h1).
  assert (h2 !! g = Some (OIndex (XYield []))) as Hg2
    by (apply list_lookup_insert_eq; exact (lookup_lt_Some _ _ _ Hg1)).
  set (h3 := <[g := OIndex XDone]> h2).
  exists (<[g := OIndex XDone]> h3), it.
  assert (length h3 = length h1) as L3
    by (unfold h3, h2; now rewrite !length_insert).
  pose proof (lookup_lt_Some _ _ _ Hg1) as Lg1.
  split; [|split; [|split; [|split; [|split]]]].
  - intros n Hn. destruct n as [|[|n]]; try lia.
    rewrite (next_index_S _ _ _ _ Hg).
    apply on_raise_Raise.
    rewrite (bind_Ret _ _ _ _ _ (Hlist (S n) ltac:(lia))).
    rewrite (bind_Ret _ _ _ _ _ (get_generated_at _ _ _ _ _ Hs1)).
    rewrite slice_from_nil.
    rewrite (bind_Ret _ _ h1 tt h2) by reflexivity.
    rewrite (next_index_S _ _ _ _ Hg2).
    now apply on_raise_Raise.
  - apply list_lookup_insert_eq. lia.
  - rewrite list_lookup_insert_ne by auto. unfold h3, h2.
    rewrite !list_lookup_insert_ne by auto. exact Hs1.
  - rewrite list_lookup_insert_ne by lia. unfold h3, h2.
    rewrite !list_lookup_insert_ne by lia. exact Hit.
  - exact Lit.
  - intros l Hl Hls Hlg HlF. rewrite list_lookup_insert_ne by auto.
    unfold h3, h2. rewrite !list_lookup_insert_ne by auto. now apply Hfr.
Qed.

(** A fresh iteration of a sequence over a generator that has not been
    iterated before: the generator gets a buffer and two clones. *)
Lemma iter_fresh_index h N st :
  N = length h ->
  __iter__ (N + 1)%nat (h ++ [OIndex st; OLazy N [] false]) =
  (Ret (N + 5)%nat,
   h ++ [OIndex st;
         OLazy (N + 3) [] false;
         OBuf N [];
         OTee (N + 2) 0;
         OTee (N + 2) 0;
         OJoin (JStart (VList []) (VIter (N + 4)))]).
Proof.
  intros HN.
  set (h1 := h ++ [OIndex st; OLazy N [] false]).
  assert (h1 !! (N + 1)%nat = Some (OLazy N [] false)) as Hc
    by (unfold h1; rewrite lookup_app_plus by exact HN; reflexivity).
  assert (h1 !! N = Some (OIndex st)) as Hj.
  { unfold h1. rewrite <- (Nat.add_0_r N) at 1.
    rewrite lookup_app_plus by exact HN. reflexivity. }
  assert (length h1 = (N + 2)%nat) as Hl1
    by (unfold h1; rewrite length_app, HN; reflexivity).
  unfold __iter__.
  rewrite (bind_Ret _ _ _ _ _ (get_raw_object_at _ _ _ _ _ Hc)).
  set (h2 := h1 ++ [OBuf N []; OTee (N + 2) 0; OTee (N + 2) 0]).
  rewrite (bind_Ret _ _ h1 ((N + 3)%nat, (N + 4)%nat) h2).
  2:{ unfold tee. rewrite (bind_read _ _ _ _ Hj).
      unfold bind, alloc, ret. rewrite !length_app, Hl1. simpl length.
      unfold h2. rewrite <- !app_assoc. simpl.
      replace (N + 2 + 1)%nat with (N + 3)%nat by lia.
      replace (N + 3 + 1)%nat with (N + 4)%nat by lia. reflexivity. }
  assert (h2 !! (N + 1)%nat = Some (OLazy N [] false)) as Hc2
    by (unfold h2; rewrite lookup_app_l by lia; exact Hc).
  simpl fst. simpl snd.
  rewrite (bind_Ret _ _ _ _ _ (set_raw_object_at _ _ _ _ _ (N + 3)%nat Hc2)).
  set (h3 := <[(N + 1)%nat := OLazy (N + 3) [] false]> h2).
  assert (h3 !! (N + 1)%nat = Some (OLazy (N + 3) [] false)) as Hc3.
  { unfold h3. apply list_lookup_insert_eq. unfold h2.
    rewrite length_app, Hl1. simpl. lia. }
  rewrite (bind_Ret _ _ _ _ _ (get_generated_at _ _ _ _ _ Hc3)).
  unfold join_with, alloc. f_equal.
  - unfold h3, h2. rewrite length_insert, length_app, Hl1. simpl length.
    f_equal. lia.
  - unfold h3, h2, h1. rewrite <- !app_assoc. simpl.
    rewrite (insert_app_plus _ _ N) by exact HN. simpl.
    rewrite <- app_assoc. reflexivity.
Qed.

(** Draining the generator [__iter__] returns when the cache is empty and
    the producer under the buffer stops at once. *)
Lemma drain_empty_iteration h j c1 b g K h' :
  h !! j = Some (OJoin (JStart (VList []) (VIter c1))) ->
  h !! c1 = Some (OTee b 0) ->
  h !! b = Some (OBuf g []) ->
  j <> c1 -> j <> b ->
  (forall n, (K <= n)%nat ->
     py_next n g (<[j := OJoin (JRight c1)]>
                    (<[j := OJoin (JLeft (length h) (VIter c1))]>
                       (h ++ [OGen []])))
     = (Raise StopIteration, h')) ->
  forall n, (K + 5 <= n)%nat ->
    py_list n j h
    = (Ret [], <[j := OJoin JDone]>
                 (<[j := OJoin JDone]> (<[j := OJoin JDone]> h'))).
Proof.
  intros Hj Hc Hb Hjc Hjb Hg n Hn.
  pose proof (lookup_lt_Some _ _ _ Hj) as Lj.
  pose proof (lookup_lt_Some _ _ _ Hc) as Lc.
  pose proof (lookup_lt_Some _ _ _ Hb) as Lb.
  set (h3 := h ++ [OGen []]).
  set (h4 := <[j := OJoin (JLeft (length h) (VIter c1))]> h3).
  set (h5 := <[j := OJoin (JRight c1)]> h4) in *.
  assert (length h3 = S (length h)) as L3
    by (unfold h3; rewrite length_app; simpl; lia).
  assert (h4 !! j = Some (OJoin (JLeft (length h) (VIter c1)))) as Hj4
    by (apply list_lookup_insert_eq; lia).
  assert (h4 !! length h = Some (OGen [])) as Hl4.
  { unfold h4. rewrite list_lookup_insert_ne by lia.
    unfold h3. now apply list_lookup_middle. }
  assert (h5 !! j = Some (OJoin (JRight c1))) as Hj5
    by (apply list_lookup_insert_eq; unfold h4; rewrite length_insert; lia).
  assert (h5 !! c1 = Some (OTee b 0)) as Hc5.
  { unfold h5, h4. rewrite !list_lookup_insert_ne by auto.
    unfold h3. now rewrite lookup_app_l. }
  assert (h5 !! b = Some (OBuf g [])) as Hb5.
  { unfold h5, h4. rewrite !list_lookup_insert_ne by auto.
    unfold h3. now rewrite lookup_app_l. }
  destruct n as [|[|[|[|[|n]]]]]; try lia.
  rewrite py_list_S. apply try_stop_Stop.
  apply bind_Raise.
  rewrite (next_join_start _ _ _ _ _ Hj). apply on_raise_Raise.
  unfold py_iter at 1.
  rewrite (bind_Ret _ _ h (length h) h3) by reflexivity.
  rewrite (bind_Ret _ _ h3 tt h4) by reflexivity.
  rewrite (next_join_left _ _ _ _ _ Hj4). apply on_raise_Raise.
  rewrite (try_stop_Stop _ _ _ h4) by (now apply next_gen_nil).
  unfold py_iter.
  rewrite (bind_Ret _ _ h4 c1 h4) by reflexivity.
  rewrite (bind_Ret _ _ h4 tt h5) by reflexivity.
  rewrite (next_join_right _ _ _ _ Hj5). apply on_raise_Raise.
  apply (next_tee_stop _ _ _ _ _ _ _ _ _ Hc5 Hb5); [reflexivity|].
  apply Hg. lia.
Qed.

(** A slice without a stop returns a new sequence over a generator and
    does nothing else.  A fresh iteration of that sequence yields nothing,
    whatever the start and the step: the generator calls [listify], which
    empties the cache, and then slices the cache.  The sliced sequence is
    left re-seeded with all its elements. *)
Theorem slice_unbounded_empty h s raw pre inf rest (start step : option Z) :
  h !! s = Some (OLazy raw pre inf) ->
  producer h raw rest ->
  forallb simple rest = true ->
  exists s2 h1 j h2 h3 it,
    (forall n, __getitem__ n s (PSlice start None step) h
               = (Ret (VLazy s2), h1)) /\
    h1 !! s = Some (OLazy raw pre inf) /\
    __iter__ s2 h1 = (Ret j, h2) /\
    (forall n, (length rest + 14 <= n)%nat ->
       py_list n j h2 = (Ret [], h3)) /\
    h3 !! s = Some (OLazy it [] inf) /\
    h3 !! it = Some (OGen (pre ++ rest)).
Proof.
  intros Hs Hp Hsim.
  set (N := length h).
  set (st := XStart s (or_default start 0) (or_default step 1)).
  set (h1 := h ++ [OIndex st; OLazy N [] false]).
  set (h2 := h ++ [OIndex st; OLazy (N + 3) [] false; OBuf N [];
                   OTee (N + 2) 0; OTee (N + 2) 0;
                   OJoin (JStart (VList []) (VIter (N + 4)))]).
  pose proof (lookup_lt_Some _ _ _ Hs) as Ls. fold N in Ls.
  assert (forall k o,
            [OIndex st; OLazy (N + 3) [] false; OBuf N [];
             OTee (N + 2) 0; OTee (N + 2) 0;
             OJoin (JStart (VList []) (VIter (N + 4)))] !! k = Some o ->
            h2 !! (N + k)%nat = Some o) as Hnew.
  { intros k o Hk. unfold h2. now rewrite lookup_app_plus. }
  assert (length h2 = (N + 6)%nat) as L2
    by (unfold h2; rewrite length_app; reflexivity).
  set (j := (N + 5)%nat).
  set (h5 := <[j := OJoin (JRight (N + 4)%nat)]>
               (<[j := OJoin (JLeft (length h2) (VIter (N + 4)%nat))]>
                  (h2 ++ [OGen []]))).
  assert (forall l, (l < N)%nat -> h5 !! l = h !! l) as Hold.
  { intros l Hl. unfold h5. rewrite !list_lookup_insert_ne by (unfold j; lia).
    rewrite lookup_app_l by lia. unfold h2. now apply lookup_app_l. }
  assert (h5 !! N = Some (OIndex st)) as Hg5.
  { unfold h5. rewrite !list_lookup_insert_ne by (unfold j; lia).
    rewrite lookup_app_l by lia. rewrite <- (Nat.add_0_r N) at 1.
    now apply Hnew. }
  assert (h5 !! s = Some (OLazy raw pre inf)) as Hs5
    by (rewrite Hold; auto).
  assert (producer h5 raw rest) as Hp5.
  { apply (producer_stable h); auto.
    intros l Hl. apply Hold. exact (footprint_lt _ _ _ _ Hp Hl). }
  destruct (next_index_start h5 N s _ _ raw pre inf rest Hg5 Hs5 Hp5 Hsim)
    as (h6 & it & Hnext & _ & Hs6 & Hit6 & Lit & _).
  assert (length h5 = (N + 7)%nat) as L5.
  { unfold h5. rewrite !length_insert, length_app, L2. simpl. lia. }
  exists (N + 1)%nat, h1, j, h2,
    (<[j := OJoin JDone]> (<[j := OJoin JDone]> (<[j := OJoin JDone]> h6))),
    it.
  split; [|split; [|split; [|split; [|split]]]].
  - intros n. unfold __getitem__, __init__, py_iter.
    unfold bind, alloc, ret. rewrite length_app. simpl length.
    unfold h1, st, N. now rewrite <- app_assoc.
  - unfold h1. rewrite lookup_app_l by exact Ls. exact Hs.
  - now apply iter_fresh_index.
  - intros n Hn.
    apply (drain_empty_iteration h2 j (N + 4)%nat (N + 2)%nat N
             (length rest + 9)).
    + apply (Hnew 5%nat). reflexivity.
    + apply (Hnew 4%nat). reflexivity.
    + apply (Hnew 2%nat). reflexivity.
    + unfold j. lia.
    + unfold j. lia.
    + exact Hnext.
    + lia.
  - rewrite !list_lookup_insert_ne by (unfold j; lia). exact Hs6.
  - rewrite !list_lookup_insert_ne by (unfold j; lia). exact Hit6.
Qed.

(** The example of the specification, [s[1::2]] over [1, 2, 3, 4, 5],
    yields nothing. *)
Lemma slice_unbounded_empty_witness :
  fst ((r <- __getitem__ 0 0%nat (PSlice (Some 1) None (Some 2)) ;;
        it <- py_iter r ;;
        py_list 19 it)
         [OLazy 1 [] false; OGen (map VInt [1; 2; 3; 4; 5])])
  = Ret [].
Proof.
  destruct (slice_unbounded_empty
              [OLazy 1 [] false; OGen (map VInt [1; 2; 3; 4; 5])]
              0 1 [] false (map VInt [1; 2; 3; 4; 5]) (Some 1) (Some 2)
              eq_refl (or_introl eq_refl) eq_refl)
    as (s2 & h1 & j & h2 & h3 & it & Hget & _ & Hiter & Hlist & _).
  rewrite (bind_Ret _ _ _ _ _ (Hget 0%nat)). unfold py_iter.
  rewrite (bind_Ret _ _ _ _ _ Hiter).
  now rewrite (Hlist 19%nat ltac:(simpl; lia)).
Defined.

(** ** Slices with a negative stop, and [len] *)

(** A negative stop counts from the end: the sequence is materialized by
    [listify] to learn its length, and the slice is then taken like one
    with the stop [len + stop]. *)
Theorem getitem_slice_negative_stop h s raw pre inf rest
    (start step : option Z) (stop : Z) :
  h !! s = Some (OLazy raw pre inf) ->
  producer h raw rest ->
  forallb simple rest = true ->
  0 <= or_default start 0 ->
  - Z.of_nat (length (pre ++ rest)) <= stop < 0 ->
  exists h',
    forall n, (length (pre ++ rest) + 7 <= n)%nat ->
      __getitem__ n s (PSlice start (Some stop) step) h
      = (Ret (VList (map (fun i => cyclic (pre ++ rest) (Z.to_nat i))
                         (py_range (or_default start 0)
                                   (Z.of_nat (length (pre ++ rest)) + stop)
                                   (or_default step 1)))), h').
Proof.
  intros Hs Hp Hsim Hstart Hstop.
  destruct (listify_simple _ _ _ _ _ _ Hs Hp Hsim)
    as (h1 & it & Hlist & Hs1 & Hit & _).
  assert (0 <= Z.of_nat (length (pre ++ rest)) + stop) as Hstop' by lia.
  destruct (getitem_each_cyclic s it inf
              (py_range (or_default start 0)
                        (Z.of_nat (length (pre ++ rest)) + stop)
                        (or_default step 1))
              (py_range_nonneg _ _ _ Hstart Hstop' (or_default_step step))
              h1 [] (pre ++ rest) Hs1 (or_introl Hit))
    as (h' & pre' & rest' & Heach & _).
  exists h'. intros n Hn. unfold __getitem__.
  replace (stop <? 0) with true by (symmetry; apply Z.ltb_lt; lia).
  rewrite length_app in Hn.
  rewrite (bind_Ret _ _ h (Z.of_nat (length (pre ++ rest)) + stop) h1).
  2:{ now rewrite (bind_Ret _ _ _ _ _ (Hlist n ltac:(lia))). }
  rewrite (bind_Ret _ _ _ _ _ (Heach n ltac:(rewrite length_app; lia))).
  reflexivity.
Qed.

(** [s = LazyList([1, 2, 3, 4, 5]); s[1:-1]] is [[2, 3, 4]]. *)
Lemma getitem_slice_negative_stop_witness :
  fst (__getitem__ 12 1%nat (PSlice (Some 1) (Some (-1)) None)
         [OGen (map VInt [1; 2; 3; 4; 5]); OLazy 0 [] false])
  = Ret (VList (map VInt [2; 3; 4])).
Proof.
  destruct (getitem_slice_negative_stop
              [OGen (map VInt [1; 2; 3; 4; 5]); OLazy 0 [] false]
              1 0 [] false (map VInt [1; 2; 3; 4; 5]) (Some 1) None (-1)
              eq_refl (or_introl eq_refl) eq_refl
              ltac:(simpl; lia) ltac:(simpl; lia))
    as (h' & Hrun).
  exact (f_equal fst (Hrun 12%nat ltac:(simpl; lia))).
Defined.

(** A fresh iteration, drained: the cached values followed by the pending
    ones. *)
Lemma iterate_all h s raw pre inf rest :
  h !! s = Some (OLazy raw pre inf) ->
  producer h raw rest ->
  exists j h1 h2,
    __iter__ s h = (Ret j, h1) /\
    forall n, (length (pre ++ rest) + 6 <= n)%nat ->
      py_list n j h1 = (Ret (pre ++ rest), h2).
Proof.
  intros Hs Hp.
  destruct (iter_spec _ _ _ _ _ _ Hs Hp)
    as (j & c0 & c1 & b & u & h1 & Hiter & Hs1 & Hj1 & Hc0 & Hc1 & _ & Hne &
        _ & _ & _ & _ & _).
  destruct (clone_kinds _ _ _ _ _ _ _ Hc1 Hj1 eq_refl) as (Hjc & Hjb & Hju).
  destruct (clone_lt _ _ _ _ _ Hc1) as (Lc & Lb & Lu).
  pose proof (lookup_lt_Some _ _ _ Hj1) as Lj.
  destruct (iteration_list j c1 b u pre rest (length h1) (fun _ => True)
              (fun _ => False)) with (h := h1) as (h2 & Hlist & _); auto.
  - intros l [].
  - repeat split; auto.
  - exists j, h1, h2. split; [exact Hiter|].
    intros n Hn.
    replace n with (length (pre ++ rest) + 6
                    + (n - (length (pre ++ rest) + 6)))%nat by lia.
    apply Hlist.
Qed.

(** [len(s)] is the number of elements, cached or pending; it goes through
    [listify], and a fresh iteration afterwards still yields all of
    them. *)
Theorem len_keeps_elements h s raw pre inf rest :
  h !! s = Some (OLazy raw pre inf) ->
  producer h raw rest ->
  forallb simple rest = true ->
  exists h1 j h2 h3,
    (forall n, (length rest + 7 <= n)%nat ->
       __len__ n s h = (Ret (Z.of_nat (length (pre ++ rest))), h1)) /\
    __iter__ s h1 = (Ret j, h2) /\
    (forall n, (length (pre ++ rest) + 6 <= n)%nat ->
       py_list n j h2 = (Ret (pre ++ rest), h3)).
Proof.
  intros Hs Hp Hsim.
  destruct (listify_simple _ _ _ _ _ _ Hs Hp Hsim)
    as (h1 & it & Hlist & Hs1 & Hit & _).
  destruct (iterate_all h1 s it [] inf (pre ++ rest) Hs1 (or_introl Hit))
    as (j & h2 & h3 & Hiter & Hdrain).
  exists h1, j, h2, h3. split; [|split; [exact Hiter | exact Hdrain]].
  intros n Hn. unfold __len__.
  now rewrite (bind_Ret _ _ _ _ _ (Hlist n Hn)).
Qed.

(** With [1] cached and [2, 3] pending, [len(s)] is [3]. *)
Lemma len_keeps_elements_witness :
  fst (__len__ 9 1%nat [OGen [VInt 2; VInt 3]; OLazy 0 [VInt 1] false])
  = Ret 3.
Proof.
  destruct (len_keeps_elements
              [OGen [VInt 2; VInt 3]; OLazy 0 [VInt 1] false]
              1 0 [VInt 1] false [VInt 2; VInt 3]
              eq_refl (or_introl eq_refl) eq_refl)
    as (h1 & j & h2 & h3 & Hrun & _).
  exact (f_equal fst (Hrun 9%nat ltac:(simpl; lia))).
Defined.

(** ** A fresh iteration over any iterator

    The generator [j] that [__iter__] returns for a sequence whose producer
    [u] is not a [tee] clone: [j] joins the snapshot [pre] of the cache
    with the clone [t] of the new buffer [b] over [u].  [Inv] is the
    invariant of [u], [Pu] what [u] leaves alone. *)
Lemma fresh_iteration_list j t b u K (Pu : loc -> Prop)
    (Inv : list value -> heap -> Prop) pre xs h :
  iterator u K Pu Inv ->
  Pu j -> Pu t -> Pu b -> j <> t -> j <> b -> t <> b ->
  (forall l, Pu l -> (l < length h)%nat) ->
  stable_at j Inv -> stable_at t Inv -> stable_at b Inv ->
  (forall l, (length h <= l)%nat -> stable_at l Inv) ->
  (forall ys h' o, Inv ys h' -> Inv ys (h' ++ [o])) ->
  h !! j = Some (OJoin (JStart (VList pre) (VIter t))) ->
  h !! t = Some (OTee b 0) ->
  h !! b = Some (OBuf u []) ->
  Inv xs h ->
  exists h',
    forall n, py_list (length (pre ++ xs) + (K + 5) + n) j h
              = (Ret (pre ++ xs), h').
Proof.
  intros Hit Pj Pt Pb Hjt Hjb Htb Hfresh Sj St Sb Snew Salloc Hj Ht Hb Hinv.
  pose proof (lookup_lt_Some _ _ _ Hj) as Lj.
  pose proof (lookup_lt_Some _ _ _ Ht) as Lt.
  pose proof (lookup_lt_Some _ _ _ Hb) as Lb.
  set (P := tee_protected t b Pu).
  set (A := fun h' : heap =>
              h' !! t = Some (OTee b 0) /\ h' !! b = Some (OBuf u []) /\
              Inv xs h' /\ (length h <= length h')%nat).
  set (InvL := fun (lit : loc) (l1 : list value) (h' : heap) =>
                 h' !! lit = Some (OGen l1) /\
                 ((length h <= lit)%nat /\ tee_inv t b u Inv xs h')).
  set (InvR := fun (rit : loc) (ys : list value) (h' : heap) =>
                 rit = t /\ tee_inv t b u Inv ys h').
  assert (iterator j (K + 1 + 3) (join_protected j P)
            (join_inv j (VList pre) (VIter t) A InvL InvR pre xs)) as Hjoin.
  { apply (join_iterator j (VList pre) (VIter t) (K + 1) P A InvL InvR).
    - repeat split; auto.
    - intros h' (Ht' & Hb' & Hi' & Hlen).
      exists (length h'), (h' ++ [OGen pre]). split; [reflexivity|].
      split; [|apply preserves_alloc].
      split; [now apply list_lookup_middle|]. split; [exact Hlen|].
      exists 0%nat, [], xs.
      rewrite !lookup_app_l
        by (first [exact (lookup_lt_Some _ _ _ Ht')
                  | exact (lookup_lt_Some _ _ _ Hb')]).
      split; [exact Ht'|]. split; [exact Hb'|]. split; [simpl; lia|].
      split; [now apply Salloc | reflexivity].
    - intros lit.
      apply (iterator_weaken lit 1 (K + 1) P P); [auto | lia |].
      apply (gen_iterator lit P
               (fun h' => (length h <= lit)%nat /\ tee_inv t b u Inv xs h')).
      + intros h' [Hlit _] (Hp & _). specialize (Hfresh _ Hp). lia.
      + intros h' o [Hlit Hi']. split; [exact Hlit|].
        apply tee_inv_stable; auto; lia.
    - intros lit l1 h' o (Hg & Hlit & Hi').
      split; [rewrite list_lookup_insert_ne by lia; exact Hg|].
      split; [exact Hlit|]. now apply tee_inv_stable.
    - intros lit h' (_ & _ & Hi').
      exists t, h'. split; [reflexivity|].
      split; [now split | apply preserves_refl].
    - apply iterator_guard. now apply tee_iterator.
    - intros rit ys h' o [-> Hi']. split; [reflexivity|].
      now apply tee_inv_stable. }
  destruct (py_list_iterator _ _ _ _ Hjoin (pre ++ xs) h) as (h' & Hl & _).
  { left. split; [exact Hj|]. split; [|reflexivity].
    repeat split; auto. }
  exists h'. intros n.
  replace (length (pre ++ xs) + (K + 5) + n)%nat
    with (length (pre ++ xs) + (K + 1 + 3) + 1 + n)%nat by lia.
  apply Hl.
Qed.

(** [__iter__] on a sequence whose producer is not a [tee] clone: the
    buffer, the two clones and the generator are allocated, and the
    sequence keeps the first clone. *)
Lemma iter_fresh h s m pre inf o :
  h !! s = Some (OLazy m pre inf) ->
  h !! m = Some o ->
  (forall b p, o <> OTee b p) ->
  __iter__ s h =
  (Ret (length h + 3)%nat,
   <[s := OLazy (length h + 1) pre inf]>
     (h ++ [OBuf m []; OTee (length h) 0; OTee (length h) 0])
   ++ [OJoin (JStart (VList pre) (VIter (length h + 2)))]).
Proof.
  intros Hs Hm Ho.
  pose proof (lookup_lt_Some _ _ _ Hs) as Ls.
  set (L := length h).
  set (h1 := h ++ [OBuf m []; OTee L 0; OTee L 0]).
  assert (tee m h = (Ret ((L + 1)%nat, (L + 2)%nat), h1)) as Htee.
  { unfold tee. rewrite (bind_read _ _ _ _ Hm).
    destruct o; try (exfalso; eapply Ho; reflexivity);
      unfold bind, alloc, ret; rewrite !length_app; simpl length;
      unfold h1, L; rewrite <- !app_assoc; simpl;
      replace (length h + 1 + 1)%nat with (length h + 2)%nat by lia;
      reflexivity. }
  assert (h1 !! s = Some (OLazy m pre inf)) as Hs1
    by (unfold h1; rewrite lookup_app_l; auto).
  assert (length h1 = (L + 3)%nat) as L1
    by (unfold h1; rewrite length_app; reflexivity).
  unfold __iter__.
  rewrite (bind_Ret _ _ _ _ _ (get_raw_object_at _ _ _ _ _ Hs)).
  rewrite (bind_Ret _ _ _ _ _ Htee). simpl fst. simpl snd.
  rewrite (bind_Ret _ _ _ _ _ (set_raw_object_at _ _ _ _ _ (L + 1)%nat Hs1)).
  assert (<[s := OLazy (L + 1) pre inf]> h1 !! s
          = Some (OLazy (L + 1) pre inf)) as Hs2
    by (apply list_lookup_insert_eq; lia).
  rewrite (bind_Ret _ _ _ _ _ (get_generated_at _ _ _ _ _ Hs2)).
  unfold join_with, alloc. now rewrite length_insert, L1.
Qed.

(** ** What [vyxalify] makes of an iterable *)

Lemma vyxalify_pure x y h : vyxalified x = Some y -> vyxalify x h = (Ret y, h).
Proof.
  destruct x; simpl; intros E; try discriminate;
    injection E as <-; try reflexivity.
  unfold vyxalify, vyxalify_with, sym_rational.
  now destruct (Pos.eqb (Qden (Qred q)) 1).
Qed.

(** The map object [map(vyxalify, it)] yields [vyxalify] of what [it]
    yields. *)
Lemma map_vyxalify_iterator it m K (P : loc -> Prop) Inv :
  iterator it K P Inv -> P m ->
  iterator m (K + 1) P
    (fun xs h => exists ys,
       Forall2 (fun y x => vyxalified y = Some x) ys xs /\
       Inv ys h /\ h !! m = Some (OMap MVyxalify it)).
Proof.
  intros Hit Pm xs h (ys & Hall & Hinv & Hm).
  pose proof (Hit ys h Hinv) as Hstep.
  destruct Hall as [|y x ys xs Hyx Hall]; simpl in *;
    destruct Hstep as (h' & Hn & Hi & Hp); exists h'.
  - split; [|split; [|exact Hp]].
    + intros n. replace (K + 1 + n)%nat with (S (K + n)) by lia.
      rewrite py_next_S, (bind_read _ _ _ _ Hm).
      now rewrite (bind_Raise _ _ _ _ _ (Hn n)).
    + exists []. split; [constructor|]. split; [exact Hi|].
      exact (preserves_lookup _ _ _ _ _ Hp Pm Hm).
  - split; [|split; [|exact Hp]].
    + intros n. replace (K + 1 + n)%nat with (S (K + n)) by lia.
      rewrite (next_map_vyxalify _ _ _ _ _ _ Hm (Hn n)).
      now apply vyxalify_pure.
    + exists ys. split; [exact Hall|]. split; [exact Hi|].
      exact (preserves_lookup _ _ _ _ _ Hp Pm Hm).
Qed.

(** [vyxalify] of a native container that is not a list, and of an
    iterator: the iterator [iter(v)], the map object over it and the new
    sequence are allocated, and nothing is produced. *)
Lemma vyxalify_tuple l h :
  vyxalify (VTuple l) h
  = (Ret (VLazy (length h + 2)),
     h ++ [OGen l; OMap MVyxalify (length h); OLazy (length h + 1) [] false]).
Proof.
  unfold vyxalify, vyxalify_with, py_map, __init__, py_iter.
  unfold bind, alloc, ret. rewrite !length_app. simpl length.
  rewrite <- !app_assoc. simpl.
  now replace (length h + 1 + 1)%nat with (length h + 2)%nat by lia.
Qed.

Lemma vyxalify_iterator it h :
  vyxalify (VIter it) h
  = (Ret (VLazy (length h + 1)),
     h ++ [OMap MVyxalify it; OLazy (length h) [] false]).
Proof.
  unfold vyxalify, vyxalify_with, py_map, __init__, py_iter.
  unfold bind, alloc, ret. rewrite !length_app. simpl length.
  now rewrite <- !app_assoc.
Qed.

(** A step of the sequence [vyxalify] builds: [next] pulls one value from
    the iterator under the map object and returns and caches [vyxalify] of
    it. *)
Lemma next_vyxalified n s m it g h0 x h1 y h2 :
  h0 !! s = Some (OLazy m g false) ->
  h0 !! m = Some (OMap MVyxalify it) ->
  py_next n it h0 = (Ret x, h1) ->
  vyxalify x h1 = (Ret y, h2) ->
  h2 !! s = Some (OLazy m g false) ->
  __next__ (S (S n)) s h0 = (Ret y, <[s := OLazy m (g ++ [y]) false]> h2).
Proof.
  intros Hs Hm Hx Hy Hs2.
  apply (next_lazy _ _ _ _ _ _ _ _ _ _ _ Hs); [|exact Hs2].
  now rewrite (next_map_vyxalify _ _ _ _ _ _ Hm Hx).
Qed.

(** A fresh iteration of the sequence [vyxalify] builds from a native
    container yields [vyxalify] of every element, in order. *)
Lemma vyxalify_tuple_iteration l l' h :
  Forall2 (fun y x => vyxalified y = Some x) l l' ->
  exists j h2 h3,
    __iter__ (length h + 2)%nat
      (h ++ [OGen l; OMap MVyxalify (length h); OLazy (length h + 1) [] false])
    = (Ret j, h2) /\
    forall n, (length l + 7 <= n)%nat -> py_list n j h2 = (Ret l', h3).
Proof.
  intros Hall.
  set (N := length h).
  set (h1 := h ++ [OGen l; OMap MVyxalify N; OLazy (N + 1) [] false]).
  assert (length h1 = (N + 3)%nat) as L1
    by (unfold h1; rewrite length_app; reflexivity).
  assert (forall k o,
            [OGen l; OMap MVyxalify N; OLazy (N + 1) [] false] !! k = Some o ->
            h1 !! (N + k)%nat = Some o) as Hnew
    by (intros k o Hk; unfold h1; now rewrite lookup_app_plus).
  assert (h1 !! N = Some (OGen l)) as Hg1
    by (rewrite <- (Nat.add_0_r N) at 1; now apply Hnew).
  pose proof (Hnew 1%nat _ eq_refl) as Hm1.
  pose proof (Hnew 2%nat _ eq_refl) as Hs1.
  set (L := length h1) in *.
  set (h2 := <[(N + 2)%nat := OLazy (L + 1) [] false]>
               (h1 ++ [OBuf (N + 1) []; OTee L 0; OTee L 0])
             ++ [OJoin (JStart (VList []) (VIter (L + 2)))]).
  assert (length (<[(N + 2)%nat := OLazy (L + 1) [] false]>
                    (h1 ++ [OBuf (N + 1) []; OTee L 0; OTee L 0]))
          = (L + 3)%nat) as L2'
    by (rewrite length_insert, length_app; reflexivity).
  assert (length h2 = (L + 4)%nat) as L2
    by (unfold h2; rewrite length_app, L2'; simpl; lia).
  assert (forall i, (i < L + 3)%nat -> i <> (N + 2)%nat ->
            h2 !! i = (h1 ++ [OBuf (N + 1) []; OTee L 0; OTee L 0]) !! i)
    as Hmid.
  { intros i Hi Hne. unfold h2. rewrite lookup_app_l by lia.
    now rewrite list_lookup_insert_ne by auto. }
  assert (h2 !! (L + 3)%nat
          = Some (OJoin (JStart (VList []) (VIter (L + 2))))) as Hj2.
  { unfold h2. rewrite lookup_app_r by lia. rewrite L2'.
    now replace (L + 3 - (L + 3))%nat with 0%nat by lia. }
  assert (h2 !! (L + 2)%nat = Some (OTee L 0)) as Ht2
    by (rewrite Hmid by lia; now rewrite lookup_app_plus).
  assert (h2 !! L = Some (OBuf (N + 1) [])) as Hb2.
  { rewrite Hmid by lia. rewrite <- (Nat.add_0_r L) at 1.
    now rewrite lookup_app_plus. }
  assert (h2 !! N = Some (OGen l)) as Hg2
    by (rewrite Hmid by lia; rewrite lookup_app_l by lia; exact Hg1).
  assert (h2 !! (N + 1)%nat = Some (OMap MVyxalify N)) as Hm2
    by (rewrite Hmid by lia; rewrite lookup_app_l by lia; exact Hm1).
  set (Pu := fun l0 : loc => l0 <> N /\ (l0 < length h2)%nat).
  set (Inv := fun (xs : list value) (h' : heap) => exists ys,
                Forall2 (fun y x => vyxalified y = Some x) ys xs /\
                (h' !! N = Some (OGen ys) /\ True) /\
                h' !! (N + 1)%nat = Some (OMap MVyxalify N)).
  assert (forall l0, l0 <> N -> l0 <> (N + 1)%nat -> stable_at l0 Inv)
    as Hstable.
  { intros l0 H0 H1 xs h' o (ys & Hf & [Hg _] & Hm).
    exists ys. rewrite !list_lookup_insert_ne by auto. auto. }
  destruct (fresh_iteration_list (L + 3)%nat (L + 2)%nat L (N + 1)%nat 2
              Pu Inv [] l' h2) as (h3 & Hlist).
  - apply (map_vyxalify_iterator N (N + 1)%nat 1 Pu
             (fun ys h' => h' !! N = Some (OGen ys) /\ True)).
    + apply gen_iterator.
      * intros h' _ [Hne _]. now apply Hne.
      * auto.
    + split; lia.
  - split; lia.
  - split; lia.
  - split; lia.
  - lia.
  - lia.
  - lia.
  - intros l0 [_ Hl0]. exact Hl0.
  - apply Hstable; lia.
  - apply Hstable; lia.
  - apply Hstable; lia.
  - intros l0 Hl0. apply Hstable; lia.
  - intros ys h' o (zs & Hf & [Hg _] & Hm). exists zs.
    rewrite !lookup_app_l
      by (first [exact (lookup_lt_Some _ _ _ Hg)
                | exact (lookup_lt_Some _ _ _ Hm)]).
    auto.
  - exact Hj2.
  - exact Ht2.
  - exact Hb2.
  - exists l. auto.
  - exists (L + 3)%nat, h2, h3. split.
    + apply (iter_fresh h1 (N + 2)%nat (N + 1)%nat [] false
               (OMap MVyxalify N)); auto; discriminate.
    + intros n Hn. simpl app in Hlist.
      rewrite <- (Forall2_length _ _ _ Hall) in Hlist.
      replace n with (length l + (2 + 5) + (n - (length l + 7)))%nat by lia.
      apply Hlist.
Qed.

(** [vyxalify] of a native container that is not a list returns a new
    sequence, and a fresh iteration of that sequence yields [vyxalify] of
    every element, in order. *)
Theorem vyxalify_elements l l' h :
  Forall2 (fun y x => vyxalified y = Some x) l l' ->
  exists s h1 j h2 h3,
    vyxalify (VTuple l) h = (Ret (VLazy s), h1) /\
    __iter__ s h1 = (Ret j, h2) /\
    forall n, (length l + 7 <= n)%nat -> py_list n j h2 = (Ret l', h3).
Proof.
  intros Hall.
  destruct (vyxalify_tuple_iteration l l' h Hall) as (j & h2 & h3 & Hi & Hl).
  exists (length h + 2)%nat,
    (h ++ [OGen l; OMap MVyxalify (length h); OLazy (length h + 1) [] false]),
    j, h2, h3.
  split; [apply vyxalify_tuple|]. split; [exact Hi | exact Hl].
Qed.

(** [vyxalify((Integer(3), "a"))]: iterating the result yields [3] and
    ["a"]. *)
Lemma vyxalify_elements_witness :
  fst ((r <- vyxalify (VTuple [VSymInt 3; VStr "a"]) ;;
        it <- py_iter r ;;
        py_list 9 it) [])
  = Ret [VInt 3; VStr "a"].
Proof.
  destruct (vyxalify_elements [VSymInt 3; VStr "a"] [VInt 3; VStr "a"] []
              ltac:(repeat constructor))
    as (s & h1 & j & h2 & h3 & Hv & Hiter & Hlist).
  rewrite (bind_Ret _ _ _ _ _ Hv). unfold py_iter.
  rewrite (bind_Ret _ _ _ _ _ Hiter).
  now rewrite (Hlist 9%nat ltac:(simpl; lia)).
Defined.

(** C8, amended. Whenever [vyxalify] returns, the result is an [int], a
    [Rational], a [str], a native list or a [LazyList].  A native list and
    a [LazyList] are returned as they are, like an [int], a [Rational] and
    a [str]; a sympy [Integer] becomes an [int] and a symbolic product an
    [int] or a [Rational].  Any other iterable [v] becomes a new
    [LazyList] with an empty cache over [map(vyxalify, iter(v))], and
    nothing is produced at that point: its elements are canonicalized one
    by one, each when it is produced ([next] pulls one value [x] from
    [iter(v)] and returns and caches [vyxalify(x)]), so that a fresh
    iteration of the sequence built from a native container yields
    [vyxalify] of every element, in order. *)
Theorem vyxalify_closure v h r h' :
  vyxalify v h = (Ret r, h') ->
  match r with
  | VInt _ | VRat _ | VStr _ | VList _ | VLazy _ => True
  | _ => False
  end /\
  match v with
  | VInt _ | VRat _ | VStr _ | VList _ | VLazy _ => r = v /\ h' = h
  | VSymInt z => r = VInt z /\ h' = h
  | VSymMul q =>
      (r = VInt (Qnum (Qred q)) \/ r = VRat (Qred q)) /\ h' = h
  | VFloat _ => False
  | VTuple _ | VIter _ =>
      exists it hi,
        py_iter v h = (Ret it, hi) /\
        let m := length hi in
        let s := (length hi + 1)%nat in
        r = VLazy s /\
        h' = hi ++ [OMap MVyxalify it; OLazy m [] false] /\
        (forall n h0 g x h1 y h2,
           h0 !! s = Some (OLazy m g false) ->
           h0 !! m = Some (OMap MVyxalify it) ->
           py_next n it h0 = (Ret x, h1) ->
           vyxalify x h1 = (Ret y, h2) ->
           h2 !! s = Some (OLazy m g false) ->
           __next__ (S (S n)) s h0
           = (Ret y, <[s := OLazy m (g ++ [y]) false]> h2)) /\
        (forall l l',
           v = VTuple l ->
           Forall2 (fun y x => vyxalified y = Some x) l l' ->
           exists j h2 h3,
             __iter__ s h' = (Ret j, h2) /\
             forall n, (length l + 7 <= n)%nat ->
               py_list n j h2 = (Ret l', h3))
  end.
Proof.
  intros E. destruct v.
  1, 3, 4, 7, 9:
    unfold vyxalify in E; simpl in E; injection E as <- <-; auto.
  - (* float *)
    unfold vyxalify in E. simpl in E. discriminate.
  - (* sympy Integer *)
    unfold vyxalify in E. simpl in E. injection E as <- <-. auto.
  - (* symbolic product *)
    unfold vyxalify, vyxalify_with, sym_rational in E.
    destruct (Pos.eqb (Qden (Qred q)) 1);
      injection E as <- <-; auto.
  - (* native container *)
    rewrite vyxalify_tuple in E. injection E as <- <-.
    split; [exact I|].
    exists (length h), (h ++ [OGen l]). split; [reflexivity|].
    assert (length (h ++ [OGen l]) = (length h + 1)%nat) as L
      by (rewrite length_app; reflexivity).
    cbv zeta. rewrite L.
    split; [f_equal; lia|]. split; [now rewrite <- app_assoc|].
    split; [intros n h0 g x h1 y h2 ? ? ? ? ?;
            now apply (next_vyxalified n _ _ (length h) g h0 x h1)|].
    intros l0 l' [= <-] Hall.
    replace (length h + 1 + 1)%nat with (length h + 2)%nat by lia.
    now apply vyxalify_tuple_iteration.
  - (* iterator *)
    rewrite vyxalify_iterator in E. injection E as <- <-.
    split; [exact I|].
    exists l, h. split; [reflexivity|]. cbv zeta.
    split; [reflexivity|]. split; [reflexivity|].
    split; [intros n h0 g x h1 y h2 ? ? ? ? ?;
            now apply (next_vyxalified n _ _ l g h0 x h1)|].
    intros l0 l' [=].
Qed.

(** [vyxalify((Mul giving 1/2, Integer(3)))]: the new sequence yields
    [Rational(1, 2)] and [3]. *)
Lemma vyxalify_closure_witness :
  fst ((r <- vyxalify (VTuple [VSymMul (1 # 2); VSymInt 3]) ;;
        it <- py_iter r ;;
        py_list 9 it) [])
  = Ret [VRat (1 # 2); VInt 3].
Proof.
  destruct (vyxalify_closure (VTuple [VSymMul (1 # 2); VSymInt 3]) []
              _ _ eq_refl)
    as (_ & it & hi & Hit & Hr & Hh & _ & Hall).
  injection Hit as <- <-.
  destruct (Hall [VSymMul (1 # 2); VSymInt 3] [VRat (1 # 2); VInt 3]
              eq_refl ltac:(repeat constructor))
    as (j & h2 & h3 & Hiter & Hlist).
  rewrite (bind_Ret _ _ _ _ _ (vyxalify_tuple _ _)). unfold py_iter.
  rewrite (bind_Ret _ _ _ _ _ Hiter).
  now rewrite (Hlist 9%nat ltac:(simpl; lia)).
Defined.

(** [vyxalify] is idempotent: what it returns, it returns unchanged. *)
Theorem vyxalify_idempotent v h r h' :
  vyxalify v h = (Ret r, h') -> vyxalify r h' = (Ret r, h').
Proof.
  unfold vyxalify.
  destruct v; simpl; unfold ret, raise;
    try (intros E; injection E as <- <-; reflexivity);
    try (intros E;
         destruct (vyxalify_iterable _ _ _ _ E) as (s & ->);
         reflexivity);
    try discriminate.
  unfold sym_rational. destruct (Pos.eqb (Qden (Qred q)) 1); simpl;
    unfold ret; intros E; injection E as <- <-; reflexivity.
Qed.

(** [vyxalify(vyxalify(Integer(3)))] is [3]. *)
Lemma vyxalify_idempotent_witness : vyxalify (VInt 3) [] = (Ret (VInt 3), []).
Proof. exact (vyxalify_idempotent (VSymInt 3) [] (VInt 3) [] eq_refl). Defined.

(** ** [join_with] on native containers *)

(** The generator [join_with(lhs, rhs)] over two native containers yields
    the elements of the first and then those of the second; once it has
    stopped it stays stopped. *)
Theorem join_with_containers lhs rhs l1 l2 h :
  container lhs = Some l1 ->
  container rhs = Some l2 ->
  exists j h1 h2,
    join_with lhs rhs h = (Ret j, h1) /\
    (forall n, (length (l1 ++ l2) + 5 <= n)%nat ->
       py_list n j h1 = (Ret (l1 ++ l2), h2)) /\
    exists h3, forall n, (4 <= n)%nat ->
      py_next n j h2 = (Raise StopIteration, h3).
Proof.
  intros Hl Hr.
  set (j := length h). set (h1 := h ++ [OJoin (JStart lhs rhs)]).
  assert (h1 !! j = Some (OJoin (JStart lhs rhs))) as Hj
    by (unfold h1, j; now apply list_lookup_middle).
  set (P := fun l : loc => l = j).
  set (InvI := fun (it : loc) (xs : list value) (h' : heap) =>
                 h' !! it = Some (OGen xs) /\
                 ((j < length h')%nat /\ it <> j)).
  assert (forall it, iterator it 1 P (InvI it)) as Hgen.
  { intros it. apply (gen_iterator it P).
    - intros h' [_ Hne] Hp. now apply Hne.
    - intros h' o [Hlt Hne]. now rewrite length_insert. }
  assert (forall it, stable_at j (InvI it)) as Hst.
  { intros it xs h' o (Hit & Hlt & Hne).
    split; [rewrite list_lookup_insert_ne by auto; exact Hit|].
    now rewrite length_insert. }
  assert (iterator j (1 + 3) (join_protected j P)
            (join_inv j lhs rhs (fun h' => (j < length h')%nat) InvI InvI
               l1 l2)) as Hjoin.
  { apply (join_iterator j lhs rhs 1 P); auto.
    - reflexivity.
    - intros h' Hlt. exists (length h'), (h' ++ [OGen l1]).
      split; [now apply py_iter_container|].
      split; [|apply preserves_alloc].
      split; [now apply list_lookup_middle|].
      rewrite length_app. simpl. lia.
    - intros lit h' (_ & Hlt & _). exists (length h'), (h' ++ [OGen l2]).
      split; [now apply py_iter_container|].
      split; [|apply preserves_alloc].
      split; [now apply list_lookup_middle|].
      rewrite length_app. simpl. lia. }
  destruct (py_list_iterator _ _ _ _ Hjoin (l1 ++ l2) h1)
    as (h2 & Hlist & Hinv & _).
  { left. split; [exact Hj|]. split; [|reflexivity].
    unfold h1, j. rewrite length_app. simpl. lia. }
  destruct (Hjoin [] h2 Hinv) as (h3 & Hstop & _).
  exists j, h1, h2. split; [reflexivity|]. split.
  - intros n Hn.
    replace n with (length (l1 ++ l2) + (1 + 3) + 1
                    + (n - (length (l1 ++ l2) + 5)))%nat by lia.
    apply Hlist.
  - exists h3. intros n Hn.
    replace n with (1 + 3 + (n - 4))%nat by lia. apply Hstop.
Qed.

(** [list(join_with([1, 2], (3,)))] is [[1, 2, 3]]. *)
Lemma join_with_containers_witness :
  fst ((j <- join_with (VList [VInt 1; VInt 2]) (VTuple [VInt 3]) ;;
        py_list 8 j) [])
  = Ret [VInt 1; VInt 2; VInt 3].
Proof.
  destruct (join_with_containers
              (VList [VInt 1; VInt 2]) (VTuple [VInt 3])
              [VInt 1; VInt 2] [VInt 3] [] eq_refl eq_refl)
    as (j & h1 & h2 & Hjoin & Hlist & _).
  rewrite (bind_Ret _ _ _ _ _ Hjoin).
  now rewrite (Hlist 8%nat ltac:(simpl; lia)).
Defined.

(** ** Negative indices in general *)

(** [list(self)]: the cached values followed by the pending ones; the
    sequence is left with some producer and some cache. *)
Lemma list_of_self h s raw pre inf rest :
  h !! s = Some (OLazy raw pre inf) ->
  producer h raw rest ->
  forallb inert rest = true ->
  exists h' r g,
    (forall n,
       (length (pre ++ rest) + 6 + list_max (map simplify_fuel rest) <= n)%nat ->
       list_of n (VLazy s) h = (Ret (pre ++ rest), h')) /\
    h' !! s = Some (OLazy r g inf).
Proof.
  intros Hs Hp Hin.
  assert (Forall quiet rest) as Hq.
  { rewrite forallb_forall in Hin. apply Forall_forall. intros x Hx.
    apply inert_quiet, Hin. now apply list_elem_of_In. }
  destruct (iter_spec _ _ _ _ _ _ Hs Hp)
    as (j & c0 & c1 & b & u & h1 & Hiter & Hs1 & Hj1 & Hc0 & Hc1 & _ & Hne &
        _ & _ & _ & _ & _).
  destruct (clone_kinds _ _ _ _ _ _ _ Hc1 Hs1 eq_refl) as (Hsc & Hsb & Hsu).
  destruct (clone_kinds _ _ _ _ _ _ _ Hc1 Hj1 eq_refl) as (Hjc & Hjb & Hju).
  destruct (clone_kinds _ _ _ _ _ _ _ Hc0 Hj1 eq_refl) as (Hjc0 & _ & _).
  destruct (clone_lt _ _ _ _ _ Hc1) as (Lc & Lb & Lu).
  pose proof (lookup_lt_Some _ _ _ Hs1) as Ls.
  pose proof (lookup_lt_Some _ _ _ Hj1) as Lj.
  assert (s <> j) as Hsj by (intros ->; congruence).
  destruct (length_hint_clone h1 s c0 b u pre inf rest
              (fun h => clone h c1 b u rest /\
                        h !! j = Some (OJoin (JStart (VList pre) (VIter c1)))))
    as (h2 & r2 & g2 & Hhint & [Hc12 Hj2] & Hs2 & L2); auto.
  { intros h0 h' [Hc H0] (Hl & Hfr & Hsib). split.
    - apply Hsib; auto.
    - rewrite Hfr; auto. }
  { intros h0 l [Hc H0]. split.
    - now apply clone_app.
    - rewrite lookup_app_l; auto. exact (lookup_lt_Some _ _ _ H0). }
  { intros h0 o [Hc H0]. split.
    - apply clone_store; auto.
    - rewrite list_lookup_insert_ne; auto. }
  destruct (iteration_list j c1 b u pre rest (length h1)
              (fun h => h !! s = Some (OLazy r2 g2 inf)) (fun _ => False))
    with (h := h2) as (h3 & Hlist & _ & Hs3 & _).
  - intros h0 h' H0 (Hl & Hfr & Hsib). rewrite Hfr; auto.
  - intros h0 o H0. rewrite list_lookup_insert_ne; auto.
  - intros h0 l o H0 Hl. rewrite list_lookup_insert_ne; auto. lia.
  - intros h0 o H0. rewrite lookup_app_l; auto.
    exact (lookup_lt_Some _ _ _ H0).
  - intros l [].
  - exact Hj2.
  - repeat split; auto.
  - exists h3, r2, g2. split; [|exact Hs3].
    intros n Hn. unfold list_of, py_iter.
    rewrite (bind_Ret _ _ _ _ _ Hiter).
    rewrite (bind_Ret _ _ _ _ _
               (Hhint n ltac:(rewrite length_app in Hn; lia))).
    replace n with (length (pre ++ rest) + 6
                    + (n - (length (pre ++ rest) + 6)))%nat by lia.
    apply Hlist.
Qed.

(** Any negative index is answered from the cache after
    [self.generated += list(self)], which is the old cache followed by
    all the elements.  With [k] values cached before the call and [n]
    elements in all, the cache has [n + k] values then: an index
    [-(n + k) <= i < 0] is answered with the value at [n + k + i] of that
    list (for [i < -n] a value of the repeated cached prefix), and only an
    index below [-(n + k)] raises [IndexError]. *)
Theorem getitem_negative_any h s raw pre inf rest (i : Z) :
  h !! s = Some (OLazy raw pre inf) ->
  producer h raw rest ->
  forallb inert rest = true ->
  i < 0 ->
  let cache := pre ++ pre ++ rest in
  let fuel := (length (pre ++ rest) + 6
               + list_max (map simplify_fuel rest))%nat in
  exists h' r,
    h' !! s = Some (OLazy r cache inf) /\
    (i + Z.of_nat (length cache) < 0 ->
     forall n, (fuel <= n)%nat ->
       __getitem__ n s (PInt i) h = (Raise IndexError, h')) /\
    (forall v,
       0 <= i + Z.of_nat (length cache) ->
       cache !! Z.to_nat (i + Z.of_nat (length cache)) = Some v ->
       forall n, (fuel <= n)%nat ->
         __getitem__ n s (PInt i) h = (Ret v, h')).
Proof.
  intros Hs Hp Hin Hi cache fuel.
  destruct (list_of_self _ _ _ _ _ _ Hs Hp Hin)
    as (h3 & r & g & Hlist & Hs3).
  set (h' := <[s := OLazy r cache inf]> h3).
  assert (h' !! s = Some (OLazy r cache inf)) as Hs'
    by (apply list_lookup_insert_eq; exact (lookup_lt_Some _ _ _ Hs3)).
  assert (forall n, (fuel <= n)%nat ->
            __getitem__ n s (PInt i) h = py_index cache i h') as Hrun.
  { intros n Hn. unfold __getitem__, getitem_int.
    rewrite (bind_Ret _ _ _ _ _ (get_generated_at _ _ _ _ _ Hs)).
    replace (i <? 0) with true by (symmetry; apply Z.ltb_lt; lia).
    rewrite (bind_Ret _ _ _ _ _ (Hlist n Hn)).
    rewrite (bind_Ret _ _ _ _ _ (set_generated_at _ _ _ _ _ cache Hs3)).
    fold h'.
    now rewrite (bind_Ret _ _ _ _ _ (get_generated_at _ _ _ _ _ Hs')). }
  exists h', r. split; [exact Hs'|]. split.
  - intros Hlow n Hn. rewrite (Hrun n Hn). unfold py_index.
    replace (i <? 0) with true by (symmetry; apply Z.ltb_lt; lia).
    replace (0 <=? i + Z.of_nat (length cache)) with false
      by (symmetry; apply Z.leb_gt; lia).
    reflexivity.
  - intros v Hlo Hv n Hn. rewrite (Hrun n Hn).
    now apply py_index_negative.
Qed.

(** With [1] cached and [2, 3] pending, [get(-4)] is [1] and [get(-5)]
    raises [IndexError]. *)
Lemma getitem_negative_any_witness :
  fst (__getitem__ 10 1%nat (PInt (-4))
         [OGen [VInt 2; VInt 3]; OLazy 0 [VInt 1] false])
  = Ret (VInt 1) /\
  fst (__getitem__ 10 1%nat (PInt (-5))
         [OGen [VInt 2; VInt 3]; OLazy 0 [VInt 1] false])
  = Raise IndexError.
Proof.
  split.
  - destruct (getitem_negative_any
                [OGen [VInt 2; VInt 3]; OLazy 0 [VInt 1] false]
                1 0 [VInt 1] false [VInt 2; VInt 3] (-4)
                eq_refl (or_introl eq_refl) eq_refl ltac:(lia))
      as (h' & r & _ & _ & Hrun).
    now rewrite (Hrun (VInt 1) ltac:(simpl; lia) eq_refl 10%nat
                   ltac:(simpl; lia)).
  - destruct (getitem_negative_any
                [OGen [VInt 2; VInt 3]; OLazy 0 [VInt 1] false]
                1 0 [VInt 1] false [VInt 2; VInt 3] (-5)
                eq_refl (or_introl eq_refl) eq_refl ltac:(lia))
      as (h' & r & _ & Hrun & _).
    now rewrite (Hrun ltac:(simpl; lia) 10%nat ltac:(simpl; lia)).
Defined.

(** ** [simplify] on numbers, strings and native containers *)

Lemma drain_flat it m K (P : loc -> Prop) Inv :
  iterator it K P Inv ->
  (forall xs h l, Inv xs h -> Inv xs (h ++ l)) ->
  P m ->
  forall xs h,
    Inv xs h -> h !! m = Some (OMap MSimplify it) -> Forall flattens xs ->
    exists h',
      (forall d, (length xs + K + 2 + list_max (map simplify_fuel xs) <= d)%nat ->
         py_list d m h = (Ret (map flat xs), h')) /\
      preserves P h h'.
Proof.
  intros Hit Happ Pm xs. induction xs as [|x xs IH]; intros h Hinv Hm Hq.
  - destruct (Hit [] h Hinv) as (h' & Hn & Hi & Hp).
    exists h'. split; [|exact Hp].
    intros d Hd. simpl in Hd.
    destruct d as [|[|d]]; try lia.
    rewrite py_list_S. unfold try_stop.
    rewrite (bind_Raise _ _ h StopIteration h'); [reflexivity|].
    rewrite (next_map_simplify _ _ _ _ Hm).
    apply bind_Raise. replace d with (K + (d - K))%nat by lia. apply Hn.
  - destruct (Hit (x :: xs) h Hinv) as (h1 & Hn & Hi & Hp).
    inversion Hq as [|? ? Hx Hxs]; subst.
    destruct (Hx h1) as (junk & Hsim).
    assert ((h1 ++ junk) !! m = Some (OMap MSimplify it)) as Hm1.
    { rewrite lookup_app_l by
        (pose proof (lookup_lt_Some _ _ _ Hm); destruct Hp; lia).
      exact (preserves_lookup _ _ _ _ _ Hp Pm Hm). }
    assert (preserves P h (h1 ++ junk)) as Hp1.
    { destruct Hp as [L F]. split; [rewrite length_app; lia|].
      intros l Hl Hlt. rewrite lookup_app_l by lia. auto. }
    destruct (IH (h1 ++ junk) (Happ _ _ _ Hi) Hm1 Hxs) as (h' & Hl & Hp').
    exists h'. split; [|exact (preserves_trans _ _ _ _ Hp1 Hp')].
    intros d Hd. simpl in Hd.
    destruct d as [|[|d]]; try lia.
    rewrite py_list_S. unfold try_stop.
    assert (py_next (S d) m h = (Ret (flat x), h1 ++ junk)) as Hnext.
    { rewrite (next_map_simplify _ _ _ _ Hm).
      rewrite (bind_Ret _ _ h x h1)
        by (replace d with (K + (d - K))%nat by lia; apply Hn).
      apply Hsim. lia. }
    rewrite (bind_Ret _ _ _ _ _ Hnext).
    unfold bind. rewrite (Hl (S d)) by lia. reflexivity.
Qed.

Lemma flattens_container v l :
  py_iter v = alloc (OGen l) ->
  (forall n, simplify (S n) v
             = (m <- py_map MSimplify v ;; l <- py_list n m ;; ret (VList l))) ->
  simplify_fuel v = (length l + 4 + list_max (map simplify_fuel l))%nat ->
  flat v = VList (map flat l) ->
  Forall flattens l -> flattens v.
Proof.
  intros Hiter Hsim Hfuel Hflat Hq h.
  set (g := length h). set (h1 := (h ++ [OGen l]) ++ [OMap MSimplify g]).
  assert (length (h ++ [OGen l]) = S g) as Lm
    by (rewrite length_app; simpl; unfold g; lia).
  assert (py_map MSimplify v h = (Ret (S g), h1)) as Hmap.
  { unfold py_map. rewrite Hiter. unfold alloc, bind. now rewrite Lm. }
  assert (h1 !! g = Some (OGen l)) as Hg.
  { unfold h1. rewrite <- app_assoc. apply list_lookup_middle. reflexivity. }
  assert (h1 !! S g = Some (OMap MSimplify g)) as Hm.
  { unfold h1. rewrite <- Lm. apply list_lookup_middle. reflexivity. }
  destruct (drain_flat g (S g) 1 (fun l => l <> g)
              (fun xs h => h !! g = Some (OGen xs) /\ True)) with (xs := l) (h := h1)
    as (h' & Hl & [L F]); auto.
  - apply gen_iterator; auto.
  - intros xs h0 k [H0 _]. split; [|exact I].
    rewrite lookup_app_l; auto. exact (lookup_lt_Some _ _ _ H0).
  - assert (length h <= length h')%nat as L'
      by (unfold h1 in L; rewrite !length_app in L; simpl in L; lia).
    assert (forall i, (i < length h)%nat -> h' !! i = h !! i) as F'.
    { intros i Hi. rewrite F.
      - unfold h1. rewrite <- app_assoc. now apply lookup_app_l.
      - unfold g. lia.
      - unfold h1. rewrite !length_app. simpl. lia. }
    exists (drop (length h) h').
    intros d Hd. rewrite Hfuel in Hd.
    destruct d as [|d]; [lia|]. rewrite Hsim.
    rewrite (bind_Ret _ _ _ _ _ Hmap).
    rewrite (bind_Ret _ _ _ _ _ (Hl d ltac:(lia))).
    unfold ret. rewrite Hflat. f_equal. now apply heap_extends.
Qed.

Lemma flattenable_flattens v : flattenable v = true -> flattens v.
Proof.
  assert (forall k v, (simplify_fuel v <= k)%nat -> flattenable v = true ->
                      flattens v)
    as Hall; [|now apply (Hall (simplify_fuel v))].
  clear v. intros k. induction k as [|k IH]; intros v Hk Hv.
  { destruct v; simpl in Hk; lia. }
  assert (forall l, (list_max (map simplify_fuel l) <= k)%nat ->
                    forallb flattenable l = true -> Forall flattens l) as Hels.
  { intros l Hmax Hin. apply list_max_le in Hmax.
    rewrite Forall_map in Hmax. rewrite forallb_forall in Hin.
    apply Forall_forall. intros x Hx. apply IH.
    - rewrite Forall_forall in Hmax. now apply Hmax.
    - apply Hin. now apply list_elem_of_In. }
  destruct v; simpl in Hv; try discriminate.
  all: try (intros h; exists []; rewrite app_nil_r;
            intros [|d] Hd; [simpl in Hd; lia | reflexivity]).
  - apply (flattens_container _ l); auto. apply Hels; auto. simpl in Hk. lia.
  - apply (flattens_container _ l); auto. apply Hels; auto. simpl in Hk. lia.
Qed.

Lemma flat_flattenable v :
  flattenable v = true ->
  flattenable (flat v) = true /\ flat (flat v) = flat v /\
  simplify_fuel (flat v) = simplify_fuel v.
Proof.
  assert (forall k v, (simplify_fuel v <= k)%nat -> flattenable v = true ->
            flattenable (flat v) = true /\ flat (flat v) = flat v /\
            simplify_fuel (flat v) = simplify_fuel v)
    as Hall; [|now apply (Hall (simplify_fuel v))].
  clear v. intros k. induction k as [|k IH]; intros v Hk Hv.
  { destruct v; simpl in Hk; lia. }
  assert (forall l, (list_max (map simplify_fuel l) <= k)%nat ->
            forallb flattenable l = true ->
            forallb flattenable (map flat l) = true /\
            map flat (map flat l) = map flat l /\
            map simplify_fuel (map flat l) = map simplify_fuel l) as Hels.
  { intros l Hmax Hin. apply list_max_le in Hmax.
    rewrite Forall_map in Hmax.
    induction l as [|x l IHl]; [auto|].
    simpl in Hin. apply andb_true_iff in Hin as [Hx Hin].
    inversion Hmax as [|? ? Hmx Hml]; subst.
    destruct (IH x Hmx Hx) as (H1 & H2 & H3).
    destruct (IHl Hml Hin) as (H4 & H5 & H6).
    simpl. rewrite H1, H2, H3, H4, H5, H6. auto. }
  destruct v; simpl in Hv; try discriminate; try (simpl; auto; fail).
  - simpl in Hk. destruct (Hels l ltac:(lia) Hv) as (H1 & H2 & H3).
    simpl. rewrite H1, H2, H3, length_map. auto.
  - simpl in Hk. destruct (Hels l ltac:(lia) Hv) as (H1 & H2 & H3).
    simpl. rewrite H1, H2, H3, length_map. auto.
Qed.

(** [simplify] on a value built from numbers, strings and native lists
    and tuples: the result is [flat] of the value (rationals as floats,
    every container a list), nothing that exists is touched, and
    simplifying the result again returns it unchanged. *)
Theorem simplify_flattens v h :
  flattenable v = true ->
  exists h' h'',
    (forall n, (simplify_fuel v <= n)%nat ->
       simplify n v h = (Ret (flat v), h')) /\
    (forall l, (l < length h)%nat -> h' !! l = h !! l) /\
    (forall n, (simplify_fuel v <= n)%nat ->
       simplify n (flat v) h' = (Ret (flat v), h'')).
Proof.
  intros Hv.
  destruct (flat_flattenable v Hv) as (Hfv & Hff & Hfuel).
  destruct (flattenable_flattens v Hv h) as (junk & Hrun).
  destruct (flattenable_flattens (flat v) Hfv (h ++ junk)) as (junk' & Hrun').
  exists (h ++ junk), ((h ++ junk) ++ junk').
  split; [exact Hrun|]. split.
  - intros l Hl. now apply lookup_app_l.
  - intros n Hn. rewrite <- Hff at 2. apply Hrun'. now rewrite Hfuel.
Qed.

(** [simplify((1, [Rational(1, 2)]))] is [[1, [0.5]]]. *)
Lemma simplify_flattens_witness :
  fst (simplify 12 (VTuple [VInt 1; VList [VRat (1 # 2)]]) [])
  = Ret (VList [VInt 1; VList [VFloat (Finite (1 # 2))]]).
Proof.
  destruct (simplify_flattens (VTuple [VInt 1; VList [VRat (1 # 2)]]) []
              eq_refl) as (h' & h'' & Hrun & _).
  now rewrite (Hrun 12%nat ltac:(simpl; lia)).
Defined.
